(** * monitor_overlay: sampling, phrase selection, mood score, docking and
      the collapse/expand transition controller

    A shallow embedding of [src/main.py] and [src/sensors_psutil.py].

    Conventions of the model.
    - Python [int] is [Z]; Python [float] is idealised as an exact rational
      [Q] (no rounding, no NaN, no infinities).  Comparisons, [max] and [min]
      are written with the argument order the source uses.  The arithmetic
      of the mood score is given a second time in module [Float64], in IEEE
      754 binary64 as Python computes it.
    - A call that may raise returns an [outcome]; a [try/except] is a match
      on it.  Objects mutated in place are passed in and returned.
    - [random.choice] reads from an explicit generator state [Rng].
    - Qt is outside the repository: a [QRect] is the record of its four
      integers with Qt's inclusive [right]/[bottom], the window keeps the
      geometry and opacity last written to it, and the animation group is the
      record of the values handed to it plus the calls it received. *)

From Stdlib Require Import ZArith QArith Lqa Lia Bool List String.
From Stdlib Require SpecFloat.
From stdpp Require Import gmap strings.
Import ListNotations.

Local Open Scope Z_scope.

(* ------------------------------------------------------------------ *)
(** * Python values and control flow *)
(* ------------------------------------------------------------------ *)

Module Py.

(** The exceptions the modelled code can meet. *)
Inductive exn : Type :=
| OsError      (* an OS / psutil / sensor-library call failed *)
| IndexError.  (* indexing or choosing from an empty sequence *)

(** Result of a call that either returns or raises. *)
Inductive outcome (A : Type) : Type :=
| Ok (a : A)
| Raised (e : exn).
Arguments Ok {A} a.
Arguments Raised {A} e.

Definition raises {A} (o : outcome A) : bool :=
  match o with Ok _ => false | Raised _ => true end.

(** [max(a, b)] on floats: the first argument unless the second is greater. *)
Definition fmax (a b : Q) : Q := if Qlt_le_dec a b then b else a.

(** [min(a, b)] on floats: the first argument unless the second is smaller. *)
Definition fmin (a b : Q) : Q := if Qlt_le_dec b a then b else a.

(** [max(a, b)] and [min(a, b)] on ints. *)
Definition imax (a b : Z) : Z := if Z_lt_le_dec a b then b else a.
Definition imin (a b : Z) : Z := if Z_lt_le_dec b a then b else a.

(** [def clamp(n, a, b): return max(a, min(b, n))] *)
Definition clamp (n a b : Z) : Z := imax a (imin b n).

End Py.
Import Py.

(* ------------------------------------------------------------------ *)
(** * Rate sampling: [DiskRateReader] (main.py) and [PsutilReader]
    (sensors_psutil.py) *)
(* ------------------------------------------------------------------ *)

Module Sampler.

(** [psutil.disk_io_counters()] and [psutil.net_io_counters()] results,
    reduced to the fields the code reads. *)
Record sdiskio : Type := { read_bytes : Z; write_bytes : Z }.
Record snetio : Type := { bytes_sent : Z; bytes_recv : Z }.
Record svmem : Type := { percent : Q; used : Z; available : Z }.
Record scpufreq : Type := { current : Q }.

(** [1024 * 1024] and [1024 ** 3] *)
Definition MiB : Q := inject_Z (1024 * 1024).
Definition GiB : Q := inject_Z (1024 ^ 3).

(** ** DiskRateReader *)

Record DiskRateReader : Type := {
  _last : option sdiskio;
  _last_t : option Q
}.

(** [DiskRateReader.__init__] *)
Definition DiskRateReader_init : DiskRateReader :=
  {| _last := None; _last_t := None |}.

(** [if r < 0: r = 0.0] *)
Definition floor_at_zero (r : Q) : Q := if Qlt_le_dec r 0 then 0%Q else r.

(** [DiskRateReader.read].  [io_call] is the outcome of
    [psutil.disk_io_counters()], [now] the value of [time.time()].  The
    whole body sits in [try: ... except Exception: return None, None]. *)
Definition DiskRateReader_read (self : DiskRateReader)
    (io_call : outcome (option sdiskio)) (now : Q)
  : DiskRateReader * (option Q * option Q) :=
  match io_call with
  | Raised _ => (self, (None, None))
  | Ok None => (self, (None, None))
  | Ok (Some io) =>
      match _last self, _last_t self with
      | Some last, Some last_t =>
          let dt := fmax (1 # 1000) (now - last_t) in
          let read_bps := (inject_Z (read_bytes io - read_bytes last) / dt)%Q in
          let write_bps := (inject_Z (write_bytes io - write_bytes last) / dt)%Q in
          let self' := {| _last := Some io; _last_t := Some now |} in
          let r := floor_at_zero (read_bps / MiB) in
          let w := floor_at_zero (write_bps / MiB) in
          (self', (Some r, Some w))
      | _, _ =>
          ({| _last := Some io; _last_t := Some now |}, (Some 0%Q, Some 0%Q))
      end
  end.

(** ** PsutilReader *)

Record RateState : Type := {
  last_ts : Q;
  last_disk_read : Z;
  last_disk_write : Z;
  last_net_sent : Z;
  last_net_recv : Z
}.

(** What one call of [PsutilReader.read] obtains from the system, in the
    order the calls are made. *)
Record PsutilCalls : Type := {
  time_time : Q;
  disk_io_counters : outcome (option sdiskio);
  net_io_counters : outcome (option snetio);
  cpu_percent : outcome (option Q);
  cpu_freq : outcome (option scpufreq);
  virtual_memory : outcome (option svmem)
}.

(** The dictionary [PsutilReader.read] returns; its keys are fixed, so it
    is a record with one optional field per key. *)
Record Readings : Type := {
  cpu_usage : option Q;
  cpu_freq_psutil : option Q;
  ram_usage : option Q;
  ram_used_gb : option Q;
  ram_avail_gb : option Q;
  disk_read_mb_s : option Q;
  disk_write_mb_s : option Q;
  net_up_mb_s : option Q;
  net_down_mb_s : option Q
}.

(** [PsutilReader.__init__] *)
Definition PsutilReader_init (now : Q) (d : option sdiskio) (n : option snetio)
  : RateState :=
  {| last_ts := now;
     last_disk_read := match d with Some d => read_bytes d | None => 0 end;
     last_disk_write := match d with Some d => write_bytes d | None => 0 end;
     last_net_sent := match n with Some n => bytes_sent n | None => 0 end;
     last_net_recv := match n with Some n => bytes_recv n | None => 0 end |}.

(** [x / (1024**2) if x is not None else None] *)
Definition to_mb (x : option Q) : option Q :=
  match x with Some v => Some (v / MiB)%Q | None => None end.

(** The state after the [if d:] and [if n:] blocks and [last_ts = now]. *)
Definition advance (st : RateState) (now : Q)
    (d : option sdiskio) (n : option snetio) : RateState :=
  {| last_ts := now;
     last_disk_read := match d with Some d => read_bytes d | None => last_disk_read st end;
     last_disk_write := match d with Some d => write_bytes d | None => last_disk_write st end;
     last_net_sent := match n with Some n => bytes_sent n | None => last_net_sent st end;
     last_net_recv := match n with Some n => bytes_recv n | None => last_net_recv st end |}.

(** [PsutilReader.read].  There is no [try] in this method: whichever
    system call raises, the exception leaves [read], with the state as
    mutated so far. *)
Definition PsutilReader_read (st : RateState) (os : PsutilCalls)
  : RateState * outcome Readings :=
  let now := time_time os in
  let dt := fmax (1 # 1000) (now - last_ts st) in
  match disk_io_counters os with
  | Raised e => (st, Raised e)
  | Ok d =>
  match net_io_counters os with
  | Raised e => (st, Raised e)
  | Ok n =>
    let disk_read_bps :=
      match d with
      | Some d => Some (inject_Z (read_bytes d - last_disk_read st) / dt)%Q
      | None => None end in
    let disk_write_bps :=
      match d with
      | Some d => Some (inject_Z (write_bytes d - last_disk_write st) / dt)%Q
      | None => None end in
    let up_bps :=
      match n with
      | Some n => Some (inject_Z (bytes_sent n - last_net_sent st) / dt)%Q
      | None => None end in
    let down_bps :=
      match n with
      | Some n => Some (inject_Z (bytes_recv n - last_net_recv st) / dt)%Q
      | None => None end in
    let st' := advance st now d n in
    match cpu_percent os with
    | Raised e => (st', Raised e)
    | Ok cpu =>
    match cpu_freq os with
    | Raised e => (st', Raised e)
    | Ok freq =>
    match virtual_memory os with
    | Raised e => (st', Raised e)
    | Ok vm =>
      (st', Ok {|
        cpu_usage := cpu;
        cpu_freq_psutil :=
          match freq with
          | Some f => if Qeq_bool (current f) 0 then None else Some (current f)
          | None => None end;
        ram_usage := option_map percent vm;
        ram_used_gb := option_map (fun v => inject_Z (used v) / GiB)%Q vm;
        ram_avail_gb := option_map (fun v => inject_Z (available v) / GiB)%Q vm;
        disk_read_mb_s := to_mb disk_read_bps;
        disk_write_mb_s := to_mb disk_write_bps;
        net_up_mb_s := to_mb up_bps;
        net_down_mb_s := to_mb down_bps |})
    end end end
  end end.

End Sampler.

(* ------------------------------------------------------------------ *)
(** * Phrase buckets and [PhraseManager] (main.py) *)
(* ------------------------------------------------------------------ *)

Module Phrases.

(** [Buckets = List[Tuple[float, float, List[str]]]] *)
Definition Bucket : Type := (Q * Q * list string)%type.
Definition Buckets : Type := list Bucket.

Definition lo_of (b : Bucket) : Q := fst (fst b).
Definition hi_of (b : Bucket) : Q := snd (fst b).
Definition texts_of (b : Bucket) : list string := snd b.

Definition CPU_BUCKETS : Buckets := [
  (0, 10, ["摸鱼模式 😴"; "待机冥想 🧘"; "风扇在休假 🌿"]);
  (10, 30, ["轻松写写 ✍️"; "低功耗巡航 🛫"; "小跑一下 🏃"]);
  (30, 60, ["认真干活中 🛠️"; "多线程开工 🧵"; "正在加班 ☕"]);
  (60, 85, ["火力全开 💪"; "CPU 在狂奔 🏎️"; "性能模式 ON ⚡"]);
  (85, 101, ["快冒烟了 🔥"; "别再加任务了 😵"; "风扇起飞 ✈️"])
]%Q.

Definition GPU_BUCKETS : Buckets := [
  (0, 10, ["显卡在睡觉 💤"; "桌面模式 🖥️"; "低频养生 🌙"]);
  (10, 35, ["轻量渲染 🎨"; "小试牛刀 🐮"; "打个小怪 👾"]);
  (35, 65, ["稳稳输出 🎯"; "正在加速 🚀"; "甜品负载 🍰"]);
  (65, 90, ["光追开到爽 ✨"; "显卡在燃烧 🔥"; "帧数冲刺 🏁"]);
  (90, 101, ["核弹渲染 ☢️"; "GPU：我尽力了 😭"; "要爆了 📢"])
]%Q.

Definition RAM_BUCKETS : Buckets := [
  (0, 25, ["内存很松 🫧"; "还很空 😌"; "随便开都行 🧃"]);
  (25, 55, ["占用正常 ✅"; "稳稳的 🧘"; "够用就好 🙂"]);
  (55, 75, ["开始拥挤了 🚶"; "有点挤 😅"; "注意后台 👀"]);
  (75, 90, ["内存吃紧 🧨"; "要清理了 🧹"; "后台太多了 😵"]);
  (90, 101, ["内存告急 🚨"; "快溢出了 🫠"; "请关闭点东西 😭"])
]%Q.

Definition DISK_IO_BUCKETS : Buckets := [
  (0, 0.3, ["磁盘打盹 💤"; "几乎不动 🤫"; "空闲摸鱼 🫧"]);
  (0.3, 5, ["轻轻翻页 📄"; "读写小忙 🧃"; "稳稳的 🙂"]);
  (5, 30, ["读写加速 ⚙️"; "缓存热身 🔥"; "开始认真 🛠️"]);
  (30, 120, ["磁盘起飞 🚀"; "吞吐拉满 💽"; "别打扰我 😵"]);
  (120, 1e9, ["IO 爆表 🚨"; "疯狂读写 ☢️"; "卡顿预警 ⚠️"])
]%Q.

Definition MOOD_BUCKETS : Buckets := [
  (0, 20, ["摸鱼中 😴"; "静默 🫧"; "养生 🌿"]);
  (20, 40, ["巡航 🛫"; "小忙 🙂"; "不慌 🧘"]);
  (40, 60, ["认真 🛠️"; "开工 ⚙️"; "稳稳输出 ✅"]);
  (60, 80, ["加速 🚀"; "火力全开 💪"; "起飞 ✈️"]);
  (80, 101, ["爆肝 🔥"; "快冒烟 🥵"; "救命 🚨"])
]%Q.

(** [lo <= usage < hi] *)
Definition in_range (lo hi usage : Q) : bool :=
  if Qlt_le_dec usage lo then false
  else if Qlt_le_dec usage hi then true else false.

(** The [for i, (lo, hi, texts) in enumerate(buckets)] loop of
    [_pick_bucket], started at index [i]; [None] when the loop ends without
    returning. *)
Fixpoint scan (i : Z) (buckets : Buckets) (usage : Q) : option (Z * list string) :=
  match buckets with
  | [] => None
  | (lo, hi, texts) :: rest =>
      if in_range lo hi usage then Some (i, texts) else scan (i + 1) rest usage
  end.

(** [buckets[-1]] *)
Definition last_bucket (buckets : Buckets) : outcome Bucket :=
  match buckets with
  | [] => Raised IndexError
  | b :: rest => Ok (List.last rest b)
  end.

(** [_pick_bucket]: the scan, then the fall-through
    [return len(buckets) - 1, buckets[-1][2]]. *)
Definition _pick_bucket (buckets : Buckets) (usage : Q) : outcome (Z * list string) :=
  match scan 0 buckets usage with
  | Some r => Ok r
  | None =>
      match last_bucket buckets with
      | Ok b => Ok (Z.of_nat (length buckets) - 1, texts_of b)
      | Raised e => Raised e
      end
  end.

(** A table in ascending order: no later bucket starts below an earlier
    one. *)
Fixpoint ascending (buckets : Buckets) : Prop :=
  match buckets with
  | [] => True
  | b :: rest =>
      Forall (fun b' => (lo_of b <= lo_of b')%Q) rest /\ ascending rest
  end.

(** A table [get] can always draw from: it has a bucket, and every bucket
    offers at least one phrase and no phrase twice. *)
Definition drawable (buckets : Buckets) : Prop :=
  buckets <> [] /\
  Forall (fun b => texts_of b <> [] /\ NoDup (texts_of b)) buckets.

(** The state of the [random] module: the numbers it will hand out and how
    many have been taken. *)
Record Rng : Type := { draws : nat -> nat; taken : nat }.

Definition next_draw (g : Rng) : nat * Rng :=
  (draws g (taken g), {| draws := draws g; taken := S (taken g) |}).

(** [random.choice(seq)]: an element at a drawn index below [len(seq)];
    [IndexError] on an empty sequence. *)
Definition choice {A : Type} (seq : list A) (g : Rng) : outcome (A * Rng) :=
  match seq with
  | [] => Raised IndexError
  | x :: _ =>
      let (d, g') := next_draw g in
      Ok (nth (d mod length seq)%nat seq x, g')
  end.

(** [PhraseManager.state: Dict[str, Tuple[Optional[int], str]]] *)
Abbreviation PhraseState := (gmap string (option Z * string)).

(** [PhraseManager.__init__] *)
Definition PhraseManager_init : PhraseState := ∅.

Definition NO_DATA : string := "数据缺席 🤷".

(** Truth value of a [str]: non-empty. *)
Definition truthy (s : string) : bool :=
  match s with EmptyString => false | String _ _ => true end.

(** [last_idx == idx] with [last_idx : Optional[int]] *)
Definition idx_eq (last_idx : option Z) (idx : Z) : bool :=
  match last_idx with Some i => Z.eqb i idx | None => false end.

(** [PhraseManager.get].  Returns the manager state and generator state
    after the call together with the returned phrase or the exception. *)
Definition get (self : PhraseState) (g : Rng)
    (kind : string) (usage : option Q) (buckets : Buckets)
  : PhraseState * Rng * outcome string :=
  match usage with
  | None => (self, g, Ok NO_DATA)
  | Some u =>
      match _pick_bucket buckets u with
      | Raised e => (self, g, Raised e)
      | Ok (idx, texts) =>
          let '(last_idx, last_phrase) := default (None, EmptyString) (self !! kind) in
          if idx_eq last_idx idx && truthy last_phrase then
            (self, g, Ok last_phrase)
          else
            match choice texts g with
            | Raised e => (self, g, Raised e)
            | Ok (phrase, g1) =>
                if String.eqb phrase last_phrase && (1 <? length texts)%nat then
                  let alt := List.filter (fun t => negb (String.eqb t last_phrase)) texts in
                  match choice alt g1 with
                  | Raised e => (self, g1, Raised e)
                  | Ok (phrase', g2) =>
                      (<[kind := (Some idx, phrase')]> self, g2, Ok phrase')
                  end
                else
                  (<[kind := (Some idx, phrase)]> self, g1, Ok phrase)
            end
      end
  end.

End Phrases.

(* ------------------------------------------------------------------ *)
(** * The composite mood score ([Overlay._compute_mood_phrase], lines
      664-679) *)
(* ------------------------------------------------------------------ *)

Module Mood.

(** The [last_*] attributes of [Overlay]. *)
Record Metrics : Type := {
  last_cpu : option Q;
  last_gpu : option Q;
  last_ram : option Q;
  last_disk_r : option Q;
  last_disk_w : option Q;
  last_up : option Q;
  last_down : option Q
}.

Definition no_metrics : Metrics :=
  {| last_cpu := None; last_gpu := None; last_ram := None;
     last_disk_r := None; last_disk_w := None;
     last_up := None; last_down := None |}.

Definition NET_SAT_MB_S : Q := 50.

(** [x if x is not None else 0.0] *)
Definition or_zero (x : option Q) : Q :=
  match x with Some v => v | None => 0 end.

(** The local [score] of [_compute_mood_phrase] at the point it is passed
    to [self.phrases.get]. *)
Definition mood_score (m : Metrics) : Q :=
  let cpu := or_zero (last_cpu m) in
  let gpu := or_zero (last_gpu m) in
  let ram := or_zero (last_ram m) in
  let dr := or_zero (last_disk_r m) in
  let dw := or_zero (last_disk_w m) in
  let disk_mb_s := (dr + dw)%Q in
  let disk_norm := fmin 100 ((disk_mb_s / 200) * 100)%Q in
  let up := or_zero (last_up m) in
  let down := or_zero (last_down m) in
  let net := (up + down)%Q in
  let net_norm := fmin 100 ((net / fmax 0.000001 NET_SAT_MB_S) * 100)%Q in
  let score := (0.28 * cpu + 0.28 * gpu + 0.22 * ram + 0.10 * disk_norm + 0.12 * net_norm)%Q in
  fmax 0 (fmin 100 score).

End Mood.

(* ------------------------------------------------------------------ *)
(** * The mood score in binary64 (main.py) *)
(* ------------------------------------------------------------------ *)

(** The lines of [_compute_mood_phrase] that compute [score], with Python's
    [float] as what it is: IEEE 754 binary64, every operation rounded to
    nearest, ties to even, with signed zeros, infinities and NaN.  The
    operations are those of the Standard Library's [SpecFloat] at precision 53
    and maximal exponent 1024. *)
Module Float64.
Import SpecFloat.

Definition float : Type := spec_float.
Definition prec : Z := 53.
Definition emax : Z := 1024.

(** [a + b], [a * b], [a / b], [a < b] and [a <= b] on floats. *)
Definition add : float -> float -> float := SFadd prec emax.
Definition mul : float -> float -> float := SFmul prec emax.
Definition div : float -> float -> float := SFdiv prec emax.
Definition lt : float -> float -> bool := SFltb.
Definition le : float -> float -> bool := SFleb.

(** The float of an integer below 2^53 in size, and the float a decimal
    literal [num / den] denotes: the one nearest to the quotient, which the
    correctly rounded division of the two integers gives. *)
Definition of_int (n : Z) : float := binary_normalize prec emax n 0 false.

Definition literal (num : Z) (den : positive) : float :=
  div (of_int num) (of_int (Zpos den)).

(** [max(a, b)]: the first argument unless the second is greater;
    [min(a, b)]: the first argument unless the second is smaller.  A
    comparison with NaN is false. *)
Definition max (a b : float) : float := if lt a b then b else a.
Definition min (a b : float) : float := if lt b a then b else a.

(** The [last_*] attributes of [Overlay]. *)
Record Metrics : Type := {
  last_cpu : option float;
  last_gpu : option float;
  last_ram : option float;
  last_disk_r : option float;
  last_disk_w : option float;
  last_up : option float;
  last_down : option float
}.

Definition NET_SAT_MB_S : float := literal 50 1.

(** [x if x is not None else 0.0] *)
Definition or_zero (x : option float) : float :=
  match x with Some v => v | None => literal 0 1 end.

(** The local [score] of [_compute_mood_phrase] at the point it is passed
    to [self.phrases.get]. *)
Definition mood_score (m : Metrics) : float :=
  let cpu := or_zero (last_cpu m) in
  let gpu := or_zero (last_gpu m) in
  let ram := or_zero (last_ram m) in
  let dr := or_zero (last_disk_r m) in
  let dw := or_zero (last_disk_w m) in
  let disk_mb_s := add dr dw in
  let disk_norm :=
    min (literal 100 1) (mul (div disk_mb_s (literal 200 1)) (literal 100 1)) in
  let up := or_zero (last_up m) in
  let down := or_zero (last_down m) in
  let net := add up down in
  let net_norm :=
    min (literal 100 1)
        (mul (div net (max (literal 1 1000000) NET_SAT_MB_S)) (literal 100 1)) in
  let score :=
    add (add (add (add (mul (literal 28 100) cpu) (mul (literal 28 100) gpu))
                  (mul (literal 22 100) ram))
             (mul (literal 10 100) disk_norm))
        (mul (literal 12 100) net_norm) in
  max (literal 0 1) (min (literal 100 1) score).

(** The score as the specification words it.  A missing metric counts as
    0; the sum of two rates is normalised against its ceiling, as a
    percentage, and capped at 100; the weighted sum of the five terms is
    clamped into [0, 100]. *)
Definition missing_as_zero (v : option float) : float :=
  default (S754_zero false) v.

Definition normalised (sum ceiling : float) : float :=
  mul (div sum ceiling) (literal 100 1).

Definition capped_at_100 (pct : float) : float :=
  if lt pct (literal 100 1) then pct else literal 100 1.

Definition clamped_0_100 (x : float) : float :=
  if lt x (literal 100 1)
  then (if lt (literal 0 1) x then x else literal 0 1)
  else literal 100 1.

Definition spec_mood_score (cpu gpu ram disk_r disk_w up down : option float)
  : float :=
  let disk_norm :=
    capped_at_100
      (normalised (add (missing_as_zero disk_r) (missing_as_zero disk_w))
                  (literal 200 1)) in
  let net_norm :=
    capped_at_100
      (normalised (add (missing_as_zero up) (missing_as_zero down))
                  (literal 50 1)) in
  clamped_0_100
    (add (add (add (add (mul (literal 28 100) (missing_as_zero cpu))
                        (mul (literal 28 100) (missing_as_zero gpu)))
                   (mul (literal 22 100) (missing_as_zero ram)))
              (mul (literal 10 100) disk_norm))
         (mul (literal 12 100) net_norm)).

End Float64.

(* ------------------------------------------------------------------ *)
(** * Dock planning: side decision and collapsed geometry (main.py) *)
(* ------------------------------------------------------------------ *)

Module Dock.

(** [QRect(x, y, w, h)].  Qt's right and bottom edges are inclusive:
    [right = x + w - 1], [bottom = y + h - 1]. *)
Record QRect : Type := { rx : Z; ry : Z; rwidth : Z; rheight : Z }.

Definition left (r : QRect) : Z := rx r.
Definition top (r : QRect) : Z := ry r.
Definition right (r : QRect) : Z := rx r + rwidth r - 1.
Definition bottom (r : QRect) : Z := ry r + rheight r - 1.

(** [rect.center().x()]: Qt halves the sum of the two edges with C++
    integer division, which truncates towards zero. *)
Definition center_x (r : QRect) : Z := Z.quot (left r + right r) 2.

(** [dock_side]: the source keeps the strings ["left"] and ["right"]. *)
Inductive Side : Type := SideLeft | SideRight.

Definition EDGE_SAFE_PX : Z := 20.
Definition COLLAPSED_MIN_H : Z := 64.
Definition COLLAPSED_MAX_H_RATIO : Q := 0.55.
Definition COLLAPSED_MIN_W : Z := 22.
Definition COLLAPSED_MAX_W : Z := 52.

(** [(s.left() + s.right()) // 2]: Python's floor division. *)
Definition screen_mid_x (s : QRect) : Z := (left s + right s) / 2.

(** [_decide_nearest_side]; [s] is [self._screen()]. *)
Definition _decide_nearest_side (s rect : QRect) : Side :=
  if center_x rect <? screen_mid_x s then SideLeft else SideRight.

(** [_collapsed_rect_for] *)
Definition _collapsed_rect_for (s expanded : QRect) (side : Side)
    (collapsed_w collapsed_h : Z) : QRect :=
  let y := clamp (ry expanded) (top s + EDGE_SAFE_PX)
                 (bottom s - collapsed_h - EDGE_SAFE_PX) in
  let x := match side with
           | SideLeft => left s + EDGE_SAFE_PX
           | SideRight => right s - collapsed_w + 1 - EDGE_SAFE_PX
           end in
  {| rx := x; ry := y; rwidth := collapsed_w; rheight := collapsed_h |}.

(** [int(x)] on a float: truncation towards zero. *)
Definition int_of_float (q : Q) : Z := Z.quot (Qnum q) (Zpos (Qden q)).

(** A Python [str] is held as its UTF-8 bytes; [chars] splits it into its
    code points, the units [len] counts and [for ch in s] visits. *)
Definition continuation (a : Ascii.ascii) : bool :=
  match a with Ascii.Ascii _ _ _ _ _ _ b6 b7 => b7 && negb b6 end.

Definition starts_inside (s : string) : bool :=
  match s with String b _ => continuation b | EmptyString => false end.

Fixpoint chars (s : string) : list string :=
  match s with
  | EmptyString => []
  | String a rest =>
      match chars rest with
      | c :: cs =>
          if starts_inside rest then String a c :: cs
          else String a EmptyString :: c :: cs
      | [] => [String a EmptyString]
      end
  end.

Definition len (s : string) : Z := Z.of_nat (length (chars s)).

(** [QFontMetrics(self.panel.mood.font())]: the line height and the
    bounding-box width of one character, both supplied by Qt. *)
Record QFontMetrics : Type := {
  fm_height : Z;
  fm_char_width : string -> Z
}.

(** [_calc_collapsed_height_for_text] *)
Definition _calc_collapsed_height_for_text (s : QRect) (fm : QFontMetrics)
    (mood_text : string) : Z :=
  let max_h := int_of_float (inject_Z (rheight s) * COLLAPSED_MAX_H_RATIO)%Q in
  let n := imax 1 (len mood_text) in
  let line_h := fm_height fm in
  let pad := 30 in
  let h := pad + int_of_float (inject_Z (n * line_h) * 1.05)%Q in
  clamp h COLLAPSED_MIN_H max_h.

(** [_calc_collapsed_width_for_text] *)
Definition _calc_collapsed_width_for_text (fm : QFontMetrics)
    (mood_text : string) : Z :=
  let text := if Phrases.truthy mood_text then mood_text else " "%string in
  let max_char_w :=
    fold_left (fun acc ch => imax acc (fm_char_width fm ch)) (chars text) 0 in
  let w := max_char_w + 18 in
  clamp w COLLAPSED_MIN_W COLLAPSED_MAX_W.

(** A rectangle lies within the screen inset by the edge margin on every
    side. *)
Definition within_margin (s r : QRect) : Prop :=
  left s + EDGE_SAFE_PX <= left r /\ right r <= right s - EDGE_SAFE_PX /\
  top s + EDGE_SAFE_PX <= top r /\ bottom r <= bottom s - EDGE_SAFE_PX.

End Dock.

(* ------------------------------------------------------------------ *)
(** * The overlay widget: animation bookkeeping, collapse/expand, event
      handlers and the refresh tick (main.py, class [Overlay]) *)
(* ------------------------------------------------------------------ *)

Module Overlay.
Import Sampler Phrases Mood Dock.

Definition EXPANDED_OPACITY : Q := 1.00.
Definition COLLAPSED_OPACITY : Q := 0.86.

(** ** The Qt animation group

    [_anim_group] runs [_geo_anim] and [_opa_anim] in parallel.  The model
    keeps whether the group is running, the start and end values last given
    to the two animations, and the calls made on it, oldest first. *)
Inductive AnimCall : Type :=
| GroupStop
| GeoSetStartValue (r : QRect)
| GeoSetEndValue (r : QRect)
| OpaSetStartValue (q : Q)
| OpaSetEndValue (q : Q)
| GroupStart.

Record AnimGroup : Type := {
  running : bool;
  geo_start : option QRect;
  geo_end : option QRect;
  opa_start : option Q;
  opa_end : option Q;
  calls : list AnimCall
}.

Definition AnimGroup_init : AnimGroup :=
  {| running := false; geo_start := None; geo_end := None;
     opa_start := None; opa_end := None; calls := [] |}.

(** [self._anim_group.stop()] *)
Definition group_stop (a : AnimGroup) : AnimGroup :=
  {| running := false; geo_start := geo_start a; geo_end := geo_end a;
     opa_start := opa_start a; opa_end := opa_end a;
     calls := calls a ++ [GroupStop] |}.

(** [self._geo_anim.setStartValue(r)] and [setEndValue(r)] *)
Definition geo_setStartValue (r : QRect) (a : AnimGroup) : AnimGroup :=
  {| running := running a; geo_start := Some r; geo_end := geo_end a;
     opa_start := opa_start a; opa_end := opa_end a;
     calls := calls a ++ [GeoSetStartValue r] |}.

Definition geo_setEndValue (r : QRect) (a : AnimGroup) : AnimGroup :=
  {| running := running a; geo_start := geo_start a; geo_end := Some r;
     opa_start := opa_start a; opa_end := opa_end a;
     calls := calls a ++ [GeoSetEndValue r] |}.

(** [self._opa_anim.setStartValue(q)] and [setEndValue(q)] *)
Definition opa_setStartValue (q : Q) (a : AnimGroup) : AnimGroup :=
  {| running := running a; geo_start := geo_start a; geo_end := geo_end a;
     opa_start := Some q; opa_end := opa_end a;
     calls := calls a ++ [OpaSetStartValue q] |}.

Definition opa_setEndValue (q : Q) (a : AnimGroup) : AnimGroup :=
  {| running := running a; geo_start := geo_start a; geo_end := geo_end a;
     opa_start := opa_start a; opa_end := Some q;
     calls := calls a ++ [OpaSetEndValue q] |}.

(** [self._anim_group.start()] *)
Definition group_start (a : AnimGroup) : AnimGroup :=
  {| running := true; geo_start := geo_start a; geo_end := geo_end a;
     opa_start := opa_start a; opa_end := opa_end a;
     calls := calls a ++ [GroupStart] |}.

(** The group reaching its end without being stopped. *)
Definition group_finish (a : AnimGroup) : AnimGroup :=
  {| running := false; geo_start := geo_start a; geo_end := geo_end a;
     opa_start := opa_start a; opa_end := opa_end a; calls := calls a |}.

(** ** The panel

    The five text lines are kept as the values and phrases they are formatted
    from; rendering numbers to text is left out. *)
Record PanelLines : Type := {
  line1 : option Q * string;
  line2 : option Q * string;
  line3 : option Q * string;
  line4 : option Q * option Q * string;
  line5 : option Q * option Q
}.

Record Panel : Type := {
  lines : option PanelLines;
  lines_visible : bool;
  mood_visible : bool;
  mood_text : string
}.

(** [Panel.__init__] *)
Definition Panel_init : Panel :=
  {| lines := None; lines_visible := true; mood_visible := false;
     mood_text := EmptyString |}.

(** [Panel.set_lines] *)
Definition set_lines (l : PanelLines) (p : Panel) : Panel :=
  {| lines := Some l; lines_visible := lines_visible p;
     mood_visible := mood_visible p; mood_text := mood_text p |}.

Definition newline : string := String (Ascii.ascii_of_nat 10) EmptyString.

(** [Panel.set_collapsed_mode(collapsed, vertical_text)] *)
Definition set_collapsed_mode (collapsed : bool) (vertical_text : string)
    (p : Panel) : Panel :=
  {| lines := lines p;
     lines_visible := negb collapsed;
     mood_visible := collapsed;
     mood_text :=
       if collapsed then
         if truthy vertical_text then String.concat newline (chars vertical_text)
         else EmptyString
       else EmptyString |}.

(** ** The widget state *)

Record Overlay : Type := mkOverlay {
  auto_hide : bool;
  click_through : bool;
  expanded_geo : option QRect;
  collapsed : bool;
  dock_side : Side;
  _dragging : bool;
  psr : RateState;
  disk_rate : DiskRateReader;
  phrases : PhraseState;
  random : Rng;
  metrics : Metrics;
  _anim_group : AnimGroup;
  _anim_target_collapsed : option bool;
  _anim_inflight : bool;
  geometry : QRect;
  windowOpacity : Q;
  panel : Panel;
  _collapse_timer : bool;
  settings_pos : option (Z * Z)
}.

(** Attribute assignment [self.<attribute> = v]: one setter per attribute;
    every other attribute is carried over. *)
Definition set_auto_hide (v : bool) (o : Overlay) : Overlay :=
  mkOverlay v (click_through o) (expanded_geo o) (collapsed o) (dock_side o)
    (_dragging o) (psr o) (disk_rate o) (phrases o) (random o) (metrics o)
    (_anim_group o) (_anim_target_collapsed o) (_anim_inflight o) (geometry o)
    (windowOpacity o) (panel o) (_collapse_timer o) (settings_pos o).

Definition set_click_through (v : bool) (o : Overlay) : Overlay :=
  mkOverlay (auto_hide o) v (expanded_geo o) (collapsed o) (dock_side o)
    (_dragging o) (psr o) (disk_rate o) (phrases o) (random o) (metrics o)
    (_anim_group o) (_anim_target_collapsed o) (_anim_inflight o) (geometry o)
    (windowOpacity o) (panel o) (_collapse_timer o) (settings_pos o).

Definition set_expanded_geo (v : option QRect) (o : Overlay) : Overlay :=
  mkOverlay (auto_hide o) (click_through o) v (collapsed o) (dock_side o)
    (_dragging o) (psr o) (disk_rate o) (phrases o) (random o) (metrics o)
    (_anim_group o) (_anim_target_collapsed o) (_anim_inflight o) (geometry o)
    (windowOpacity o) (panel o) (_collapse_timer o) (settings_pos o).

Definition set_collapsed (v : bool) (o : Overlay) : Overlay :=
  mkOverlay (auto_hide o) (click_through o) (expanded_geo o) v (dock_side o)
    (_dragging o) (psr o) (disk_rate o) (phrases o) (random o) (metrics o)
    (_anim_group o) (_anim_target_collapsed o) (_anim_inflight o) (geometry o)
    (windowOpacity o) (panel o) (_collapse_timer o) (settings_pos o).

Definition set_dock_side (v : Side) (o : Overlay) : Overlay :=
  mkOverlay (auto_hide o) (click_through o) (expanded_geo o) (collapsed o) v
    (_dragging o) (psr o) (disk_rate o) (phrases o) (random o) (metrics o)
    (_anim_group o) (_anim_target_collapsed o) (_anim_inflight o) (geometry o)
    (windowOpacity o) (panel o) (_collapse_timer o) (settings_pos o).

Definition set_dragging (v : bool) (o : Overlay) : Overlay :=
  mkOverlay (auto_hide o) (click_through o) (expanded_geo o) (collapsed o)
    (dock_side o) v (psr o) (disk_rate o) (phrases o) (random o) (metrics o)
    (_anim_group o) (_anim_target_collapsed o) (_anim_inflight o) (geometry o)
    (windowOpacity o) (panel o) (_collapse_timer o) (settings_pos o).

Definition set_psr (v : RateState) (o : Overlay) : Overlay :=
  mkOverlay (auto_hide o) (click_through o) (expanded_geo o) (collapsed o)
    (dock_side o) (_dragging o) v (disk_rate o) (phrases o) (random o)
    (metrics o) (_anim_group o) (_anim_target_collapsed o) (_anim_inflight o)
    (geometry o) (windowOpacity o) (panel o) (_collapse_timer o) (settings_pos
    o).

Definition set_disk_rate (v : DiskRateReader) (o : Overlay) : Overlay :=
  mkOverlay (auto_hide o) (click_through o) (expanded_geo o) (collapsed o)
    (dock_side o) (_dragging o) (psr o) v (phrases o) (random o) (metrics o)
    (_anim_group o) (_anim_target_collapsed o) (_anim_inflight o) (geometry o)
    (windowOpacity o) (panel o) (_collapse_timer o) (settings_pos o).

Definition set_phrases (v : PhraseState) (o : Overlay) : Overlay :=
  mkOverlay (auto_hide o) (click_through o) (expanded_geo o) (collapsed o)
    (dock_side o) (_dragging o) (psr o) (disk_rate o) v (random o) (metrics o)
    (_anim_group o) (_anim_target_collapsed o) (_anim_inflight o) (geometry o)
    (windowOpacity o) (panel o) (_collapse_timer o) (settings_pos o).

Definition set_random (v : Rng) (o : Overlay) : Overlay :=
  mkOverlay (auto_hide o) (click_through o) (expanded_geo o) (collapsed o)
    (dock_side o) (_dragging o) (psr o) (disk_rate o) (phrases o) v (metrics
    o) (_anim_group o) (_anim_target_collapsed o) (_anim_inflight o) (geometry
    o) (windowOpacity o) (panel o) (_collapse_timer o) (settings_pos o).

Definition set_metrics (v : Metrics) (o : Overlay) : Overlay :=
  mkOverlay (auto_hide o) (click_through o) (expanded_geo o) (collapsed o)
    (dock_side o) (_dragging o) (psr o) (disk_rate o) (phrases o) (random o) v
    (_anim_group o) (_anim_target_collapsed o) (_anim_inflight o) (geometry o)
    (windowOpacity o) (panel o) (_collapse_timer o) (settings_pos o).

Definition set_anim_group (v : AnimGroup) (o : Overlay) : Overlay :=
  mkOverlay (auto_hide o) (click_through o) (expanded_geo o) (collapsed o)
    (dock_side o) (_dragging o) (psr o) (disk_rate o) (phrases o) (random o)
    (metrics o) v (_anim_target_collapsed o) (_anim_inflight o) (geometry o)
    (windowOpacity o) (panel o) (_collapse_timer o) (settings_pos o).

Definition set_anim_target_collapsed (v : option bool) (o : Overlay) : Overlay :=
  mkOverlay (auto_hide o) (click_through o) (expanded_geo o) (collapsed o)
    (dock_side o) (_dragging o) (psr o) (disk_rate o) (phrases o) (random o)
    (metrics o) (_anim_group o) v (_anim_inflight o) (geometry o)
    (windowOpacity o) (panel o) (_collapse_timer o) (settings_pos o).

Definition set_anim_inflight (v : bool) (o : Overlay) : Overlay :=
  mkOverlay (auto_hide o) (click_through o) (expanded_geo o) (collapsed o)
    (dock_side o) (_dragging o) (psr o) (disk_rate o) (phrases o) (random o)
    (metrics o) (_anim_group o) (_anim_target_collapsed o) v (geometry o)
    (windowOpacity o) (panel o) (_collapse_timer o) (settings_pos o).

Definition set_geometry (v : QRect) (o : Overlay) : Overlay :=
  mkOverlay (auto_hide o) (click_through o) (expanded_geo o) (collapsed o)
    (dock_side o) (_dragging o) (psr o) (disk_rate o) (phrases o) (random o)
    (metrics o) (_anim_group o) (_anim_target_collapsed o) (_anim_inflight o)
    v (windowOpacity o) (panel o) (_collapse_timer o) (settings_pos o).

Definition set_windowOpacity (v : Q) (o : Overlay) : Overlay :=
  mkOverlay (auto_hide o) (click_through o) (expanded_geo o) (collapsed o)
    (dock_side o) (_dragging o) (psr o) (disk_rate o) (phrases o) (random o)
    (metrics o) (_anim_group o) (_anim_target_collapsed o) (_anim_inflight o)
    (geometry o) v (panel o) (_collapse_timer o) (settings_pos o).

Definition set_panel (v : Panel) (o : Overlay) : Overlay :=
  mkOverlay (auto_hide o) (click_through o) (expanded_geo o) (collapsed o)
    (dock_side o) (_dragging o) (psr o) (disk_rate o) (phrases o) (random o)
    (metrics o) (_anim_group o) (_anim_target_collapsed o) (_anim_inflight o)
    (geometry o) (windowOpacity o) v (_collapse_timer o) (settings_pos o).

Definition set_collapse_timer (v : bool) (o : Overlay) : Overlay :=
  mkOverlay (auto_hide o) (click_through o) (expanded_geo o) (collapsed o)
    (dock_side o) (_dragging o) (psr o) (disk_rate o) (phrases o) (random o)
    (metrics o) (_anim_group o) (_anim_target_collapsed o) (_anim_inflight o)
    (geometry o) (windowOpacity o) (panel o) v (settings_pos o).

Definition set_settings_pos (v : option (Z * Z)) (o : Overlay) : Overlay :=
  mkOverlay (auto_hide o) (click_through o) (expanded_geo o) (collapsed o)
    (dock_side o) (_dragging o) (psr o) (disk_rate o) (phrases o) (random o)
    (metrics o) (_anim_group o) (_anim_target_collapsed o) (_anim_inflight o)
    (geometry o) (windowOpacity o) (panel o) (_collapse_timer o) v.
(** [Overlay.__init__] up to, and not including, its first [self.refresh()].
    The stored settings, the restored window rectangle, the counters read by
    [PsutilReader.__init__] and the generator state are the inputs. *)
Definition Overlay_init (auto_hide0 click_through0 : bool) (geo0 : QRect)
    (psr0 : RateState) (seed : Rng) : Overlay :=
  {| auto_hide := auto_hide0;
     click_through := click_through0;
     expanded_geo := None;
     collapsed := false;
     dock_side := SideRight;
     _dragging := false;
     psr := psr0;
     disk_rate := DiskRateReader_init;
     phrases := PhraseManager_init;
     random := seed;
     metrics := no_metrics;
     _anim_group := AnimGroup_init;
     _anim_target_collapsed := None;
     _anim_inflight := false;
     geometry := geo0;
     windowOpacity := EXPANDED_OPACITY;
     panel := Panel_init;
     _collapse_timer := false;
     settings_pos := None |}.

(** [_is_effectively_collapsed] *)
Definition _is_effectively_collapsed (o : Overlay) : bool :=
  match _anim_inflight o, _anim_target_collapsed o with
  | true, Some t => t
  | _, _ => collapsed o
  end.

(** [_on_anim_finished] *)
Definition _on_anim_finished (o : Overlay) : Overlay :=
  let o := set_anim_inflight false o in
  let o :=
    match _anim_target_collapsed o with
    | Some true => set_windowOpacity COLLAPSED_OPACITY (set_collapsed true o)
    | Some false => set_windowOpacity EXPANDED_OPACITY (set_collapsed false o)
    | None => o
    end in
  set_anim_target_collapsed None o.

(** [_start_anim] *)
Definition _start_anim (start_geo end_geo : QRect) (start_op end_op : Q)
    (target_collapsed : bool) (o : Overlay) : Overlay :=
  let o := if _anim_inflight o
           then set_anim_group (group_stop (_anim_group o)) o else o in
  let o := set_anim_inflight true o in
  let o := set_anim_target_collapsed (Some target_collapsed) o in
  let o := set_anim_group (geo_setStartValue start_geo (_anim_group o)) o in
  let o := set_anim_group (geo_setEndValue end_geo (_anim_group o)) o in
  let o := set_anim_group (opa_setStartValue start_op (_anim_group o)) o in
  let o := set_anim_group (opa_setEndValue end_op (_anim_group o)) o in
  set_anim_group (group_start (_anim_group o)) o.

(** [_persist_pos] *)
Definition _persist_pos (o : Overlay) : Overlay :=
  set_settings_pos (Some (rx (geometry o), ry (geometry o))) o.

(** [self.phrases.get(kind, usage, buckets)], drawing from the [random]
    module. *)
Definition phrases_get (kind : string) (usage : option Q) (buckets : Buckets)
    (o : Overlay) : Overlay * outcome string :=
  let '(ph, g, r) := get (phrases o) (random o) kind usage buckets in
  (set_random g (set_phrases ph o), r).

(** [_compute_mood_phrase] *)
Definition _compute_mood_phrase (o : Overlay) : Overlay * outcome string :=
  phrases_get "mood" (Some (mood_score (metrics o))) MOOD_BUCKETS o.

(** Sequencing of calls that may raise: the rest runs only after a return. *)
Definition and_then {A B : Type} (r : Overlay * outcome A)
    (k : Overlay -> A -> Overlay * outcome B) : Overlay * outcome B :=
  match r with
  | (o, Ok a) => k o a
  | (o, Raised e) => (o, Raised e)
  end.

(** [x if x > 0 else fallback] *)
Definition positive_or (x fallback : Q) : Q :=
  if Qlt_le_dec 0 x then x else fallback.

(** [collapse_to_edge_animated]; [s] is [self._screen()], [fm] the metrics
    of the mood label's font. *)
Definition collapse_to_edge_animated (s : QRect) (fm : QFontMetrics)
    (o : Overlay) : Overlay * outcome unit :=
  if collapsed o then (o, Ok tt) else
  let expanded := geometry o in
  let o := set_expanded_geo (Some expanded) o in
  let o := set_dock_side (_decide_nearest_side s expanded) o in
  and_then (_compute_mood_phrase o) (fun o mood =>
    let o := set_anim_target_collapsed (Some true) o in
    let o := set_collapsed true o in
    let o := set_panel (set_collapsed_mode true mood (panel o)) o in
    let collapsed_h := _calc_collapsed_height_for_text s fm mood in
    let collapsed_w := _calc_collapsed_width_for_text fm mood in
    let start_geo := geometry o in
    let end_geo :=
      _collapsed_rect_for s expanded (dock_side o) collapsed_w collapsed_h in
    let start_op := positive_or (windowOpacity o) EXPANDED_OPACITY in
    let end_op := COLLAPSED_OPACITY in
    let o := _start_anim start_geo end_geo start_op end_op true o in
    (_persist_pos o, Ok tt)).

(** Truth value of [self.expanded_geo]: set, and not a null rectangle. *)
Definition has_geo (g : option QRect) : bool :=
  match g with
  | Some r => negb ((rwidth r =? 0) && (rheight r =? 0))
  | None => false
  end.

(** [expand_animated] *)
Definition expand_animated (s : QRect) (o : Overlay) : Overlay :=
  if negb (collapsed o) then o else
  let fallback :=
    {| rx := right s - 270; ry := top s + 40; rwidth := 270; rheight := 178 |} in
  let o := if has_geo (expanded_geo o) then o
           else set_expanded_geo (Some fallback) o in
  let o := set_anim_target_collapsed (Some false) o in
  let o := set_collapsed false o in
  let o := set_panel (set_collapsed_mode false EmptyString (panel o)) o in
  let g := default fallback (expanded_geo o) in
  let end_geo :=
    {| rx := clamp (rx g) (left s) (right s - rwidth g);
       ry := clamp (ry g) (top s) (bottom s - rheight g);
       rwidth := rwidth g;
       rheight := rheight g |} in
  let start_geo := geometry o in
  let start_op := positive_or (windowOpacity o) COLLAPSED_OPACITY in
  let end_op := EXPANDED_OPACITY in
  let o := _start_anim start_geo end_geo start_op end_op false o in
  _persist_pos o.

(** ** Pointer and timer handlers

    [near] stands for [self._cursor_in_rect(self.geometry(), pad=6)] and
    [hover] for [self._hover_region_rect().contains(QCursor.pos())], both
    evaluated by Qt at the time of the call. *)

(** [_schedule_collapse_if_far] *)
Definition _schedule_collapse_if_far (near : bool) (o : Overlay) : Overlay :=
  if negb (auto_hide o) || _anim_inflight o then o
  else if near then set_collapse_timer false o
  else if negb (_collapse_timer o) then set_collapse_timer true o
  else o.

(** [_collapse_if_still_far] *)
Definition _collapse_if_still_far (s : QRect) (fm : QFontMetrics) (near : bool)
    (o : Overlay) : Overlay * outcome unit :=
  if negb (auto_hide o) || _anim_inflight o then (o, Ok tt)
  else if near then (_schedule_collapse_if_far near o, Ok tt)
  else collapse_to_edge_animated s fm o.

(** [_poll_mouse] *)
Definition _poll_mouse (s : QRect) (hover near : bool) (o : Overlay) : Overlay :=
  if negb (auto_hide o) || _anim_inflight o then o
  else if collapsed o then
    (if hover then expand_animated s o else o)
  else if negb near then
    (if negb (_collapse_timer o) then set_collapse_timer true o else o)
  else set_collapse_timer false o.

(** [mousePressEvent]; [left_button] is [e.button() == Qt.LeftButton]. *)
Definition mousePressEvent (s : QRect) (left_button : bool) (o : Overlay)
  : Overlay :=
  if click_through o || _anim_inflight o then o
  else if left_button then
    let o := set_dragging true o in
    if collapsed o then expand_animated s o else o
  else o.

(** [mouseMoveEvent]; [(x, y)] is the point the window is moved to. *)
Definition mouseMoveEvent (x y : Z) (o : Overlay) : Overlay :=
  if click_through o || _anim_inflight o then o
  else if _dragging o then
    set_geometry {| rx := x; ry := y; rwidth := rwidth (geometry o);
                    rheight := rheight (geometry o) |} o
  else o.

(** [mouseReleaseEvent] *)
Definition mouseReleaseEvent (near : bool) (o : Overlay) : Overlay :=
  if _dragging o then
    let o := set_dragging false o in
    let o := _persist_pos o in
    _schedule_collapse_if_far near o
  else o.

(** [toggle_autohide] *)
Definition toggle_autohide (s : QRect) (near : bool) (o : Overlay) : Overlay :=
  let o := set_auto_hide (negb (auto_hide o)) o in
  let o := if negb (auto_hide o) && _is_effectively_collapsed o
           then expand_animated s o else o in
  if auto_hide o then _schedule_collapse_if_far near o else o.

(** [toggle_click_through] *)
Definition toggle_click_through (o : Overlay) : Overlay :=
  set_click_through (negb (click_through o)) o.

(** ** The refresh tick *)

(** [LhmReader.read()] works on the sensor library's object tree; the model
    takes its outcome, reduced to the one key [refresh] looks up. *)
Record LhmData : Type := { gpu_load : option Q }.

(** Everything one [refresh] obtains from outside, in call order. *)
Record TickCalls : Type := {
  lhm_read : outcome LhmData;
  psr_calls : PsutilCalls;
  cpu_percent_again : outcome Q;
  vm_percent_again : outcome Q;
  disk_again : outcome (option sdiskio);
  disk_time : Q
}.

(** [refresh] *)
Definition refresh (os : TickCalls) (o : Overlay) : Overlay * outcome unit :=
  match lhm_read os with
  | Raised e => (o, Raised e)
  | Ok lhm =>
  let (st, r) := PsutilReader_read (psr o) (psr_calls os) in
  let o := set_psr st o in
  match r with
  | Raised e => (o, Raised e)
  | Ok psu =>
    let cpu_usage :=
      match cpu_usage psu with
      | Some v => Some v
      | None =>
          match cpu_percent_again os with
          | Ok v => Some v
          | Raised _ => Some 0%Q
          end
      end in
    let gpu_usage := gpu_load lhm in
    let ram_usage :=
      match ram_usage psu with
      | Some v => Some v
      | None =>
          match vm_percent_again os with
          | Ok v => Some v
          | Raised _ => None
          end
      end in
    let '(dr, (disk_r, disk_w)) :=
      DiskRateReader_read (disk_rate o) (disk_again os) (disk_time os) in
    let o := set_disk_rate dr o in
    let up := net_up_mb_s psu in
    let down := net_down_mb_s psu in
    let o := set_metrics
      {| last_cpu := cpu_usage; last_gpu := gpu_usage; last_ram := ram_usage;
         last_disk_r := disk_r; last_disk_w := disk_w;
         last_up := up; last_down := down |} o in
    and_then (phrases_get "cpu" cpu_usage CPU_BUCKETS o) (fun o cpu_txt =>
    and_then (phrases_get "gpu" gpu_usage GPU_BUCKETS o) (fun o gpu_txt =>
    and_then (phrases_get "ram" ram_usage RAM_BUCKETS o) (fun o ram_txt =>
    let disk_total :=
      match disk_r, disk_w with
      | Some r, Some w => Some (r + w)%Q
      | _, _ => None
      end in
    and_then (phrases_get "disk_io" disk_total DISK_IO_BUCKETS o) (fun o disk_txt =>
    let l := {| line1 := (cpu_usage, cpu_txt);
                line2 := (gpu_usage, gpu_txt);
                line3 := (ram_usage, ram_txt);
                line4 := (disk_r, disk_w, disk_txt);
                line5 := (up, down) |} in
    if negb (_is_effectively_collapsed o) then
      (set_panel (set_lines l (panel o)) o, Ok tt)
    else
      and_then (_compute_mood_phrase o) (fun o mood =>
        (set_panel (set_collapsed_mode true mood (panel o)) o, Ok tt))))))
  end
  end.

(** ** What the animation engine does to the window *)

(** One frame of the running group: the geometry animation writes an
    interpolated rectangle [g] (its easing curve overshoots, so [g] is not
    confined to the span between start and end), the opacity animation
    writes [start + (end - start) * e] for an eased progress [e]. *)
Definition anim_frame (g : QRect) (e : Q) (o : Overlay) : Overlay :=
  let a := _anim_group o in
  let op := match opa_start a, opa_end a with
            | Some q0, Some q1 => (q0 + (q1 - q0) * e)%Q
            | _, _ => windowOpacity o
            end in
  set_windowOpacity op (set_geometry g o).

(** The running group reaches its end: both properties receive their end
    values, the group stops, and [finished] calls [_on_anim_finished]. *)
Definition anim_finished (o : Overlay) : Overlay :=
  let a := _anim_group o in
  let o := set_geometry (default (geometry o) (geo_end a)) o in
  let o := set_windowOpacity (default (windowOpacity o) (opa_end a)) o in
  let o := set_anim_group (group_finish a) o in
  _on_anim_finished o.

(** ** Events

    Everything that can happen to the widget between two states.  [s] and
    [fm] are the screen rectangle and font metrics Qt reports during the
    handler.  An exception leaving a handler is reported by the event loop;
    the attributes keep what the handler had written before it. *)
Inductive Event : Type :=
| EvRefresh (os : TickCalls)
| EvPoll (s : QRect) (hover near : bool)
| EvCollapseTimer (s : QRect) (fm : QFontMetrics) (near : bool)
| EvScheduleCollapse (near : bool)
| EvMousePress (s : QRect) (left_button : bool)
| EvMouseMove (x y : Z)
| EvMouseRelease (near : bool)
| EvToggleAutohide (s : QRect) (near : bool)
| EvToggleClickThrough
| EvAnimFrame (g : QRect) (e : Q)
| EvAnimFinished.

(** When an event can occur: the single-shot timer fires only while armed,
    the engine produces frames and finishes only while the group runs, and
    the eased opacity progress lies in [0, 1]. *)
Definition enabled (ev : Event) (o : Overlay) : Prop :=
  match ev with
  | EvCollapseTimer _ _ _ => _collapse_timer o = true
  | EvAnimFrame _ e => running (_anim_group o) = true /\ (0 <= e <= 1)%Q
  | EvAnimFinished => running (_anim_group o) = true
  | _ => True
  end.

Definition handle (ev : Event) (o : Overlay) : Overlay :=
  match ev with
  | EvRefresh os => fst (refresh os o)
  | EvPoll s hover near => _poll_mouse s hover near o
  | EvCollapseTimer s fm near =>
      fst (_collapse_if_still_far s fm near (set_collapse_timer false o))
  | EvScheduleCollapse near => _schedule_collapse_if_far near o
  | EvMousePress s b => mousePressEvent s b o
  | EvMouseMove x y => mouseMoveEvent x y o
  | EvMouseRelease near => mouseReleaseEvent near o
  | EvToggleAutohide s near => toggle_autohide s near o
  | EvToggleClickThrough => toggle_click_through o
  | EvAnimFrame g e => anim_frame g e o
  | EvAnimFinished => anim_finished o
  end.

(** States the widget can be in: the initial one and whatever enabled
    events lead to. *)
Inductive reachable : Overlay -> Prop :=
| reach_init ah ct geo0 psr0 seed :
    reachable (Overlay_init ah ct geo0 psr0 seed)
| reach_step o ev :
    reachable o -> enabled ev o -> reachable (handle ev o).

(** The attributes the animation bookkeeping reads and writes. *)
Definition anim_view (o : Overlay)
  : bool * bool * option bool * AnimGroup * Q * QRect :=
  (collapsed o, _anim_inflight o, _anim_target_collapsed o, _anim_group o,
   windowOpacity o, geometry o).

(** How those attributes hang together. *)
Record consistent (o : Overlay) : Prop := {
  inflight_running : _anim_inflight o = running (_anim_group o);
  inflight_target :
    _anim_inflight o = true -> _anim_target_collapsed o = Some (collapsed o);
  idle_target : _anim_inflight o = false -> _anim_target_collapsed o = None;
  opacity_positive : (0 < windowOpacity o)%Q;
  running_opacities :
    running (_anim_group o) = true ->
    exists q0 q1, opa_start (_anim_group o) = Some q0 /\
                  opa_end (_anim_group o) = Some q1 /\
                  (0 < q0)%Q /\ (0 < q1)%Q
}.

(** A run of frames followed by the natural end of the animation, with no
    other event in between. *)
Definition run_to_completion (frames : list (QRect * Q)) (o : Overlay) : Overlay :=
  anim_finished (fold_left (fun o f => anim_frame (fst f) (snd f) o) frames o).

End Overlay.

(* ------------------------------------------------------------------ *)
(** * Hardware sensors: [LhmReader] (sensors_lhm.py) *)
(* ------------------------------------------------------------------ *)

Module Lhm.

(** The members of the sensor library's [HardwareType] and [SensorType]
    enumerations the code compares against; every other member is
    [OtherHardware] / [OtherSensor]. *)
Inductive HardwareType : Type :=
| Cpu | GpuNvidia | GpuAmd | GpuIntel | Storage | OtherHardware.

Inductive SensorType : Type :=
| Temperature | Power | Clock | Load | SmallData | OtherSensor.

(** A sensor as the code sees it: its type, the text
    [(s.Name or "").lower()], and what reading [s.Value] gives (a float,
    [None], or an exception). *)
Record Sensor : Type := {
  sensor_type : SensorType;
  name_lower : string;
  Value : outcome (option Q)
}.

(** A piece of hardware without its children: its type, what [Update()]
    does, and its sensors. *)
Record Node : Type := {
  hardware_type : HardwareType;
  Update : outcome unit;
  Sensors : list Sensor
}.

(** An entry of [self.comp.Hardware] with its [SubHardware]. *)
Record Hardware : Type := {
  node : Node;
  SubHardware : list Node
}.

(** [_sensor_value] *)
Definition _sensor_value (s : Sensor) : option Q :=
  match Value s with
  | Ok (Some v) => Some v
  | Ok None => None
  | Raised _ => None
  end.

(** [a or b] with [a] a float or [None]: [a] unless it is [None] or zero. *)
Definition py_or (a b : option Q) : option Q :=
  match a with
  | Some v => if Qeq_bool v 0 then b else Some v
  | None => b
  end.

(** [needle in hay], equivalently [hay.find(needle) >= 0]. *)
Fixpoint contains (needle hay : string) : bool :=
  match hay with
  | EmptyString => String.prefix needle EmptyString
  | String _ rest => String.prefix needle hay || contains needle rest
  end.

(** The dictionary [read] fills.  All twelve keys are present from the
    start and none is ever removed, so [data[k]] never fails. *)
Abbreviation Data := (gmap string (option Q)).

Definition empty_data : Data :=
  list_to_map
    [ ("cpu_temp", None); ("cpu_power", None); ("cpu_freq", None);
      ("cpu_load", None);
      ("gpu_temp", None); ("gpu_power", None); ("gpu_freq", None);
      ("gpu_load", None); ("gpu_vram_used", None); ("gpu_vram_total", None);
      ("disk_temp", None); ("disk_load", None) ]%string.

(** [data[k]] *)
Definition item (data : Data) (k : string) : option Q :=
  match data !! k with Some v => v | None => None end.

(** [data[k] = _sensor_value(s) or data[k]] *)
Definition keep_reading (k : string) (s : Sensor) (data : Data) : Data :=
  <[k := py_or (_sensor_value s) (item data k)]> data.

(** [v = _sensor_value(s)] followed by
    [if v is not None: data[k] = max(data[k] or 0.0, v)] *)
Definition keep_max (k : string) (s : Sensor) (data : Data) : Data :=
  match _sensor_value s with
  | Some v =>
      let old := match py_or (item data k) (Some 0%Q) with
                 | Some o => o | None => 0%Q end in
      <[k := Some (fmax old v)]> data
  | None => data
  end.

(** The bodies of the three [for s in h.Sensors] loops of [scan_one]. *)
Definition scan_cpu_sensor (data : Data) (s : Sensor) : Data :=
  let name := name_lower s in
  match sensor_type s with
  | Temperature =>
      if contains "package" name then keep_reading "cpu_temp" s data else data
  | Power =>
      if contains "package" name then keep_reading "cpu_power" s data else data
  | Clock =>
      if contains "core" name then keep_max "cpu_freq" s data else data
  | Load =>
      if contains "total" name then keep_reading "cpu_load" s data else data
  | _ => data
  end.

Definition scan_gpu_sensor (data : Data) (s : Sensor) : Data :=
  let name := name_lower s in
  match sensor_type s with
  | Temperature =>
      if contains "gpu" name || contains "core" name
      then keep_reading "gpu_temp" s data else data
  | Power =>
      if contains "gpu" name || contains "package" name || contains "total" name
      then keep_reading "gpu_power" s data else data
  | Clock =>
      if contains "core" name then keep_max "gpu_freq" s data else data
  | Load =>
      if contains "core" name || contains "gpu" name || contains "total" name
      then keep_reading "gpu_load" s data else data
  | SmallData =>
      let data :=
        if contains "memory used" name || contains "vram used" name
        then keep_reading "gpu_vram_used" s data else data in
      if contains "memory total" name || contains "vram total" name
      then keep_reading "gpu_vram_total" s data else data
  | OtherSensor => data
  end.

Definition scan_storage_sensor (data : Data) (s : Sensor) : Data :=
  let name := name_lower s in
  match sensor_type s with
  | Temperature =>
      if contains "temperature" name || contains "drive" name
      then keep_reading "disk_temp" s data else data
  | Load =>
      if contains "used space" name || contains "activity" name
         || contains "total" name
      then keep_reading "disk_load" s data else data
  | _ => data
  end.

(** [scan_one(h)] *)
Definition scan_one (data : Data) (h : Node) : Data :=
  match hardware_type h with
  | Cpu => fold_left scan_cpu_sensor (Sensors h) data
  | GpuNvidia | GpuAmd | GpuIntel => fold_left scan_gpu_sensor (Sensors h) data
  | Storage => fold_left scan_storage_sensor (Sensors h) data
  | OtherHardware => data
  end.

(** [for shw in sub_hws: shw.Update()]: the first exception ends the loop. *)
Fixpoint update_all (subs : list Node) : outcome unit :=
  match subs with
  | [] => Ok tt
  | shw :: rest =>
      match Update shw with
      | Ok _ => update_all rest
      | Raised e => Raised e
      end
  end.

(** One round of the [for hw in self.comp.Hardware] loop. *)
Definition read_hardware (data : Data) (hw : Hardware) : outcome Data :=
  match Update (node hw) with
  | Raised e => Raised e
  | Ok _ =>
      match update_all (SubHardware hw) with
      | Raised e => Raised e
      | Ok _ =>
          Ok (fold_left scan_one (SubHardware hw) (scan_one data (node hw)))
      end
  end.

Fixpoint read_from (data : Data) (hardware : list Hardware) : outcome Data :=
  match hardware with
  | [] => Ok data
  | hw :: rest =>
      match read_hardware data hw with
      | Ok data' => read_from data' rest
      | Raised e => Raised e
      end
  end.

(** [LhmReader.read]; [hardware] is [self.comp.Hardware]. *)
Definition LhmReader_read (hardware : list Hardware) : outcome Data :=
  read_from empty_data hardware.

(** What [Overlay.refresh] takes from the result: [lhm.get("gpu_load")]. *)
Definition lhm_of (hardware : list Hardware) : outcome Overlay.LhmData :=
  match LhmReader_read hardware with
  | Ok data => Ok {| Overlay.gpu_load := item data "gpu_load" |}
  | Raised e => Raised e
  end.

(** The keys written with [... or data[k]], and the two written with
    [max]. *)
Definition reading_keys : list string :=
  [ "cpu_temp"; "cpu_power"; "cpu_load"; "gpu_temp"; "gpu_power"; "gpu_load";
    "gpu_vram_used"; "gpu_vram_total"; "disk_temp"; "disk_load" ]%string.

Definition max_keys : list string := [ "cpu_freq"; "gpu_freq" ]%string.

(** Some [Update()] of an entry of [self.comp.Hardware], on the entry or on
    one of its children, raises. *)
Definition update_raises (hw : Hardware) : bool :=
  raises (Update (node hw))
  || existsb (fun shw => raises (Update shw)) (SubHardware hw).

(** What holds of the dictionary throughout [read]. *)
Definition all_keys (data : Data) : Prop :=
  forall k, is_Some (empty_data !! k) -> is_Some (data !! k).

Definition no_zero_reading (data : Data) : Prop :=
  forall k q, In k reading_keys -> data !! k = Some (Some q) -> ~ (q == 0)%Q.

Definition freq_nonneg (data : Data) : Prop :=
  forall k q, In k max_keys -> data !! k = Some (Some q) -> (0 <= q)%Q.

End Lhm.

(* ------------------------------------------------------------------ *)
(** * Window styling and appearance (main.py) *)
(* ------------------------------------------------------------------ *)

Module Style.
Import Dock.

Definition GWL_EXSTYLE : Z := -20.
Definition WS_EX_LAYERED : Z := 0x00080000.
Definition WS_EX_TRANSPARENT : Z := 0x00000020.
Definition WS_EX_TOOLWINDOW : Z := 0x00000080.

(** [set_click_through]: from the extended style [GetWindowLongW] returns
    to the one handed to [SetWindowLongW]. *)
Definition set_click_through (ex_style : Z) (enabled : bool) : Z :=
  let ex_style := Z.lor ex_style (Z.lor WS_EX_LAYERED WS_EX_TOOLWINDOW) in
  if enabled then Z.lor ex_style WS_EX_TRANSPARENT
  else Z.land ex_style (Z.lnot WS_EX_TRANSPARENT).

(** An entry of [THEMES]. *)
Record Theme : Type := {
  name : string;
  bg : Z * Z * Z;
  border : Z * Z * Z * Z;
  badge : Z * Z * Z * Z;
  value : Z * Z * Z * Z;
  shadow : Z * Z * Z * Z;
  glow : Z * Z * Z * Z
}.

Definition mica : Theme :=
  {| name := "Windows 11 云母感";
     bg := (18, 18, 22);
     border := (255, 255, 255, 42);
     badge := (255, 255, 255, 185);
     value := (255, 255, 255, 240);
     shadow := (0, 0, 0, 140);
     glow := (255, 255, 255, 120) |}.

Definition neon : Theme :=
  {| name := "霓虹";
     bg := (10, 10, 14);
     border := (120, 220, 255, 95);
     badge := (170, 240, 255, 230);
     value := (255, 255, 255, 246);
     shadow := (120, 220, 255, 150);
     glow := (120, 220, 255, 170) |}.

Definition cyber : Theme :=
  {| name := "赛博";
     bg := (6, 12, 10);
     border := (80, 255, 200, 95);
     badge := (120, 255, 220, 235);
     value := (235, 255, 250, 246);
     shadow := (80, 255, 200, 140);
     glow := (80, 255, 200, 170) |}.

Definition THEMES : gmap string Theme :=
  list_to_map [ ("mica", mica); ("neon", neon); ("cyber", cyber) ]%string.

(** The appearance attributes of [Overlay] and what [apply_theme] last
    produced: the palette and alpha that go into the style sheet, and the
    two values written to the settings. *)
Record Appearance : Type := {
  theme_key : string;
  opacity_pct : Z;
  palette : option Theme;
  alpha : option Z;
  saved_theme : option string;
  saved_opacity : option Z
}.

(** [apply_theme] *)
Definition apply_theme (a : Appearance) : Appearance :=
  let t := default mica (THEMES !! theme_key a) in
  let alpha :=
    int_of_float (inject_Z (255 * clamp (opacity_pct a) 30 95) / 100)%Q in
  {| theme_key := theme_key a;
     opacity_pct := opacity_pct a;
     palette := Some t;
     alpha := Some alpha;
     saved_theme := Some (theme_key a);
     saved_opacity := Some (opacity_pct a) |}.

(** [set_theme] *)
Definition set_theme (key : string) (a : Appearance) : Appearance :=
  match THEMES !! key with
  | None => a
  | Some _ =>
      apply_theme
        {| theme_key := key; opacity_pct := opacity_pct a;
           palette := palette a; alpha := alpha a;
           saved_theme := saved_theme a; saved_opacity := saved_opacity a |}
  end.

(** [set_opacity_pct] *)
Definition set_opacity_pct (v : Z) (a : Appearance) : Appearance :=
  apply_theme
    {| theme_key := theme_key a; opacity_pct := clamp v 30 95;
       palette := palette a; alpha := alpha a;
       saved_theme := saved_theme a; saved_opacity := saved_opacity a |}.

(** [_restore_or_default_pos]: the position the window ends at.  [saved] is
    [None] when the settings hold no position, and otherwise the outcome of
    parsing it and moving there (lines 564-565); [w] and [h] are the
    window's size. *)
Definition _restore_or_default_pos (screen : QRect) (w h : Z)
    (saved : option (outcome (Z * Z))) : Z * Z :=
  match saved with
  | Some (Ok (x, y)) =>
      (clamp x (left screen) (right screen - w),
       clamp y (top screen) (bottom screen - h))
  | _ => (right screen - w - 10, top screen + 10)
  end.

(** A rectangle lies within the screen. *)
Definition within_screen (s r : QRect) : Prop :=
  left s <= left r /\ right r <= right s /\
  top s <= top r /\ bottom r <= bottom s.

End Style.

(* ------------------------------------------------------------------ *)
(** * Views of the widget state used to state what handlers leave alone *)
(* ------------------------------------------------------------------ *)

Module Control.
Import Dock Overlay.

(** Everything of the widget except what sampling and rendering write
    (the two readers, the metrics, the phrase state, the generator and the
    panel). *)
Definition controls (o : Overlay)
  : bool * bool * option QRect * bool * Side * bool
    * AnimGroup * option bool * bool * QRect * Q * bool * option (Z * Z) :=
  (auto_hide o, click_through o, expanded_geo o, collapsed o, dock_side o,
   _dragging o, _anim_group o, _anim_target_collapsed o, _anim_inflight o,
   geometry o, windowOpacity o, _collapse_timer o, settings_pos o).

(** The opacity, and the end points of a running opacity animation, lie
    between the collapsed and the expanded constant. *)
Definition in_opacity_range (q : Q) : Prop :=
  (COLLAPSED_OPACITY <= q <= EXPANDED_OPACITY)%Q.

Record opacity_ok (o : Overlay) : Prop := {
  opacity_in_range : in_opacity_range (windowOpacity o);
  running_in_range :
    running (_anim_group o) = true ->
    exists q0 q1, opa_start (_anim_group o) = Some q0 /\
                  opa_end (_anim_group o) = Some q1 /\
                  in_opacity_range q0 /\ in_opacity_range q1
}.

(** [QRect.isNull()]: no width and no height. *)
Definition is_null (r : QRect) : bool := (rwidth r =? 0) && (rheight r =? 0).

(** A rectangle that [clamp] into the screen leaves where it is. *)
Definition settled_in (s r : QRect) : Prop :=
  left s <= rx r <= right s - rwidth r /\
  top s <= ry r <= bottom s - rheight r.

(** The end rectangle [expand_animated] computes from a remembered one. *)
Definition expand_target (s g : QRect) : QRect :=
  {| rx := clamp (rx g) (left s) (right s - rwidth g);
     ry := clamp (ry g) (top s) (bottom s - rheight g);
     rwidth := rwidth g;
     rheight := rheight g |}.

Definition expand_fallback (s : QRect) : QRect :=
  {| rx := right s - 270; ry := top s + 40; rwidth := 270; rheight := 178 |}.

End Control.

(* ------------------------------------------------------------------ *)
(** * Concrete runs used as examples and counterexamples *)
(* ------------------------------------------------------------------ *)

Module Scenarios.
Import Sampler Phrases Mood Dock Overlay.

(** The state [PsutilReader.__init__] builds at time 100 with one MiB sent
    so far, and a later reading at time 101 in which the interface counter
    has restarted from zero. *)
Definition psr_before_reset : RateState :=
  PsutilReader_init 100
    (Some {| read_bytes := 0; write_bytes := 0 |})
    (Some {| bytes_sent := 1048576; bytes_recv := 0 |}).

Definition calls_after_reset : PsutilCalls :=
  {| time_time := 101;
     disk_io_counters := Ok (Some {| read_bytes := 0; write_bytes := 0 |});
     net_io_counters := Ok (Some {| bytes_sent := 0; bytes_recv := 0 |});
     cpu_percent := Ok (Some 5%Q);
     cpu_freq := Ok None;
     virtual_memory := Ok None |}.

(** The refresh tick that meets the counter reset of [calls_after_reset]. *)
Definition tick_after_reset : TickCalls :=
  {| lhm_read := Ok {| gpu_load := Some 12%Q |};
     psr_calls := calls_after_reset;
     cpu_percent_again := Ok 5%Q;
     vm_percent_again := Ok 40%Q;
     disk_again := Ok (Some {| read_bytes := 0; write_bytes := 0 |});
     disk_time := 101 |}.

(** A refresh tick during which [psutil.net_io_counters()] fails while every
    other source answers. *)
Definition tick_net_failure : TickCalls :=
  {| lhm_read := Ok {| gpu_load := Some 12%Q |};
     psr_calls :=
       {| time_time := 101;
          disk_io_counters := Ok (Some {| read_bytes := 0; write_bytes := 0 |});
          net_io_counters := Raised OsError;
          cpu_percent := Ok (Some 5%Q);
          cpu_freq := Ok None;
          virtual_memory := Ok (Some {| percent := 40; used := 0; available := 0 |}) |};
     cpu_percent_again := Ok 5%Q;
     vm_percent_again := Ok 40%Q;
     disk_again := Ok (Some {| read_bytes := 0; write_bytes := 0 |});
     disk_time := 101 |}.

(** A table whose first bucket offers the empty string as a phrase, and a
    generator that draws index 0, then 0, then 1. *)
Definition table_with_empty_phrase : Buckets :=
  [ (0, 10, [""; "a"]); (10, 20, ["zzz"]) ]%Q%string.

Definition rng_0_0_1 : Rng :=
  {| draws := fun n => match n with 2%nat => 1%nat | _ => 0%nat end;
     taken := 0 |}.

(** Three successive calls for the same kind: a value in the second bucket,
    then two values in the first. *)
Definition empty_phrase_call1 : PhraseState * Rng * outcome string :=
  get PhraseManager_init rng_0_0_1 "cpu" (Some 15%Q) table_with_empty_phrase.

Definition empty_phrase_call2 : PhraseState * Rng * outcome string :=
  get (fst (fst empty_phrase_call1)) (snd (fst empty_phrase_call1))
      "cpu" (Some 5%Q) table_with_empty_phrase.

Definition empty_phrase_call3 : PhraseState * Rng * outcome string :=
  get (fst (fst empty_phrase_call2)) (snd (fst empty_phrase_call2))
      "cpu" (Some 6%Q) table_with_empty_phrase.

(** A table whose buckets are not in ascending order. *)
Definition table_out_of_order : Buckets :=
  [ (10, 20, ["a"]); (0, 5, ["b"]); (20, 30, ["c"]) ]%Q%string.

(** Three samples of the metrics as floats: nothing known; cpu 1.0, gpu
    30.0, ram 46.0 and 5.0 MB/s up; everything far above its ceiling. *)
Definition floats_absent : Float64.Metrics :=
  {| Float64.last_cpu := None; Float64.last_gpu := None;
     Float64.last_ram := None; Float64.last_disk_r := None;
     Float64.last_disk_w := None; Float64.last_up := None;
     Float64.last_down := None |}.

Definition floats_light_load : Float64.Metrics :=
  {| Float64.last_cpu := Some (Float64.literal 1 1);
     Float64.last_gpu := Some (Float64.literal 30 1);
     Float64.last_ram := Some (Float64.literal 46 1);
     Float64.last_disk_r := None; Float64.last_disk_w := None;
     Float64.last_up := Some (Float64.literal 5 1);
     Float64.last_down := None |}.

Definition floats_saturated : Float64.Metrics :=
  {| Float64.last_cpu := Some (Float64.literal 100 1);
     Float64.last_gpu := Some (Float64.literal 100 1);
     Float64.last_ram := Some (Float64.literal 100 1);
     Float64.last_disk_r := Some (Float64.literal 1000 1);
     Float64.last_disk_w := Some (Float64.literal 1000 1);
     Float64.last_up := Some (Float64.literal 1000 1);
     Float64.last_down := Some (Float64.literal 1000 1) |}.

(** The second sample in exact arithmetic. *)
Definition exact_light_load : Metrics :=
  {| last_cpu := Some 1%Q; last_gpu := Some 30%Q; last_ram := Some 46%Q;
     last_disk_r := None; last_disk_w := None;
     last_up := Some 5%Q; last_down := None |}.

(** The first CPU reading of a fresh manager, at 45 percent. *)
Definition cpu_call_45 : PhraseState * Rng * outcome string :=
  get PhraseManager_init rng_0_0_1 "cpu" (Some 45%Q) CPU_BUCKETS.

(** A work area of 100 by 100 pixels, a window on it, and a font whose
    lines are 16 pixels high and whose characters are 10 pixels wide. *)
Definition small_screen : QRect :=
  {| rx := 0; ry := 0; rwidth := 100; rheight := 100 |}.

Definition small_window : QRect :=
  {| rx := 10; ry := 10; rwidth := 50; rheight := 50 |}.

Definition font_16_10 : QFontMetrics :=
  {| fm_height := 16; fm_char_width := fun _ => 10 |}.

(** A 1920 by 1080 work area, the window near its top right corner, and the
    widget from construction to the middle of its first collapse: the idle
    timer is armed, fires with the pointer away, and the animation has
    produced one frame half-way through. *)
Definition full_hd : QRect :=
  {| rx := 0; ry := 0; rwidth := 1920; rheight := 1080 |}.

Definition start_window : QRect :=
  {| rx := 1640; ry := 10; rwidth := 270; rheight := 178 |}.

Definition half_way_rect : QRect :=
  {| rx := 1760; ry := 15; rwidth := 150; rheight := 120 |}.

Definition overlay_at_start : Overlay :=
  Overlay_init true false start_window psr_before_reset rng_0_0_1.

Definition overlay_timer_armed : Overlay :=
  handle (EvScheduleCollapse false) overlay_at_start.

Definition overlay_collapsing : Overlay :=
  handle (EvCollapseTimer full_hd font_16_10 false) overlay_timer_armed.

Definition overlay_mid_collapse : Overlay :=
  handle (EvAnimFrame half_way_rect (1 # 2)) overlay_collapsing.


(** A later reading in which every counter has grown. *)
Definition calls_counters_grown : PsutilCalls :=
  {| time_time := 101;
     disk_io_counters := Ok (Some {| read_bytes := 2097152; write_bytes := 0 |});
     net_io_counters := Ok (Some {| bytes_sent := 3145728; bytes_recv := 524288 |});
     cpu_percent := Ok (Some 5%Q);
     cpu_freq := Ok None;
     virtual_memory := Ok None |}.

(** The same counters read again two seconds later. *)
Definition calls_counters_same : PsutilCalls :=
  {| time_time := 103;
     disk_io_counters := Ok (Some {| read_bytes := 2097152; write_bytes := 0 |});
     net_io_counters := Ok (Some {| bytes_sent := 3145728; bytes_recv := 524288 |});
     cpu_percent := Ok (Some 7%Q);
     cpu_freq := Ok None;
     virtual_memory := Ok None |}.

(** A disk reader with a baseline taken at time 10, and a reading two
    seconds later with 4 MiB more read and 1 MiB more written. *)
Definition disk_reader_at_10 : DiskRateReader :=
  {| _last := Some {| read_bytes := 1048576; write_bytes := 0 |};
     _last_t := Some 10%Q |}.

Definition disk_io_later : sdiskio :=
  {| read_bytes := 5242880; write_bytes := 1048576 |}.

(** A manager that holds a CPU phrase of the first bucket. *)
Definition phrases_cpu_idle : PhraseState :=
  <["cpu" := (Some 0, "摸鱼模式 😴"%string)]> PhraseManager_init.

(** A bucket whose two candidates are the same phrase, and a manager that
    last showed that phrase for another bucket. *)
Definition table_with_twin_phrases : Buckets :=
  [ (0, 10, ["a"; "a"]); (10, 20, ["a"]) ]%Q%string.

Definition phrases_showing_a : PhraseState :=
  <["cpu" := (Some 1, "a"%string)]> PhraseManager_init.

(** Two samples of the metrics, the second at least as loaded as the first
    in every respect. *)
Definition metrics_calm : Metrics :=
  {| last_cpu := Some 10%Q; last_gpu := None; last_ram := Some 40%Q;
     last_disk_r := Some 1%Q; last_disk_w := Some 0%Q;
     last_up := None; last_down := Some 2%Q |}.

Definition metrics_busy : Metrics :=
  {| last_cpu := Some 80%Q; last_gpu := Some 30%Q; last_ram := Some 40%Q;
     last_disk_r := Some 300%Q; last_disk_w := Some 0%Q;
     last_up := Some 1%Q; last_down := Some 2%Q |}.

(** Auto-hide is switched off in the middle of the first collapse. *)
Definition overlay_interrupted : Overlay :=
  handle (EvToggleAutohide full_hd false) overlay_mid_collapse.

(** A tick in which psutil has no CPU figure and the second CPU reading
    fails. *)
Definition tick_cpu_unavailable : TickCalls :=
  {| lhm_read := Ok {| gpu_load := None |};
     psr_calls :=
       {| time_time := 101;
          disk_io_counters := Ok None;
          net_io_counters := Ok None;
          cpu_percent := Ok None;
          cpu_freq := Ok None;
          virtual_memory := Ok None |};
     cpu_percent_again := Raised OsError;
     vm_percent_again := Raised OsError;
     disk_again := Raised OsError;
     disk_time := 101 |}.

Import Style.

(** Stored appearance settings with a theme key that is not in [THEMES] and
    an opacity outside the slider's range. *)
Definition appearance_from_bad_settings : Appearance :=
  {| theme_key := "solarized"; opacity_pct := 400;
     palette := None; alpha := None;
     saved_theme := None; saved_opacity := None |}.

Import Lhm.

(** An idle graphics card: its load sensor reads exactly 0, its clock
    sensor 210 MHz, and reading its temperature sensor fails. *)
Definition idle_gpu : Hardware :=
  {| node :=
       {| hardware_type := GpuNvidia;
          Update := Ok tt;
          Sensors :=
            [ {| sensor_type := Load; name_lower := "gpu core";
                 Value := Ok (Some 0%Q) |};
              {| sensor_type := Clock; name_lower := "gpu core";
                 Value := Ok (Some 210%Q) |};
              {| sensor_type := Temperature; name_lower := "gpu core";
                 Value := Raised OsError |} ] |};
     SubHardware := [] |}.
End Scenarios.

(* ================================================================== *)
(** * Properties *)
(* ================================================================== *)

Import Sampler Phrases Mood Dock Overlay Scenarios.

(* ------------------------------------------------------------------ *)
(** ** [max], [min] and [clamp] *)
(* ------------------------------------------------------------------ *)

Lemma fmax_lb_l a b : (a <= fmax a b)%Q.
Proof. unfold fmax. destruct (Qlt_le_dec a b); lra. Qed.

Lemma fmax_lb_r a b : (b <= fmax a b)%Q.
Proof. unfold fmax. destruct (Qlt_le_dec a b); lra. Qed.

Lemma fmin_ub_l a b : (fmin a b <= a)%Q.
Proof. unfold fmin. destruct (Qlt_le_dec b a); lra. Qed.

Lemma fmin_ub_r a b : (fmin a b <= b)%Q.
Proof. unfold fmin. destruct (Qlt_le_dec b a); lra. Qed.

Lemma imax_spec a b : imax a b = Z.max a b.
Proof. unfold imax. destruct (Z_lt_le_dec a b); lia. Qed.

Lemma imin_spec a b : imin a b = Z.min a b.
Proof. unfold imin. destruct (Z_lt_le_dec b a); lia. Qed.

Lemma clamp_spec n a b : clamp n a b = Z.max a (Z.min b n).
Proof. unfold clamp. now rewrite imax_spec, imin_spec. Qed.

(** The elapsed time used as divisor is at least one millisecond. *)
Lemma dt_positive now last : (0 < fmax (1 # 1000) (now - last))%Q.
Proof. pose proof (fmax_lb_l (1 # 1000) (now - last)). lra. Qed.

(* ------------------------------------------------------------------ *)
(** ** Rate sampling *)
(* ------------------------------------------------------------------ *)

Lemma floor_at_zero_nonneg r : (0 <= floor_at_zero r)%Q.
Proof. unfold floor_at_zero. destruct (Qlt_le_dec r 0); lra. Qed.

(** [DiskRateReader.read] never reports a negative rate, whatever the two
    counter readings and timestamps are. *)
Lemma DiskRateReader_read_nonneg self io_call now r :
  fst (snd (DiskRateReader_read self io_call now)) = Some r \/
  snd (snd (DiskRateReader_read self io_call now)) = Some r ->
  (0 <= r)%Q.
Proof.
  unfold DiskRateReader_read.
  destruct io_call as [[io|]|e]; cbn; try (intros [H|H]; discriminate).
  destruct (_last self), (_last_t self); cbn;
    intros [H|H]; inversion H; subst;
    first [ apply floor_at_zero_nonneg | lra ].
Qed.

(** A failing counter read is turned into a pair of absent values. *)
Lemma DiskRateReader_read_catches self e now :
  DiskRateReader_read self (Raised e) now = (self, (None, None)).
Proof. reflexivity. Qed.

(** C1 (does not hold for [PsutilReader.read]).  After a network counter
    reset the upload rate returned by [PsutilReader.read] is [-1] MB/s: the
    negative delta is divided and scaled but never clamped, unlike in
    [DiskRateReader.read]. *)
Theorem PsutilReader_read_negative_rate :
  exists st' out r,
    PsutilReader_read psr_before_reset calls_after_reset = (st', Ok out) /\
    net_up_mb_s out = Some r /\ (r == -1)%Q /\ (r < 0)%Q.
Proof.
  eexists. eexists. eexists. split; [reflexivity|].
  split; [reflexivity|].
  split; vm_compute; reflexivity.
Qed.

(** The negative rate is what [refresh] stores in [last_up] and puts on the
    network line of the panel. *)
Example refresh_keeps_negative_rate :
  snd (refresh tick_after_reset overlay_at_start) = Ok tt /\
  exists r down,
    last_up (metrics (fst (refresh tick_after_reset overlay_at_start))) = Some r /\
    option_map line5 (lines (panel (fst (refresh tick_after_reset overlay_at_start))))
      = Some (Some r, Some down) /\
    (r < 0)%Q.
Proof.
  split; [vm_compute; reflexivity|].
  eexists. eexists. split; [vm_compute; reflexivity|].
  split; vm_compute; reflexivity.
Qed.

(** [PsutilReader.read] passes on whatever its counter reads raise. *)
Lemma PsutilReader_read_propagates st os e :
  disk_io_counters os = Raised e \/
  (raises (disk_io_counters os) = false /\ net_io_counters os = Raised e) ->
  PsutilReader_read st os = (st, Raised e).
Proof.
  unfold PsutilReader_read. intros [H | [Hd H]].
  - now rewrite H.
  - destruct (disk_io_counters os); [|discriminate]. now rewrite H.
Qed.

(** C2 (does not hold for the network and [PsutilReader] reads).  When
    [psutil.net_io_counters()] fails during a tick, the exception leaves
    [PsutilReader.read] and then [refresh]: the tick ends with the
    exception, the metrics and the panel are not updated, and no absent
    value is produced. *)
Theorem refresh_raises_on_counter_failure (o : Overlay) :
  snd (refresh tick_net_failure o) = Raised OsError /\
  metrics (fst (refresh tick_net_failure o)) = metrics o /\
  panel (fst (refresh tick_net_failure o)) = panel o.
Proof.
  unfold refresh. cbn [lhm_read tick_net_failure psr_calls].
  rewrite (PsutilReader_read_propagates _ _ OsError) by (right; split; reflexivity).
  cbn. auto.
Qed.

(* ------------------------------------------------------------------ *)
(** ** Bucket lookup and phrase selection *)
(* ------------------------------------------------------------------ *)

Lemma in_range_below lo hi usage : (usage < lo)%Q -> in_range lo hi usage = false.
Proof.
  intros H. unfold in_range. destruct (Qlt_le_dec usage lo); [reflexivity | lra].
Qed.

(** A value below every lower bound is matched by no bucket. *)
Lemma scan_none_below_all buckets usage : forall i,
  Forall (fun b => (usage < lo_of b)%Q) buckets ->
  scan i buckets usage = None.
Proof.
  induction buckets as [|[[lo hi] texts] rest IH]; intros i H; [reflexivity|].
  inversion H as [|? ? Hb Hrest]; subst. cbn in Hb |- *.
  rewrite in_range_below by exact Hb. now apply IH.
Qed.

Lemma ascending_below_first b rest usage :
  ascending (b :: rest) -> (usage < lo_of b)%Q ->
  Forall (fun b' => (usage < lo_of b')%Q) (b :: rest).
Proof.
  intros [Hall _] Hlt. constructor; [exact Hlt|].
  eapply Forall_impl; [exact Hall|]. cbn. intros b' Hle. lra.
Qed.

(** C10, amended.  In a table in ascending order, a value strictly below the
    first bucket's lower bound is matched by no bucket of the scan, and
    [_pick_bucket] falls through to the last bucket's index and phrase
    list. *)
Theorem pick_bucket_below_range b rest usage :
  ascending (b :: rest) -> (usage < lo_of b)%Q ->
  scan 0 (b :: rest) usage = None /\
  _pick_bucket (b :: rest) usage =
    Ok (Z.of_nat (length (b :: rest)) - 1, texts_of (List.last rest b)).
Proof.
  intros Hasc Hlt.
  assert (Hscan : scan 0 (b :: rest) usage = None).
  { apply scan_none_below_all. now apply ascending_below_first. }
  split; [exact Hscan|].
  unfold _pick_bucket. rewrite Hscan. reflexivity.
Qed.

Lemma pick_bucket_below_range_witness :
  ascending CPU_BUCKETS /\ (-1 < 0)%Q /\
  _pick_bucket CPU_BUCKETS (-1) =
    Ok (4, ["快冒烟了 🔥"; "别再加任务了 😵"; "风扇起飞 ✈️"]%string).
Proof.
  assert (Ha : ascending CPU_BUCKETS).
  { cbn. repeat split; repeat constructor; cbn; lra. }
  assert (Hl : (-1 < 0)%Q) by lra.
  split; [exact Ha|]. split; [exact Hl|].
  exact (proj2 (pick_bucket_below_range _ _ (-1) Ha Hl)).
Defined.

(** C10 as stated, for every table, fails: in a table whose second bucket
    starts below the first, the value 3 lies below the first bucket's lower
    bound 10, yet the scan matches the second bucket (0 to 5) and
    [_pick_bucket] returns index 1 and not the last index 2. *)
Lemma pick_bucket_unordered_table :
  (3 < 10)%Q /\
  _pick_bucket table_out_of_order 3 = Ok (1, ["b"]%string) /\
  Z.of_nat (length table_out_of_order) - 1 = 2.
Proof. vm_compute. repeat split; reflexivity. Qed.

(** C8.  With an absent value [get] returns the fixed sentinel and changes
    neither the stored per-kind state nor the generator. *)
Theorem get_absent_value self g kind buckets :
  get self g kind None buckets = (self, g, Ok NO_DATA).
Proof. reflexivity. Qed.

(** Boundary values belong to the bucket they open; values at or above
    every listed upper bound fall to the last bucket. *)
Example pick_bucket_cpu_30 :
  exists texts, _pick_bucket CPU_BUCKETS 30 = Ok (2, texts).
Proof. eexists. reflexivity. Qed.

Example pick_bucket_cpu_150 :
  exists texts, _pick_bucket CPU_BUCKETS 150 = Ok (4, texts).
Proof. eexists. reflexivity. Qed.

Example pick_bucket_empty_table : _pick_bucket [] 5 = Raised IndexError.
Proof. reflexivity. Qed.

Lemma choice_In {A : Type} (seq : list A) g x g' :
  choice seq g = Ok (x, g') -> In x seq.
Proof.
  destruct seq as [|a seq']; [discriminate|].
  intros H.
  assert (Hx : nth (draws g (taken g) mod length (a :: seq')) (a :: seq') a = x).
  { unfold choice, next_draw in H. congruence. }
  rewrite <- Hx. apply nth_In. apply Nat.mod_upper_bound. discriminate.
Qed.

Lemma idx_eq_refl idx : idx_eq (Some idx) idx = true.
Proof. cbn. apply Z.eqb_refl. Qed.

(** C5, amended.  When the candidate phrases of the bucket are non-empty
    strings and the first call returns a phrase, a call for the same kind
    with a value of the same bucket returns that phrase again and changes
    nothing. *)
Theorem get_hysteresis self g kind v1 v2 buckets idx texts texts' self1 g1 p :
  _pick_bucket buckets v1 = Ok (idx, texts) ->
  _pick_bucket buckets v2 = Ok (idx, texts') ->
  Forall (fun t => truthy t = true) texts ->
  get self g kind (Some v1) buckets = (self1, g1, Ok p) ->
  get self1 g1 kind (Some v2) buckets = (self1, g1, Ok p).
Proof.
  intros Hp1 Hp2 Hne H1.
  assert (Hstored : self1 !! kind = Some (Some idx, p) /\ truthy p = true).
  { unfold get in H1. rewrite Hp1 in H1.
    destruct (default (None, EmptyString) (self !! kind)) as [last_idx last_phrase] eqn:E.
    destruct (idx_eq last_idx idx && truthy last_phrase) eqn:Hh.
    - inversion H1; subst. apply andb_prop in Hh as [Hi Ht]. split; [|exact Ht].
      destruct (self1 !! kind) as [[li lp]|]; cbn in E; inversion E; subst.
      + destruct last_idx as [i|]; [|discriminate].
        cbn in Hi. apply Z.eqb_eq in Hi. now subst.
      + discriminate.
    - rewrite Forall_forall in Hne.
      destruct (choice texts g) as [[phrase ga]|] eqn:Hc; [|discriminate].
      destruct (String.eqb phrase last_phrase && (1 <? length texts)%nat).
      + destruct (choice _ ga) as [[p' gb]|] eqn:Hc2; [|discriminate].
        inversion H1; subst. split; [apply lookup_insert_eq|].
        apply Hne, list_elem_of_In. apply choice_In in Hc2.
        exact (proj1 (proj1 (filter_In _ _ _) Hc2)).
      + inversion H1; subst. split; [apply lookup_insert_eq|].
        apply Hne, list_elem_of_In. eapply choice_In; eauto. }
  destruct Hstored as [Hs Ht].
  unfold get. rewrite Hp2, Hs. cbn [default from_option id].
  rewrite idx_eq_refl, Ht. reflexivity.
Qed.

(** C5 as stated fails: in [table_with_empty_phrase] the values 5 and 6 lie
    in the same bucket (index 0), the call for 5 returns the empty string
    and the call for 6 immediately after it returns ["a"]. *)
Lemma hysteresis_fails_on_empty_phrase :
  (exists t, _pick_bucket table_with_empty_phrase 5 = Ok (0, t) /\
             _pick_bucket table_with_empty_phrase 6 = Ok (0, t)) /\
  snd empty_phrase_call2 = Ok ""%string /\
  snd empty_phrase_call3 = Ok "a"%string.
Proof.
  split; [eexists; split; reflexivity|].
  split; vm_compute; reflexivity.
Qed.

Lemma get_hysteresis_witness :
  get (fst (fst cpu_call_45)) (snd (fst cpu_call_45)) "cpu" (Some 50%Q) CPU_BUCKETS
  = (fst (fst cpu_call_45), snd (fst cpu_call_45), Ok "认真干活中 🛠️"%string).
Proof.
  apply (get_hysteresis PhraseManager_init rng_0_0_1 "cpu" 45 50 CPU_BUCKETS 2
           ["认真干活中 🛠️"; "多线程开工 🧵"; "正在加班 ☕"]%string
           ["认真干活中 🛠️"; "多线程开工 🧵"; "正在加班 ☕"]%string).
  - reflexivity.
  - reflexivity.
  - repeat constructor.
  - vm_compute. reflexivity.
Defined.

(* ------------------------------------------------------------------ *)
(** ** The mood score *)
(* ------------------------------------------------------------------ *)

Lemma net_ceiling : fmax 0.000001 NET_SAT_MB_S = 50%Q.
Proof. reflexivity. Qed.

(** The two normalisations, written without division. *)
Lemma pct_of_200 x : (x / 200 * 100 == x * (1 # 2))%Q.
Proof. field. Qed.

Lemma pct_of_50 x : (x / 50 * 100 == x * 2)%Q.
Proof. field. Qed.

Lemma mood_score_range m : (0 <= mood_score m <= 100)%Q.
Proof.
  unfold mood_score. cbv zeta.
  match goal with |- (0 <= fmax 0 (fmin 100 ?s) <= 100)%Q => generalize s end.
  intros s. unfold fmax, fmin.
  destruct (Qlt_le_dec s 100); [destruct (Qlt_le_dec 0 s)|destruct (Qlt_le_dec 0 100)]; lra.
Qed.

(** The same lines in binary64. *)
Lemma float_lt_le a b : Float64.lt a b = true -> Float64.le a b = true.
Proof.
  unfold Float64.lt, Float64.le, SpecFloat.SFltb, SpecFloat.SFleb.
  destruct (SpecFloat.SFcompare a b) as [[| |]|]; intros H;
    try discriminate; reflexivity.
Qed.

Lemma float_net_ceiling :
  Float64.max (Float64.literal 1 1000000) Float64.NET_SAT_MB_S
  = Float64.literal 50 1.
Proof. vm_compute. reflexivity. Qed.

Lemma float_or_zero_missing v : Float64.or_zero v = Float64.missing_as_zero v.
Proof. destruct v; vm_compute; reflexivity. Qed.

Lemma float_min_100_capped pct :
  Float64.min (Float64.literal 100 1) pct = Float64.capped_at_100 pct.
Proof. reflexivity. Qed.

Lemma float_max_min_clamped x :
  Float64.max (Float64.literal 0 1) (Float64.min (Float64.literal 100 1) x)
  = Float64.clamped_0_100 x.
Proof.
  unfold Float64.max, Float64.min, Float64.clamped_0_100.
  destruct (Float64.lt x (Float64.literal 100 1)); [reflexivity|].
  assert (H : Float64.lt (Float64.literal 0 1) (Float64.literal 100 1) = true)
    by (vm_compute; reflexivity).
  rewrite H. reflexivity.
Qed.

Lemma float_clamped_range x :
  Float64.le (Float64.literal 0 1) (Float64.clamped_0_100 x) = true /\
  Float64.le (Float64.clamped_0_100 x) (Float64.literal 100 1) = true.
Proof.
  unfold Float64.clamped_0_100.
  destruct (Float64.lt x (Float64.literal 100 1)) eqn:Hhi;
    [destruct (Float64.lt (Float64.literal 0 1) x) eqn:Hlo|].
  - split; apply float_lt_le; assumption.
  - split; vm_compute; reflexivity.
  - split; vm_compute; reflexivity.
Qed.

(** C6.  The score [_compute_mood_phrase] passes to phrase selection,
    computed in binary64 as Python computes it, is the weighted sum
    0.28 cpu + 0.28 gpu + 0.22 ram + 0.10 disk_norm + 0.12 net_norm with
    missing metrics read as 0, disk_norm and net_norm the read+write and
    up+down sums normalised against 200 and 50 MB/s and capped at 100,
    clamped to [0, 100]; and for every input, NaN and infinities included,
    it lies between 0 and 100. *)
Theorem mood_score_is_clamped_weighted_sum (m : Float64.Metrics) :
  Float64.mood_score m =
    Float64.spec_mood_score
      (Float64.last_cpu m) (Float64.last_gpu m) (Float64.last_ram m)
      (Float64.last_disk_r m) (Float64.last_disk_w m)
      (Float64.last_up m) (Float64.last_down m) /\
  Float64.le (Float64.literal 0 1) (Float64.mood_score m) = true /\
  Float64.le (Float64.mood_score m) (Float64.literal 100 1) = true.
Proof.
  split.
  - unfold Float64.mood_score, Float64.spec_mood_score, Float64.normalised.
    cbv zeta.
    rewrite float_net_ceiling, float_max_min_clamped, !float_min_100_capped,
      !float_or_zero_missing.
    reflexivity.
  - unfold Float64.mood_score. cbv zeta. rewrite float_max_min_clamped.
    apply float_clamped_range.
Qed.

(** On three samples: with nothing known the score is 0.0; with cpu 1.0, gpu
    30.0, ram 46.0 and 5.0 MB/s up it is 19.999999999999996, that is
    5629499534213119 * 2^-48; with everything above its ceiling it is
    100.0. *)
Lemma mood_score_is_clamped_weighted_sum_witness :
  Float64.mood_score floats_absent = SpecFloat.S754_zero false /\
  Float64.mood_score floats_light_load
  = SpecFloat.S754_finite false 5629499534213119 (-48) /\
  Float64.mood_score floats_saturated = Float64.literal 100 1.
Proof.
  rewrite (proj1 (mood_score_is_clamped_weighted_sum floats_absent)).
  rewrite (proj1 (mood_score_is_clamped_weighted_sum floats_light_load)).
  rewrite (proj1 (mood_score_is_clamped_weighted_sum floats_saturated)).
  vm_compute. repeat split; reflexivity.
Defined.

(** Where exact arithmetic and binary64 part: on the second sample the
    exact weighted sum is 20, the first value of the second mood bucket,
    while the float the code computes lies below 20.0, in the first
    bucket. *)
Example mood_score_rounding_sample :
  (mood_score exact_light_load == 20)%Q /\
  Float64.lt (Float64.mood_score floats_light_load) (Float64.literal 20 1)
  = true.
Proof. split; vm_compute; reflexivity. Qed.

(* ------------------------------------------------------------------ *)
(** ** Dock planning *)
(* ------------------------------------------------------------------ *)

Lemma decide_side_left s rect :
  _decide_nearest_side s rect = SideLeft <-> center_x rect < screen_mid_x s.
Proof.
  unfold _decide_nearest_side.
  destruct (Z.ltb_spec (center_x rect) (screen_mid_x s)); split;
    intros; try discriminate; try reflexivity; lia.
Qed.

Lemma decide_side_right s rect :
  _decide_nearest_side s rect = SideRight <-> screen_mid_x s <= center_x rect.
Proof.
  unfold _decide_nearest_side.
  destruct (Z.ltb_spec (center_x rect) (screen_mid_x s)); split;
    intros; try discriminate; try reflexivity; lia.
Qed.

(** The docked rectangle is inside the inset screen exactly when the
    collapsed size leaves room for the margin on both sides. *)
Lemma collapsed_rect_within_iff s expanded side w h :
  within_margin s (_collapsed_rect_for s expanded side w h) <->
  w <= rwidth s - 2 * EDGE_SAFE_PX /\ h <= rheight s - 2 * EDGE_SAFE_PX.
Proof.
  unfold within_margin, _collapsed_rect_for, left, right, top, bottom, EDGE_SAFE_PX.
  cbn [rx ry rwidth rheight]. rewrite clamp_spec.
  destruct side; lia.
Qed.

(** C7, amended.  The side is Left exactly when the rectangle's centre x
    is strictly left of the screen's horizontal midpoint and Right
    otherwise; the docked rectangle lies within the screen inset by the
    edge margin exactly when the collapsed width and height are at most the
    screen's width and height less twice the margin. *)
Theorem dock_side_and_rect s rect expanded side w h :
  (_decide_nearest_side s rect = SideLeft <-> center_x rect < screen_mid_x s) /\
  (_decide_nearest_side s rect = SideRight <-> screen_mid_x s <= center_x rect) /\
  (within_margin s (_collapsed_rect_for s expanded side w h) <->
   w <= rwidth s - 2 * EDGE_SAFE_PX /\ h <= rheight s - 2 * EDGE_SAFE_PX).
Proof.
  split; [apply decide_side_left|].
  split; [apply decide_side_right|].
  apply collapsed_rect_within_iff.
Qed.

(** C7 as stated fails: on a 100 by 100 work area the sizing routines give
    a bar 64 pixels high, and the docked rectangle's bottom edge (83) lies
    below the inset screen's bottom edge (79). *)
Lemma docked_rect_leaves_small_screen :
  _calc_collapsed_height_for_text small_screen font_16_10 "a" = 64 /\
  _calc_collapsed_width_for_text font_16_10 "a" = 28 /\
  bottom small_screen - EDGE_SAFE_PX = 79 /\
  bottom (_collapsed_rect_for small_screen small_window SideLeft 28 64) = 83.
Proof. repeat split. Qed.

(** [len] counts code points, not bytes. *)
Example len_counts_code_points : len "摸鱼中 😴" = 5.
Proof. reflexivity. Qed.

(** [int(height * 0.55)] is the truncated 55 percent of the height. *)
Lemma max_h_quot hgt :
  int_of_float (inject_Z hgt * COLLAPSED_MAX_H_RATIO)%Q = Z.quot (hgt * 55) 100.
Proof. reflexivity. Qed.

(** On a work area at least 92 pixels wide and 104 pixels high, the sizes
    computed by the two sizing routines always leave the docked rectangle
    within the inset screen. *)
Lemma sized_rect_within_margin s fm mood expanded side :
  92 <= rwidth s -> 104 <= rheight s ->
  within_margin s
    (_collapsed_rect_for s expanded side
       (_calc_collapsed_width_for_text fm mood)
       (_calc_collapsed_height_for_text s fm mood)).
Proof.
  intros Hw Hh. apply collapsed_rect_within_iff.
  unfold _calc_collapsed_width_for_text, _calc_collapsed_height_for_text.
  cbv zeta. rewrite max_h_quot, !clamp_spec.
  unfold EDGE_SAFE_PX, COLLAPSED_MIN_W, COLLAPSED_MAX_W, COLLAPSED_MIN_H.
  pose proof (Z.quot_lt_upper_bound (rheight s * 55) 100 (rheight s - 39)).
  assert (Z.quot (rheight s * 55) 100 <= rheight s - 40) by lia.
  lia.
Qed.

(* ------------------------------------------------------------------ *)
(** ** [get] always returns on the tables of the program *)
(* ------------------------------------------------------------------ *)

Lemma scan_In buckets usage : forall i j texts,
  scan i buckets usage = Some (j, texts) ->
  exists b, In b buckets /\ texts_of b = texts.
Proof.
  induction buckets as [|[[lo hi] t] rest IH]; intros i j texts H; [discriminate|].
  cbn in H. destruct (in_range lo hi usage).
  - inversion H; subst. exists (lo, hi, texts). split; [now left | reflexivity].
  - destruct (IH _ _ _ H) as [b [Hin Ht]]. exists b. split; [now right | exact Ht].
Qed.

Lemma last_cons_default {A : Type} (l : list A) (a d : A) :
  List.last (a :: l) d = List.last l a.
Proof.
  revert a d. induction l as [|b l IH]; intros a d; [reflexivity|].
  change (List.last (a :: b :: l) d) with (List.last (b :: l) d).
  now rewrite !IH.
Qed.

Lemma last_In {A : Type} (l : list A) (d : A) : In (List.last l d) (d :: l).
Proof.
  revert d. induction l as [|a l IH]; intros d; [now left|].
  right. rewrite last_cons_default. apply IH.
Qed.

(** [_pick_bucket] returns on every non-empty table, with the phrase list
    of one of its buckets. *)
Lemma pick_bucket_returns buckets usage :
  buckets <> [] ->
  exists idx b, _pick_bucket buckets usage = Ok (idx, texts_of b) /\ In b buckets.
Proof.
  intros Hne. unfold _pick_bucket.
  destruct (scan 0 buckets usage) as [[j t]|] eqn:Hs.
  - destruct (scan_In _ _ _ _ _ Hs) as [b [Hin Ht]]. exists j, b. now subst.
  - destruct buckets as [|b0 rest]; [contradiction|]. cbn [last_bucket].
    eexists _, (List.last rest b0). split; [reflexivity | apply last_In].
Qed.

Lemma choice_returns {A : Type} (seq : list A) g :
  seq <> [] -> exists x g', choice seq g = Ok (x, g').
Proof.
  destruct seq as [|a seq']; [contradiction|]. intros _.
  unfold choice, next_draw. eauto.
Qed.

(** With at least two distinct candidates, leaving out one phrase leaves a
    candidate. *)
Lemma alt_nonempty texts last_phrase :
  NoDup texts -> (1 <? length texts)%nat = true ->
  List.filter (fun t => negb (String.eqb t last_phrase)) texts <> [].
Proof.
  intros Hnd Hlen.
  destruct texts as [|a [|b rest]]; try discriminate.
  cbn [List.filter].
  destruct (String.eqb_spec a last_phrase) as [Ea|Na]; cbn [negb]; [|discriminate].
  destruct (String.eqb_spec b last_phrase) as [Eb|Nb]; cbn [negb]; [|discriminate].
  exfalso. subst. inversion Hnd as [|? ? Hnotin _]; subst.
  apply Hnotin. now left.
Qed.

(** On a drawable table [get] returns a phrase for every present value. *)
Lemma get_returns self g kind u buckets :
  drawable buckets ->
  exists self' g' p, get self g kind (Some u) buckets = (self', g', Ok p).
Proof.
  intros [Hne Hall].
  destruct (pick_bucket_returns buckets u Hne) as [idx [b [Hp Hin]]].
  rewrite List.Forall_forall in Hall. destruct (Hall b Hin) as [Hts Hnd].
  unfold get. rewrite Hp.
  destruct (default (None, EmptyString) (self !! kind)) as [last_idx last_phrase].
  destruct (idx_eq last_idx idx && truthy last_phrase); [eauto|].
  destruct (choice_returns (texts_of b) g Hts) as [phrase [ga Hc]]. rewrite Hc.
  destruct (String.eqb phrase last_phrase && (1 <? length (texts_of b))%nat) eqn:Hr;
    [|eauto].
  apply andb_prop in Hr as [_ Hlen].
  destruct (choice_returns _ ga (alt_nonempty _ last_phrase Hnd Hlen))
    as [p' [gb Hc2]].
  rewrite Hc2. eauto.
Qed.

Ltac drawable_table :=
  split; [discriminate|]; apply (bool_decide_unpack _); vm_compute; exact I.

Lemma MOOD_BUCKETS_drawable : drawable MOOD_BUCKETS.
Proof. drawable_table. Qed.

Lemma CPU_BUCKETS_drawable : drawable CPU_BUCKETS.
Proof. drawable_table. Qed.

Lemma GPU_BUCKETS_drawable : drawable GPU_BUCKETS.
Proof. drawable_table. Qed.

Lemma RAM_BUCKETS_drawable : drawable RAM_BUCKETS.
Proof. drawable_table. Qed.

Lemma DISK_IO_BUCKETS_drawable : drawable DISK_IO_BUCKETS.
Proof. drawable_table. Qed.

(* ------------------------------------------------------------------ *)
(** ** The transition controller *)
(* ------------------------------------------------------------------ *)

Lemma consistent_ext o o' :
  collapsed o' = collapsed o ->
  _anim_inflight o' = _anim_inflight o ->
  _anim_target_collapsed o' = _anim_target_collapsed o ->
  _anim_group o' = _anim_group o ->
  windowOpacity o' = windowOpacity o ->
  consistent o -> consistent o'.
Proof.
  intros Ec Ei Et Eg Eo [h1 h2 h3 h4 h5].
  constructor; rewrite ?Ec, ?Ei, ?Et, ?Eg, ?Eo; assumption.
Qed.

Lemma consistent_view o o' :
  anim_view o' = anim_view o -> consistent o -> consistent o'.
Proof.
  unfold anim_view. intros E. injection E as Ec Ei Et Eg Eo _.
  now apply consistent_ext.
Qed.

Lemma phrases_get_view kind usage buckets o :
  anim_view (fst (phrases_get kind usage buckets o)) = anim_view o.
Proof.
  unfold phrases_get. destruct (get _ _ _ _ _) as [[ph g] r]. reflexivity.
Qed.

Lemma and_then_view {A B : Type} o0 (r : Overlay * outcome A)
    (k : Overlay -> A -> Overlay * outcome B) :
  anim_view (fst r) = anim_view o0 ->
  (forall o a, anim_view o = anim_view o0 -> anim_view (fst (k o a)) = anim_view o0) ->
  anim_view (fst (and_then r k)) = anim_view o0.
Proof.
  intros Hr Hk. destruct r as [o [a|e]]; cbn in *; [now apply Hk | exact Hr].
Qed.

(** A refresh tick, whether it returns or raises, leaves the mode, the
    animation bookkeeping, the opacity and the geometry alone. *)
Lemma refresh_view os o : anim_view (fst (refresh os o)) = anim_view o.
Proof.
  unfold refresh.
  destruct (lhm_read os) as [lhm|e]; [|reflexivity].
  destruct (PsutilReader_read (psr o) (psr_calls os)) as [st [psu|e]]; [|reflexivity].
  destruct (DiskRateReader_read _ _ _) as [dr [disk_r disk_w]].
  apply and_then_view; [now rewrite phrases_get_view|]. intros o1 cpu_txt H1.
  apply and_then_view; [now rewrite phrases_get_view|]. intros o2 gpu_txt H2.
  apply and_then_view; [now rewrite phrases_get_view|]. intros o3 ram_txt H3.
  apply and_then_view; [now rewrite phrases_get_view|]. intros o4 disk_txt H4.
  destruct (negb (_is_effectively_collapsed o4)); [exact H4|].
  apply and_then_view; [unfold _compute_mood_phrase; now rewrite phrases_get_view|].
  intros o5 mood H5. exact H5.
Qed.

Lemma positive_or_pos x fallback : (0 < fallback)%Q -> (0 < positive_or x fallback)%Q.
Proof. intros H. unfold positive_or. destruct (Qlt_le_dec 0 x); assumption. Qed.

Lemma positive_or_id x fallback : (0 < x)%Q -> positive_or x fallback = x.
Proof. intros H. unfold positive_or. destruct (Qlt_le_dec 0 x); [reflexivity | lra]. Qed.

Lemma EXPANDED_OPACITY_pos : (0 < EXPANDED_OPACITY)%Q.
Proof. reflexivity. Qed.

Lemma COLLAPSED_OPACITY_pos : (0 < COLLAPSED_OPACITY)%Q.
Proof. reflexivity. Qed.

(** What [_start_anim] leaves in the animation group: the values it was
    given, a running group, and a call list that begins with [stop] when an
    animation was in flight. *)
Lemma start_anim_group sg eg sop eop t o :
  let o' := _start_anim sg eg sop eop t o in
  geo_start (_anim_group o') = Some sg /\
  geo_end (_anim_group o') = Some eg /\
  opa_start (_anim_group o') = Some sop /\
  opa_end (_anim_group o') = Some eop /\
  running (_anim_group o') = true /\
  _anim_inflight o' = true /\
  _anim_target_collapsed o' = Some t /\
  calls (_anim_group o') =
    calls (_anim_group o) ++
    (if _anim_inflight o then [GroupStop] else []) ++
    [GeoSetStartValue sg; GeoSetEndValue eg;
     OpaSetStartValue sop; OpaSetEndValue eop; GroupStart].
Proof.
  unfold _start_anim. destruct (_anim_inflight o); cbn;
    repeat split; rewrite <- ?app_assoc; reflexivity.
Qed.

Lemma start_anim_rest sg eg sop eop t o :
  collapsed (_start_anim sg eg sop eop t o) = collapsed o /\
  windowOpacity (_start_anim sg eg sop eop t o) = windowOpacity o /\
  geometry (_start_anim sg eg sop eop t o) = geometry o.
Proof. unfold _start_anim. destruct (_anim_inflight o); cbn; auto. Qed.

Lemma start_anim_consistent sg eg sop eop t o :
  (0 < sop)%Q -> (0 < eop)%Q -> (0 < windowOpacity o)%Q -> collapsed o = t ->
  consistent (_start_anim sg eg sop eop t o).
Proof.
  intros Hs He Ho Hc.
  destruct (start_anim_group sg eg sop eop t o)
    as (_ & _ & Hos & Hoe & Hrun & Hin & Htg & _).
  destruct (start_anim_rest sg eg sop eop t o) as (Hcol & Hop & _).
  constructor.
  - now rewrite Hin, Hrun.
  - intros _. now rewrite Htg, Hcol, Hc.
  - rewrite Hin. discriminate.
  - now rewrite Hop.
  - intros _. exists sop, eop. auto.
Qed.

(** [expand_animated] on a collapsed widget: the mode is written first,
    then the animation is started from the current geometry. *)
Lemma expand_animated_unfold s o :
  collapsed o = true ->
  exists eg o4,
    expand_animated s o =
      _persist_pos
        (_start_anim (geometry o) eg
           (positive_or (windowOpacity o) COLLAPSED_OPACITY) EXPANDED_OPACITY
           false o4) /\
    collapsed o4 = false /\ windowOpacity o4 = windowOpacity o /\
    _anim_inflight o4 = _anim_inflight o /\ _anim_group o4 = _anim_group o.
Proof.
  intros Hc. unfold expand_animated. rewrite Hc. cbn [negb].
  destruct (has_geo (expanded_geo o)); eexists _, _;
    (split; [reflexivity | cbn; auto]).
Qed.

(** [collapse_to_edge_animated] on an expanded widget always gets its mood
    phrase, writes the mode, and starts the animation from the current
    geometry. *)
Lemma collapse_to_edge_animated_unfold s fm o :
  collapsed o = false ->
  exists eg o4,
    collapse_to_edge_animated s fm o =
      (_persist_pos
         (_start_anim (geometry o) eg
            (positive_or (windowOpacity o) EXPANDED_OPACITY) COLLAPSED_OPACITY
            true o4), Ok tt) /\
    collapsed o4 = true /\ windowOpacity o4 = windowOpacity o /\
    _anim_inflight o4 = _anim_inflight o /\ _anim_group o4 = _anim_group o.
Proof.
  intros Hc. unfold collapse_to_edge_animated. rewrite Hc.
  unfold _compute_mood_phrase, phrases_get.
  match goal with |- context [get ?ph ?g ?k (Some ?u) MOOD_BUCKETS] =>
    destruct (get_returns ph g k u MOOD_BUCKETS MOOD_BUCKETS_drawable)
      as [ph' [g' [p Hg]]]; rewrite Hg
  end.
  cbn [and_then]. eexists _, _. split; [reflexivity | cbn; auto].
Qed.

Lemma persist_pos_consistent o : consistent o -> consistent (_persist_pos o).
Proof. apply consistent_view. reflexivity. Qed.

Lemma expand_animated_consistent s o :
  consistent o -> consistent (expand_animated s o).
Proof.
  intros H. destruct (collapsed o) eqn:Hc.
  - destruct (expand_animated_unfold s o Hc) as (eg & o4 & E & Hc4 & Ho4 & _).
    rewrite E. apply persist_pos_consistent.
    apply start_anim_consistent; auto using positive_or_pos, COLLAPSED_OPACITY_pos,
      EXPANDED_OPACITY_pos.
    rewrite Ho4. apply H.
  - unfold expand_animated. now rewrite Hc.
Qed.

Lemma collapse_to_edge_animated_consistent s fm o :
  consistent o -> consistent (fst (collapse_to_edge_animated s fm o)).
Proof.
  intros H. destruct (collapsed o) eqn:Hc.
  - unfold collapse_to_edge_animated. now rewrite Hc.
  - destruct (collapse_to_edge_animated_unfold s fm o Hc)
      as (eg & o4 & E & Hc4 & Ho4 & _).
    rewrite E. cbn [fst]. apply persist_pos_consistent.
    apply start_anim_consistent; auto using positive_or_pos, COLLAPSED_OPACITY_pos,
      EXPANDED_OPACITY_pos.
    rewrite Ho4. apply H.
Qed.

Lemma schedule_collapse_consistent near o :
  consistent o -> consistent (_schedule_collapse_if_far near o).
Proof.
  intros H. unfold _schedule_collapse_if_far.
  destruct (negb (auto_hide o) || _anim_inflight o); [exact H|].
  destruct near; [|destruct (negb (_collapse_timer o))];
    try exact H; (eapply consistent_view; [|exact H]; reflexivity).
Qed.

(** The interpolated opacity stays positive between positive end points. *)
Lemma interpolated_opacity_pos q0 q1 e :
  (0 < q0)%Q -> (0 < q1)%Q -> (0 <= e <= 1)%Q -> (0 < q0 + (q1 - q0) * e)%Q.
Proof.
  intros H0 H1 [He0 He1].
  assert (Ha : (0 <= q0 * (1 - e))%Q) by (apply Qmult_le_0_compat; lra).
  assert (Hb : (0 <= q1 * e)%Q) by (apply Qmult_le_0_compat; lra).
  assert (E : (q0 + (q1 - q0) * e == q0 * (1 - e) + q1 * e)%Q) by ring.
  rewrite E.
  destruct (Qlt_le_dec e 1) as [Hlt | Hge].
  - assert (0 < q0 * (1 - e))%Q by (apply Qmult_lt_0_compat; lra). lra.
  - assert (Ee : (e == 1)%Q) by lra.
    assert (E1 : (q1 * e == q1)%Q) by (rewrite Ee; ring). lra.
Qed.

Lemma anim_frame_consistent g e o :
  consistent o -> (0 <= e <= 1)%Q -> running (_anim_group o) = true ->
  consistent (anim_frame g e o).
Proof.
  intros H He Hrun. destruct H as [h1 h2 h3 h4 h5].
  destruct (h5 Hrun) as (q0 & q1 & E0 & E1 & P0 & P1).
  unfold anim_frame. rewrite E0, E1.
  constructor; cbn; auto.
  now apply interpolated_opacity_pos.
Qed.

Lemma anim_finished_consistent o :
  consistent o -> running (_anim_group o) = true -> consistent (anim_finished o).
Proof.
  intros [h1 h2 h3 h4 h5] Hrun.
  rewrite Hrun in h1. specialize (h2 h1).
  unfold anim_finished, _on_anim_finished. cbn. rewrite h2.
  destruct (collapsed o); constructor; cbn; try reflexivity; try discriminate; auto.
Qed.

(** Every handler keeps the animation attributes consistent. *)
Lemma handle_consistent ev o :
  consistent o -> enabled ev o -> consistent (handle ev o).
Proof.
  intros H Hen. destruct ev; cbn [handle].
  - eapply consistent_view; [apply refresh_view | exact H].
  - unfold _poll_mouse.
    destruct (negb (auto_hide o) || _anim_inflight o); [exact H|].
    destruct (collapsed o).
    + destruct hover; [now apply expand_animated_consistent | exact H].
    + destruct (negb near); [destruct (negb (_collapse_timer o))|];
        try exact H; (eapply consistent_view; [|exact H]; reflexivity).
  - assert (H' : consistent (set_collapse_timer false o))
      by (eapply consistent_view; [|exact H]; reflexivity).
    revert H'. generalize (set_collapse_timer false o). intros o' H'.
    unfold _collapse_if_still_far.
    destruct (negb (auto_hide o') || _anim_inflight o'); [exact H'|].
    destruct near; [now apply schedule_collapse_consistent|].
    now apply collapse_to_edge_animated_consistent.
  - now apply schedule_collapse_consistent.
  - unfold mousePressEvent.
    destruct (click_through o || _anim_inflight o); [exact H|].
    destruct left_button; [|exact H].
    assert (H' : consistent (set_dragging true o))
      by (eapply consistent_view; [|exact H]; reflexivity).
    cbv zeta. destruct (collapsed (set_dragging true o));
      [now apply expand_animated_consistent | exact H'].
  - unfold mouseMoveEvent.
    destruct (click_through o || _anim_inflight o); [exact H|].
    destruct (_dragging o); [|exact H].
    eapply consistent_ext; [..|exact H]; reflexivity.
  - unfold mouseReleaseEvent. destruct (_dragging o); [|exact H].
    apply schedule_collapse_consistent.
    eapply consistent_view; [|exact H]; reflexivity.
  - unfold toggle_autohide. cbv zeta.
    assert (H' : consistent (set_auto_hide (negb (auto_hide o)) o))
      by (eapply consistent_view; [|exact H]; reflexivity).
    revert H'. generalize (set_auto_hide (negb (auto_hide o)) o). intros o1 H1.
    assert (H2 : consistent
              (if negb (auto_hide o1) && _is_effectively_collapsed o1
               then expand_animated s o1 else o1)).
    { destruct (negb (auto_hide o1) && _is_effectively_collapsed o1);
        [now apply expand_animated_consistent | exact H1]. }
    revert H2. generalize (if negb (auto_hide o1) && _is_effectively_collapsed o1
                           then expand_animated s o1 else o1). intros o2 H2.
    destruct (auto_hide o2); [now apply schedule_collapse_consistent | exact H2].
  - eapply consistent_view; [|exact H]; reflexivity.
  - destruct Hen as [Hrun He]. now apply anim_frame_consistent.
  - now apply anim_finished_consistent.
Qed.

Lemma init_consistent ah ct geo0 psr0 seed :
  consistent (Overlay_init ah ct geo0 psr0 seed).
Proof.
  constructor; cbn; try reflexivity; try discriminate.
Qed.

(** In every reachable state the in-flight flag mirrors the running group,
    an animation in flight has the committed mode as its target, an idle
    widget has no target, and the opacity is positive. *)
Lemma reachable_consistent o : reachable o -> consistent o.
Proof.
  induction 1 as [ah ct geo0 psr0 seed | o ev _ IH Hen].
  - apply init_consistent.
  - now apply handle_consistent.
Qed.

Lemma persist_pos_anim o :
  _anim_inflight (_persist_pos o) = _anim_inflight o /\
  _anim_target_collapsed (_persist_pos o) = _anim_target_collapsed o /\
  collapsed (_persist_pos o) = collapsed o /\
  _anim_group (_persist_pos o) = _anim_group o.
Proof. repeat split. Qed.

Lemma overlay_mid_collapse_reachable : reachable overlay_mid_collapse.
Proof.
  unfold overlay_mid_collapse, overlay_collapsing, overlay_timer_armed,
    overlay_at_start.
  apply reach_step; [apply reach_step; [apply reach_step; [apply reach_init|]|]|].
  - exact I.
  - vm_compute. reflexivity.
  - split; [vm_compute; reflexivity | lra].
Qed.

(** C3, amended.  In every reachable state an animation in flight has the
    committed mode as its target: starting a collapse (or expand) animation
    writes the mode Collapsed (or Expanded) at once, together with the
    target and the in-flight flag, and the completion handler, writing the
    mode from the target again, leaves it as it is. *)
Theorem mode_is_committed_at_start o :
  reachable o ->
  (_anim_inflight o = true -> _anim_target_collapsed o = Some (collapsed o)) /\
  (forall s fm, collapsed o = false ->
     let o' := fst (collapse_to_edge_animated s fm o) in
     _anim_inflight o' = true /\ _anim_target_collapsed o' = Some true /\
     collapsed o' = true) /\
  (forall s, collapsed o = true ->
     let o' := expand_animated s o in
     _anim_inflight o' = true /\ _anim_target_collapsed o' = Some false /\
     collapsed o' = false) /\
  (_anim_inflight o = true -> collapsed (anim_finished o) = collapsed o).
Proof.
  intros Hr. pose proof (reachable_consistent o Hr) as Hc.
  split; [apply Hc|]. split; [|split].
  - intros s fm Hcol.
    destruct (collapse_to_edge_animated_unfold s fm o Hcol)
      as (eg & o4 & E & Hc4 & _).
    cbv zeta. rewrite E. cbn [fst].
    destruct (start_anim_group (geometry o) eg
                (positive_or (windowOpacity o) EXPANDED_OPACITY)
                COLLAPSED_OPACITY true o4) as (_ & _ & _ & _ & _ & Hin & Htg & _).
    destruct (start_anim_rest (geometry o) eg
                (positive_or (windowOpacity o) EXPANDED_OPACITY)
                COLLAPSED_OPACITY true o4) as (Hcol' & _).
    destruct (persist_pos_anim (_start_anim (geometry o) eg
                (positive_or (windowOpacity o) EXPANDED_OPACITY)
                COLLAPSED_OPACITY true o4)) as (-> & -> & -> & _).
    rewrite Hin, Htg, Hcol'. auto.
  - intros s Hcol.
    destruct (expand_animated_unfold s o Hcol) as (eg & o4 & E & Hc4 & _).
    cbv zeta. rewrite E.
    destruct (start_anim_group (geometry o) eg
                (positive_or (windowOpacity o) COLLAPSED_OPACITY)
                EXPANDED_OPACITY false o4) as (_ & _ & _ & _ & _ & Hin & Htg & _).
    destruct (start_anim_rest (geometry o) eg
                (positive_or (windowOpacity o) COLLAPSED_OPACITY)
                EXPANDED_OPACITY false o4) as (Hcol' & _).
    destruct (persist_pos_anim (_start_anim (geometry o) eg
                (positive_or (windowOpacity o) COLLAPSED_OPACITY)
                EXPANDED_OPACITY false o4)) as (-> & -> & -> & _).
    rewrite Hin, Htg, Hcol'. auto.
  - intros Hin. pose proof (inflight_target o Hc Hin) as Ht.
    unfold anim_finished, _on_anim_finished. cbn. rewrite Ht.
    destruct (collapsed o); reflexivity.
Qed.

Lemma mode_is_committed_at_start_witness :
  _anim_inflight overlay_mid_collapse = true /\
  _anim_target_collapsed overlay_mid_collapse = Some true /\
  collapsed overlay_mid_collapse = true /\
  collapsed (anim_finished overlay_mid_collapse) = true.
Proof.
  pose proof (mode_is_committed_at_start overlay_mid_collapse
                overlay_mid_collapse_reachable) as (H1 & _ & _ & H4).
  assert (Hin : _anim_inflight overlay_mid_collapse = true)
    by (vm_compute; reflexivity).
  split; [exact Hin|]. split; [exact (H1 Hin)|].
  split; [vm_compute; reflexivity | exact (H4 Hin)].
Defined.

(** C3 as stated fails: the widget starts expanded; once the idle timer has
    started the collapse animation, and still after a frame of it, the
    animation is in flight and the committed mode is already Collapsed. *)
Lemma mode_changes_before_completion :
  collapsed overlay_timer_armed = false /\
  _anim_inflight overlay_collapsing = true /\
  collapsed overlay_collapsing = true /\
  _anim_inflight overlay_mid_collapse = true /\
  collapsed overlay_mid_collapse = true.
Proof. repeat split; vm_compute; reflexivity. Qed.

Lemma frames_keep_target frames : forall o,
  _anim_target_collapsed
    (fold_left (fun o f => anim_frame (fst f) (snd f) o) frames o)
  = _anim_target_collapsed o.
Proof.
  induction frames as [|f frames IH]; intros o; [reflexivity|].
  cbn [fold_left]. rewrite IH. reflexivity.
Qed.

Lemma anim_finished_commits o t :
  _anim_target_collapsed o = Some t ->
  collapsed (anim_finished o) = t /\
  windowOpacity (anim_finished o) =
    (if t then COLLAPSED_OPACITY else EXPANDED_OPACITY) /\
  _anim_inflight (anim_finished o) = false /\
  _anim_target_collapsed (anim_finished o) = None.
Proof.
  intros Ht. unfold anim_finished, _on_anim_finished. cbn. rewrite Ht.
  destruct t; cbn; auto.
Qed.

(** C4.  When an animation towards Collapsed runs through any number of
    frames and ends without another animation being started, the committed
    mode is Collapsed and the opacity is exactly [COLLAPSED_OPACITY]; for an
    animation towards Expanded the mode is Expanded and the opacity exactly
    [EXPANDED_OPACITY].  In both cases nothing stays in flight. *)
Theorem completion_commits_mode_and_opacity o frames :
  (_anim_target_collapsed o = Some true ->
     let o' := run_to_completion frames o in
     collapsed o' = true /\ windowOpacity o' = COLLAPSED_OPACITY /\
     _anim_inflight o' = false /\ _anim_target_collapsed o' = None) /\
  (_anim_target_collapsed o = Some false ->
     let o' := run_to_completion frames o in
     collapsed o' = false /\ windowOpacity o' = EXPANDED_OPACITY /\
     _anim_inflight o' = false /\ _anim_target_collapsed o' = None).
Proof.
  split; intros Ht; cbv zeta; unfold run_to_completion.
  - apply (anim_finished_commits _ true). now rewrite frames_keep_target.
  - apply (anim_finished_commits _ false). now rewrite frames_keep_target.
Qed.

(** From the call that starts it to its natural end: a collapse leaves the
    widget collapsed at [COLLAPSED_OPACITY], an expansion leaves it expanded
    at [EXPANDED_OPACITY]. *)
Lemma collapse_runs_to_collapsed s fm frames o :
  collapsed o = false ->
  collapsed (run_to_completion frames (fst (collapse_to_edge_animated s fm o))) = true /\
  windowOpacity (run_to_completion frames (fst (collapse_to_edge_animated s fm o)))
    = COLLAPSED_OPACITY.
Proof.
  intros Hc.
  destruct (collapse_to_edge_animated_unfold s fm o Hc) as (eg & o4 & E & _).
  rewrite E. cbn [fst]. unfold run_to_completion.
  edestruct (anim_finished_commits) as (H1 & H2 & _); [|split; [exact H1 | exact H2]].
  rewrite frames_keep_target.
  destruct (persist_pos_anim
              (_start_anim (geometry o) eg
                 (positive_or (windowOpacity o) EXPANDED_OPACITY)
                 COLLAPSED_OPACITY true o4)) as (_ & -> & _).
  apply start_anim_group.
Qed.

Lemma expand_runs_to_expanded s frames o :
  collapsed o = true ->
  collapsed (run_to_completion frames (expand_animated s o)) = false /\
  windowOpacity (run_to_completion frames (expand_animated s o))
    = EXPANDED_OPACITY.
Proof.
  intros Hc.
  destruct (expand_animated_unfold s o Hc) as (eg & o4 & E & _).
  rewrite E. unfold run_to_completion.
  edestruct (anim_finished_commits) as (H1 & H2 & _); [|split; [exact H1 | exact H2]].
  rewrite frames_keep_target.
  destruct (persist_pos_anim
              (_start_anim (geometry o) eg
                 (positive_or (windowOpacity o) COLLAPSED_OPACITY)
                 EXPANDED_OPACITY false o4)) as (_ & -> & _).
  apply start_anim_group.
Qed.

Lemma completion_commits_mode_and_opacity_witness :
  collapsed (run_to_completion [(half_way_rect, 3 # 4)] overlay_mid_collapse) = true /\
  windowOpacity (run_to_completion [(half_way_rect, 3 # 4)] overlay_mid_collapse)
    = COLLAPSED_OPACITY.
Proof.
  assert (Ht : _anim_target_collapsed overlay_mid_collapse = Some true)
    by (vm_compute; reflexivity).
  pose proof (proj1 (completion_commits_mode_and_opacity overlay_mid_collapse
                       [(half_way_rect, 3 # 4)]) Ht) as (H1 & H2 & _).
  split; [exact H1 | exact H2].
Defined.

(** The calls an interrupting [_start_anim] adds to the group: [stop]
    first, then the new values, then [start]. *)
Lemma interrupt_calls sg eg sop eop t o :
  _anim_inflight o = true ->
  calls (_anim_group (_start_anim sg eg sop eop t o)) =
    calls (_anim_group o) ++
    [GroupStop; GeoSetStartValue sg; GeoSetEndValue eg;
     OpaSetStartValue sop; OpaSetEndValue eop; GroupStart].
Proof.
  intros Hin.
  destruct (start_anim_group sg eg sop eop t o) as (_ & _ & _ & _ & _ & _ & _ & Hc).
  rewrite Hc, Hin. reflexivity.
Qed.

(** C9.  In a reachable state with an animation in flight, a new animation
    (by [expand_animated] from a collapsing widget, by
    [collapse_to_edge_animated] from an expanding one) stops the running
    group before anything else and starts again from the window's geometry
    and opacity of that moment. *)
Theorem interrupting_animation_starts_from_current o :
  reachable o -> _anim_inflight o = true ->
  (forall s, collapsed o = true ->
     let a' := _anim_group (expand_animated s o) in
     running a' = true /\
     geo_start a' = Some (geometry o) /\
     opa_start a' = Some (windowOpacity o) /\
     exists eg,
       calls a' = calls (_anim_group o) ++
         [GroupStop; GeoSetStartValue (geometry o); GeoSetEndValue eg;
          OpaSetStartValue (windowOpacity o); OpaSetEndValue EXPANDED_OPACITY;
          GroupStart]) /\
  (forall s fm, collapsed o = false ->
     let a' := _anim_group (fst (collapse_to_edge_animated s fm o)) in
     running a' = true /\
     geo_start a' = Some (geometry o) /\
     opa_start a' = Some (windowOpacity o) /\
     exists eg,
       calls a' = calls (_anim_group o) ++
         [GroupStop; GeoSetStartValue (geometry o); GeoSetEndValue eg;
          OpaSetStartValue (windowOpacity o); OpaSetEndValue COLLAPSED_OPACITY;
          GroupStart]).
Proof.
  intros Hr Hin. pose proof (reachable_consistent o Hr) as Hc.
  pose proof (opacity_positive o Hc) as Hpos.
  split.
  - intros s Hcol.
    destruct (expand_animated_unfold s o Hcol) as (eg & o4 & E & _ & _ & Hi4 & Hg4).
    cbv zeta. rewrite E.
    destruct (persist_pos_anim
                (_start_anim (geometry o) eg
                   (positive_or (windowOpacity o) COLLAPSED_OPACITY)
                   EXPANDED_OPACITY false o4)) as (_ & _ & _ & ->).
    rewrite interrupt_calls by congruence.
    destruct (start_anim_group (geometry o) eg
                (positive_or (windowOpacity o) COLLAPSED_OPACITY)
                EXPANDED_OPACITY false o4) as (Hgs & _ & Hos & _ & Hrun & _).
    rewrite Hgs, Hos, Hrun, Hg4, (positive_or_id _ _ Hpos). eauto.
  - intros s fm Hcol.
    destruct (collapse_to_edge_animated_unfold s fm o Hcol)
      as (eg & o4 & E & _ & _ & Hi4 & Hg4).
    cbv zeta. rewrite E. cbn [fst].
    destruct (persist_pos_anim
                (_start_anim (geometry o) eg
                   (positive_or (windowOpacity o) EXPANDED_OPACITY)
                   COLLAPSED_OPACITY true o4)) as (_ & _ & _ & ->).
    rewrite interrupt_calls by congruence.
    destruct (start_anim_group (geometry o) eg
                (positive_or (windowOpacity o) EXPANDED_OPACITY)
                COLLAPSED_OPACITY true o4) as (Hgs & _ & Hos & _ & Hrun & _).
    rewrite Hgs, Hos, Hrun, Hg4, (positive_or_id _ _ Hpos). eauto.
Qed.

Lemma interrupting_animation_starts_from_current_witness :
  _anim_inflight overlay_mid_collapse = true /\
  collapsed overlay_mid_collapse = true /\
  geo_start (_anim_group (expand_animated full_hd overlay_mid_collapse))
    = Some (geometry overlay_mid_collapse) /\
  opa_start (_anim_group (expand_animated full_hd overlay_mid_collapse))
    = Some (windowOpacity overlay_mid_collapse).
Proof.
  assert (Hin : _anim_inflight overlay_mid_collapse = true)
    by (vm_compute; reflexivity).
  assert (Hcol : collapsed overlay_mid_collapse = true)
    by (vm_compute; reflexivity).
  pose proof (proj1 (interrupting_animation_starts_from_current
                       overlay_mid_collapse overlay_mid_collapse_reachable Hin)
                full_hd Hcol) as (_ & Hg & Ho & _).
  split; [exact Hin|]. split; [exact Hcol|]. split; [exact Hg | exact Ho].
Defined.

Lemma expand_animated_auto_hide s o :
  auto_hide (expand_animated s o) = auto_hide o.
Proof.
  unfold expand_animated. destruct (negb (collapsed o)); [reflexivity|].
  unfold _persist_pos, _start_anim.
  destruct (has_geo (expanded_geo o));
    match goal with |- context [if ?b then _ else _] => destruct b end;
    reflexivity.
Qed.

(** The handler through which an interruption happens: switching auto-hide
    off while the collapse animation is in flight calls [expand_animated]
    on the spot. *)
Lemma toggle_autohide_interrupts s near o :
  auto_hide o = true -> _anim_inflight o = true ->
  _anim_target_collapsed o = Some true ->
  toggle_autohide s near o = expand_animated s (set_auto_hide false o).
Proof.
  intros Ha Hin Ht. unfold toggle_autohide. cbv zeta. rewrite Ha. cbn [negb].
  replace (negb (auto_hide (set_auto_hide false o)) &&
           _is_effectively_collapsed (set_auto_hide false o)) with true.
  - now rewrite expand_animated_auto_hide.
  - unfold _is_effectively_collapsed. cbn. now rewrite Hin, Ht.
Qed.

(* ================================================================== *)
(** * Further properties of the code *)
(* ================================================================== *)

Import Lhm Style.

(* ------------------------------------------------------------------ *)
(** ** Rate sampling, continued *)
(* ------------------------------------------------------------------ *)

Lemma rate_nonneg (delta : Z) (dt : Q) :
  0 <= delta -> (0 < dt)%Q -> (0 <= inject_Z delta / dt / MiB)%Q.
Proof.
  intros Hd Hdt.
  assert (H0 : (0 <= inject_Z delta)%Q).
  { change 0%Q with (inject_Z 0). now rewrite <- Zle_Qle. }
  assert (H1 : (0 <= inject_Z delta / dt)%Q).
  { apply Qle_shift_div_l; [exact Hdt | lra]. }
  apply Qle_shift_div_l; [reflexivity | lra].
Qed.

Lemma rate_zero (dt : Q) : (inject_Z 0 / dt / MiB == 0)%Q.
Proof. change (inject_Z 0) with 0%Q. unfold Qdiv. ring. Qed.

(** X1.  When no counter has gone down since the previous reading, every
    rate [PsutilReader.read] returns is non-negative. *)
Theorem PsutilReader_read_nonneg_when_counters_grow st os st' out r :
  PsutilReader_read st os = (st', Ok out) ->
  (forall d, disk_io_counters os = Ok (Some d) ->
     last_disk_read st <= read_bytes d /\ last_disk_write st <= write_bytes d) ->
  (forall n, net_io_counters os = Ok (Some n) ->
     last_net_sent st <= bytes_sent n /\ last_net_recv st <= bytes_recv n) ->
  disk_read_mb_s out = Some r \/ disk_write_mb_s out = Some r \/
  net_up_mb_s out = Some r \/ net_down_mb_s out = Some r ->
  (0 <= r)%Q.
Proof.
  unfold PsutilReader_read. intros H Hd Hn Hr.
  pose proof (dt_positive (time_time os) (last_ts st)) as Hdt.
  destruct (disk_io_counters os) as [d|]; [|discriminate].
  destruct (net_io_counters os) as [n|]; [|discriminate].
  destruct (cpu_percent os); [|discriminate].
  destruct (cpu_freq os); [|discriminate].
  destruct (virtual_memory os); [|discriminate].
  injection H as _ <-. cbn in Hr.
  destruct d as [d|], n as [n|]; cbn in Hr;
    try (destruct (Hd d eq_refl)); try (destruct (Hn n eq_refl));
    destruct Hr as [Hr|[Hr|[Hr|Hr]]]; try discriminate;
    injection Hr as <-; apply rate_nonneg; solve [lia | exact Hdt].
Qed.


Lemma PsutilReader_read_nonneg_when_counters_grow_witness :
  (0 <= inject_Z (3145728 - 1048576) / fmax (1 # 1000) (101 - 100) / MiB)%Q.
Proof.
  eapply (PsutilReader_read_nonneg_when_counters_grow
            psr_before_reset calls_counters_grown).
  - reflexivity.
  - intros d H. injection H as <-. cbn. lia.
  - intros n H. injection H as <-. cbn. lia.
  - right. right. left. reflexivity.
Defined.

(** X2.  [PsutilReader.read] moves its baseline to the counters it has just
    read: a second reading that finds the same counters reports a rate of
    zero on all four streams, whatever time has passed. *)
Theorem PsutilReader_read_same_counters_zero st os1 os2 st1 out1 st2 out2 d n :
  PsutilReader_read st os1 = (st1, Ok out1) ->
  disk_io_counters os1 = Ok (Some d) -> net_io_counters os1 = Ok (Some n) ->
  disk_io_counters os2 = Ok (Some d) -> net_io_counters os2 = Ok (Some n) ->
  PsutilReader_read st1 os2 = (st2, Ok out2) ->
  exists rd wr up down,
    disk_read_mb_s out2 = Some rd /\ disk_write_mb_s out2 = Some wr /\
    net_up_mb_s out2 = Some up /\ net_down_mb_s out2 = Some down /\
    (rd == 0)%Q /\ (wr == 0)%Q /\ (up == 0)%Q /\ (down == 0)%Q.
Proof.
  unfold PsutilReader_read. intros H1 Hd1 Hn1 Hd2 Hn2 H2.
  rewrite Hd1, Hn1 in H1. rewrite Hd2, Hn2 in H2.
  destruct (cpu_percent os1); [|discriminate].
  destruct (cpu_freq os1); [|discriminate].
  destruct (virtual_memory os1); [|discriminate].
  injection H1 as <- _.
  destruct (cpu_percent os2); [|discriminate].
  destruct (cpu_freq os2); [|discriminate].
  destruct (virtual_memory os2); [|discriminate].
  injection H2 as _ <-. cbn.
  do 4 eexists. repeat (split; [reflexivity|]).
  rewrite !Z.sub_diag. repeat split; apply rate_zero.
Qed.

Lemma PsutilReader_read_same_counters_zero_witness :
  exists up,
    net_up_mb_s
      match snd (PsutilReader_read
                   (fst (PsutilReader_read psr_before_reset calls_counters_grown))
                   calls_counters_same) with
      | Ok out => out
      | Raised _ =>
          {| cpu_usage := None; cpu_freq_psutil := None; ram_usage := None;
             ram_used_gb := None; ram_avail_gb := None; disk_read_mb_s := None;
             disk_write_mb_s := None; net_up_mb_s := None; net_down_mb_s := None |}
      end = Some up /\ (up == 0)%Q.
Proof.
  destruct (PsutilReader_read_same_counters_zero
              psr_before_reset calls_counters_grown calls_counters_same
              _ _ _ _ _ _ eq_refl eq_refl eq_refl eq_refl eq_refl eq_refl)
    as (rd & wr & up & down & _ & _ & Hup & _ & _ & _ & Eup & _).
  exists up. split; [exact Hup | exact Eup].
Defined.

Lemma rate_per_millisecond (delta : Z) (dt : Q) :
  0 <= delta -> (1 # 1000 <= dt)%Q ->
  (inject_Z delta / dt / MiB <= inject_Z delta * 1000 / MiB)%Q.
Proof.
  intros Hd Hdt.
  assert (H0 : (0 <= inject_Z delta)%Q).
  { change 0%Q with (inject_Z 0). now rewrite <- Zle_Qle. }
  assert (Hpos : (0 < dt)%Q) by lra.
  assert (H1 : (inject_Z delta / dt <= inject_Z delta * 1000)%Q).
  { apply Qle_shift_div_r; [exact Hpos|].
    assert (0 <= inject_Z delta * (1000 * dt - 1))%Q
      by (apply Qmult_le_0_compat; lra).
    lra. }
  apply Qle_shift_div_r; [reflexivity|].
  assert (E : (inject_Z delta * 1000 / MiB * MiB == inject_Z delta * 1000)%Q)
    by (field; intro H; vm_compute in H; discriminate).
  rewrite E. exact H1.
Qed.

(** X4.  Whatever the two timestamps are, also when the clock has not
    moved or has gone backwards, the divisor stays at one millisecond or
    more: each rate lies between 0 and the (non-negative part of the) byte
    delta per millisecond, scaled to MB. *)
Theorem DiskRateReader_read_bounded self last last_t io now r w :
  _last self = Some last -> _last_t self = Some last_t ->
  snd (DiskRateReader_read self (Ok (Some io)) now) = (Some r, Some w) ->
  (0 <= r <= inject_Z (Z.max 0 (read_bytes io - read_bytes last)) * 1000 / MiB)%Q /\
  (0 <= w <= inject_Z (Z.max 0 (write_bytes io - write_bytes last)) * 1000 / MiB)%Q.
Proof.
  intros Hl Ht. unfold DiskRateReader_read. rewrite Hl, Ht. cbn.
  intros H. injection H as <- <-.
  pose proof (fmax_lb_l (1 # 1000) (now - last_t)) as Hdt.
  assert (Hb : forall delta : Z,
    (0 <= floor_at_zero (inject_Z delta / fmax (1 # 1000) (now - last_t) / MiB)
       <= inject_Z (Z.max 0 delta) * 1000 / MiB)%Q).
  { intros delta. split; [apply floor_at_zero_nonneg|].
    unfold floor_at_zero. destruct (Qlt_le_dec _ 0) as [Hneg|Hnn].
    - apply Qle_shift_div_l; [reflexivity|].
      assert (0 <= inject_Z (Z.max 0 delta))%Q
        by (change 0%Q with (inject_Z 0); rewrite <- Zle_Qle; lia).
      lra.
    - destruct (Z.le_gt_cases 0 delta) as [Hd|Hd].
      + rewrite Z.max_r by lia. now apply rate_per_millisecond.
      + exfalso.
        assert (Hlt : (inject_Z delta < 0)%Q)
          by (change 0%Q with (inject_Z 0); rewrite <- Zlt_Qlt; lia).
        assert (Hp : (0 < fmax (1 # 1000) (now - last_t))%Q) by lra.
        assert (H1 : (inject_Z delta / fmax (1 # 1000) (now - last_t) < 0)%Q).
        { apply Qlt_shift_div_r; [exact Hp | lra]. }
        assert (H2 : (inject_Z delta / fmax (1 # 1000) (now - last_t) / MiB < 0)%Q).
        { apply Qlt_shift_div_r; [reflexivity | lra]. }
        lra. }
  split; apply Hb.
Qed.

Lemma DiskRateReader_read_bounded_witness :
  exists r w,
    snd (DiskRateReader_read disk_reader_at_10 (Ok (Some disk_io_later)) 9)
      = (Some r, Some w) /\
    (0 <= r <= inject_Z (Z.max 0 (5242880 - 1048576)) * 1000 / MiB)%Q.
Proof.
  do 2 eexists. split; [reflexivity|].
  exact (proj1 (DiskRateReader_read_bounded disk_reader_at_10
                  {| read_bytes := 1048576; write_bytes := 0 |} 10
                  disk_io_later 9 _ _ eq_refl eq_refl eq_refl)).
Defined.

(* ------------------------------------------------------------------ *)
(** ** Bucket lookup and phrase selection, continued *)
(* ------------------------------------------------------------------ *)

Lemma scan_first_match buckets usage : forall i j texts,
  scan i buckets usage = Some (j, texts) ->
  i <= j /\
  exists lo hi,
    buckets !! Z.to_nat (j - i) = Some (lo, hi, texts) /\
    in_range lo hi usage = true /\
    forall k b, (k < Z.to_nat (j - i))%nat -> buckets !! k = Some b ->
                in_range (lo_of b) (hi_of b) usage = false.
Proof.
  induction buckets as [|[[lo hi] t] rest IH]; intros i j texts H; [discriminate|].
  cbn in H. destruct (in_range lo hi usage) eqn:Hin.
  - injection H as <- <-. split; [lia|]. rewrite Z.sub_diag. cbn.
    exists lo, hi. repeat split; auto. intros k b Hk. lia.
  - destruct (IH _ _ _ H) as (Hle & lo' & hi' & Hnth & Hr & Hbefore).
    split; [lia|]. exists lo', hi'.
    replace (Z.to_nat (j - i)) with (S (Z.to_nat (j - (i + 1)))) by lia.
    repeat split; auto.
    intros [|k] b Hk Hb; cbn in Hb.
    + injection Hb as <-. exact Hin.
    + apply (Hbefore k b); [lia | exact Hb].
Qed.

Lemma scan_none_all buckets usage : forall i,
  scan i buckets usage = None ->
  forall k b, buckets !! k = Some b -> in_range (lo_of b) (hi_of b) usage = false.
Proof.
  induction buckets as [|[[lo hi] t] rest IH]; intros i H k b Hb; [discriminate|].
  cbn in H. destruct (in_range lo hi usage) eqn:Hin; [discriminate|].
  destruct k as [|k]; cbn in Hb.
  - injection Hb as <-. exact Hin.
  - eapply IH; eauto.
Qed.

Lemma scan_index_bound buckets usage : forall i j texts,
  scan i buckets usage = Some (j, texts) -> j < i + Z.of_nat (length buckets).
Proof.
  induction buckets as [|[[lo hi] t] rest IH]; intros i j texts H; [discriminate|].
  cbn in H. destruct (in_range lo hi usage).
  - injection H as <- _. cbn [length]. lia.
  - apply IH in H. cbn [length]. lia.
Qed.

Lemma lookup_last_bucket (b0 : Bucket) rest :
  (b0 :: rest) !! length rest = Some (List.last rest b0).
Proof.
  revert b0. induction rest as [|b rest IH]; intros b0; [reflexivity|].
  rewrite last_cons_default. cbn [length]. apply (IH b).
Qed.

(** X5.  Whenever [_pick_bucket] returns, the index is a valid position of
    the table and the phrase list is that bucket's; the value lies in the
    bucket's half-open range or the index is the last one; and no bucket
    before it contains the value (the first match wins). *)
Theorem pick_bucket_first_match buckets usage idx texts :
  _pick_bucket buckets usage = Ok (idx, texts) ->
  0 <= idx < Z.of_nat (length buckets) /\
  (exists lo hi,
     buckets !! Z.to_nat idx = Some (lo, hi, texts) /\
     (in_range lo hi usage = true \/ idx = Z.of_nat (length buckets) - 1)) /\
  (forall k b, (k < Z.to_nat idx)%nat -> buckets !! k = Some b ->
               in_range (lo_of b) (hi_of b) usage = false).
Proof.
  unfold _pick_bucket. intros H.
  destruct (scan 0 buckets usage) as [[j t]|] eqn:Hs.
  - injection H as <- <-.
    destruct (scan_first_match _ _ _ _ _ Hs) as (Hle & lo & hi & Hnth & Hr & Hb).
    pose proof (scan_index_bound _ _ _ _ _ Hs).
    rewrite Z.sub_0_r in Hnth, Hb.
    split; [lia|]. split; [exists lo, hi; auto | exact Hb].
  - destruct buckets as [|b0 rest]; [discriminate|].
    cbn [last_bucket] in H. injection H as <- <-.
    cbn [length].
    replace (Z.to_nat (Z.of_nat (S (length rest)) - 1)) with (length rest) by lia.
    split; [lia|]. split.
    + pose proof (lookup_last_bucket b0 rest) as Hl.
      destruct (List.last rest b0) as [[lo hi] t].
      exists lo, hi. split; [exact Hl | now right].
    + intros k b _ Hb. eapply scan_none_all; eauto.
Qed.

Lemma pick_bucket_first_match_witness :
  0 <= 2 < Z.of_nat (length CPU_BUCKETS) /\
  exists lo hi texts,
    CPU_BUCKETS !! Z.to_nat 2 = Some (lo, hi, texts) /\
    (in_range lo hi 45 = true \/ 2 = Z.of_nat (length CPU_BUCKETS) - 1).
Proof.
  destruct (pick_bucket_first_match CPU_BUCKETS 45 2 _ eq_refl)
    as (Hr & (lo & hi & Hn & Hc) & _).
  split; [exact Hr|]. exists lo, hi. eexists. split; [exact Hn | exact Hc].
Defined.

(** X6.  When the value has moved to another bucket and that bucket offers
    more than one candidate, the phrase [get] returns differs from the one
    shown before. *)
Theorem get_no_repeat_on_transition
    self g kind u buckets idx texts last_idx last_phrase self' g' p :
  _pick_bucket buckets u = Ok (idx, texts) ->
  self !! kind = Some (last_idx, last_phrase) ->
  last_idx <> Some idx ->
  (1 < length texts)%nat ->
  get self g kind (Some u) buckets = (self', g', Ok p) ->
  p <> last_phrase.
Proof.
  intros Hp Hs Hne Hlen H. unfold get in H. rewrite Hp, Hs in H.
  cbn [default from_option id] in H.
  assert (Hi : idx_eq last_idx idx = false).
  { destruct last_idx as [i|]; [|reflexivity]. cbn.
    apply Z.eqb_neq. intros ->. now apply Hne. }
  rewrite Hi in H. cbn [andb] in H.
  destruct (choice texts g) as [[phrase ga]|] eqn:Hc; [|discriminate].
  apply Nat.ltb_lt in Hlen. rewrite Hlen, andb_true_r in H.
  destruct (String.eqb_spec phrase last_phrase) as [E|N].
  - destruct (choice _ ga) as [[p' gb]|] eqn:Hc2; [|discriminate].
    injection H as _ _ <-. apply choice_In in Hc2.
    apply filter_In in Hc2 as [_ Hf].
    intros ->. rewrite String.eqb_refl in Hf. discriminate.
  - injection H as _ _ <-. exact N.
Qed.

Lemma get_no_repeat_on_transition_witness :
  match snd (get phrases_cpu_idle rng_0_0_1 "cpu" (Some 45%Q) CPU_BUCKETS) with
  | Ok p => p <> "摸鱼模式 😴"%string
  | Raised _ => False
  end.
Proof.
  destruct (get phrases_cpu_idle rng_0_0_1 "cpu" (Some 45%Q) CPU_BUCKETS)
    as [[self' g'] [p|e]] eqn:E; cbn [snd].
  - apply (get_no_repeat_on_transition phrases_cpu_idle rng_0_0_1 "cpu" 45
             CPU_BUCKETS 2 _ (Some 0) _ self' g' p eq_refl eq_refl).
    + discriminate.
    + cbn. lia.
    + exact E.
  - vm_compute in E. discriminate.
Defined.

(** X7.  [get] for one kind never touches what is stored for another
    kind. *)
Theorem get_other_kinds_untouched self g kind usage buckets kind' :
  kind' <> kind ->
  fst (fst (get self g kind usage buckets)) !! kind' = self !! kind'.
Proof.
  intros Hne. unfold get.
  destruct usage as [u|]; [|reflexivity].
  destruct (_pick_bucket buckets u) as [[idx texts]|]; [|reflexivity].
  destruct (default (None, EmptyString) (self !! kind)) as [last_idx last_phrase].
  destruct (idx_eq last_idx idx && truthy last_phrase); [reflexivity|].
  destruct (choice texts g) as [[phrase ga]|]; [|reflexivity].
  destruct (String.eqb phrase last_phrase && (1 <? length texts)%nat).
  - destruct (choice _ ga) as [[p' gb]|]; [|reflexivity].
    cbn. apply lookup_insert_ne. congruence.
  - cbn. apply lookup_insert_ne. congruence.
Qed.

Lemma get_other_kinds_untouched_witness :
  fst (fst (get phrases_cpu_idle rng_0_0_1 "gpu" (Some 45%Q) GPU_BUCKETS)) !! "cpu"%string
  = phrases_cpu_idle !! "cpu"%string.
Proof.
  apply (get_other_kinds_untouched phrases_cpu_idle rng_0_0_1 "gpu"
           (Some 45%Q) GPU_BUCKETS "cpu").
  discriminate.
Defined.

(** X8.  After [get] has returned for a present value, the entry stored for
    the kind is the value's bucket index together with the very phrase
    returned; that phrase is a candidate of the bucket unless it is the
    stored one returned unchanged, in which case nothing was written and no
    random number drawn. *)
Theorem get_stores_returned_phrase self g kind u buckets self' g' p :
  get self g kind (Some u) buckets = (self', g', Ok p) ->
  exists idx texts,
    _pick_bucket buckets u = Ok (idx, texts) /\
    self' !! kind = Some (Some idx, p) /\
    (In p texts \/ (self' = self /\ g' = g)).
Proof.
  unfold get. intros H.
  destruct (_pick_bucket buckets u) as [[idx texts]|]; [|discriminate].
  exists idx, texts. split; [reflexivity|].
  destruct (default (None, EmptyString) (self !! kind)) as [last_idx last_phrase] eqn:E.
  destruct (idx_eq last_idx idx && truthy last_phrase) eqn:Hh.
  - injection H as <- <- <-. split; [|now right].
    apply andb_prop in Hh as [Hi _].
    destruct last_idx as [i|]; [|discriminate].
    cbn in Hi. apply Z.eqb_eq in Hi. subst i.
    destruct (self !! kind) as [[li lp]|]; cbn in E; [now inversion E | discriminate].
  - destruct (choice texts g) as [[phrase ga]|] eqn:Hc; [|discriminate].
    destruct (String.eqb phrase last_phrase && (1 <? length texts)%nat).
    + destruct (choice _ ga) as [[p' gb]|] eqn:Hc2; [|discriminate].
      injection H as <- _ <-. split; [apply lookup_insert_eq|].
      left. apply choice_In in Hc2. now apply filter_In in Hc2.
    + injection H as <- _ <-. split; [apply lookup_insert_eq|].
      left. eapply choice_In; eauto.
Qed.

Lemma get_stores_returned_phrase_witness :
  exists idx texts,
    _pick_bucket CPU_BUCKETS 45 = Ok (idx, texts) /\
    fst (fst cpu_call_45) !! "cpu"%string = Some (Some idx, "认真干活中 🛠️"%string).
Proof.
  destruct (get_stores_returned_phrase PhraseManager_init rng_0_0_1 "cpu" 45
              CPU_BUCKETS (fst (fst cpu_call_45)) (snd (fst cpu_call_45))
              "认真干活中 🛠️"%string)
    as (idx & texts & Hp & Hs & _).
  - vm_compute. reflexivity.
  - exists idx, texts. split; [exact Hp | exact Hs].
Defined.

(** X9.  On a table that has a bucket and whose buckets each offer at least
    one phrase and no phrase twice, [get] never raises, whatever is stored
    and whatever is drawn. *)
Theorem get_never_raises self g kind usage buckets :
  drawable buckets -> raises (snd (get self g kind usage buckets)) = false.
Proof.
  intros Hd. destruct usage as [u|]; [|reflexivity].
  destruct (get_returns self g kind u buckets Hd) as (self' & g' & p & E).
  now rewrite E.
Qed.

Lemma get_never_raises_witness :
  raises (snd (get phrases_cpu_idle rng_0_0_1 "mood" (Some 45%Q) MOOD_BUCKETS)) = false.
Proof.
  apply (get_never_raises phrases_cpu_idle rng_0_0_1 "mood" (Some 45%Q) MOOD_BUCKETS).
  exact MOOD_BUCKETS_drawable.
Defined.

(** A bucket that lists the same phrase twice can make [get] raise: after
    that phrase was shown for another bucket, the redraw finds no
    alternative. *)
Example get_raises_on_twin_phrases :
  snd (get phrases_showing_a rng_0_0_1 "cpu" (Some 5%Q) table_with_twin_phrases)
  = Raised IndexError.
Proof. vm_compute. reflexivity. Qed.

(* ------------------------------------------------------------------ *)
(** ** The mood score, continued *)
(* ------------------------------------------------------------------ *)

Lemma fmin_100_mono x y : (x <= y)%Q -> (fmin 100 x <= fmin 100 y)%Q.
Proof.
  intros H. unfold fmin.
  destruct (Qlt_le_dec x 100), (Qlt_le_dec y 100); lra.
Qed.

Lemma fmax_0_mono x y : (x <= y)%Q -> (fmax 0 x <= fmax 0 y)%Q.
Proof.
  intros H. unfold fmax.
  destruct (Qlt_le_dec 0 x), (Qlt_le_dec 0 y); lra.
Qed.

(** X10.  The mood score never goes down when a metric goes up: if every
    metric of one sample (absent ones read as 0) is at most the
    corresponding metric of another, so is the score. *)
Theorem mood_score_monotone m m' :
  (or_zero (last_cpu m) <= or_zero (last_cpu m'))%Q ->
  (or_zero (last_gpu m) <= or_zero (last_gpu m'))%Q ->
  (or_zero (last_ram m) <= or_zero (last_ram m'))%Q ->
  (or_zero (last_disk_r m) <= or_zero (last_disk_r m'))%Q ->
  (or_zero (last_disk_w m) <= or_zero (last_disk_w m'))%Q ->
  (or_zero (last_up m) <= or_zero (last_up m'))%Q ->
  (or_zero (last_down m) <= or_zero (last_down m'))%Q ->
  (mood_score m <= mood_score m')%Q.
Proof.
  intros Hc Hg Hr Hdr Hdw Hu Hd. unfold mood_score. cbv zeta.
  rewrite net_ceiling.
  apply fmax_0_mono, fmin_100_mono.
  assert (Hdisk : (fmin 100 ((or_zero (last_disk_r m) + or_zero (last_disk_w m)) / 200 * 100)
                   <= fmin 100 ((or_zero (last_disk_r m') + or_zero (last_disk_w m')) / 200 * 100))%Q).
  { apply fmin_100_mono. rewrite !pct_of_200. lra. }
  assert (Hnet : (fmin 100 ((or_zero (last_up m) + or_zero (last_down m)) / 50 * 100)
                  <= fmin 100 ((or_zero (last_up m') + or_zero (last_down m')) / 50 * 100))%Q).
  { apply fmin_100_mono. rewrite !pct_of_50. lra. }
  lra.
Qed.

Lemma mood_score_monotone_witness :
  (mood_score metrics_calm <= mood_score metrics_busy)%Q.
Proof.
  apply (mood_score_monotone metrics_calm metrics_busy); cbn; lra.
Defined.

(* ------------------------------------------------------------------ *)
(** ** Dock planning, continued *)
(* ------------------------------------------------------------------ *)

(** X11.  [clamp(n, a, b)] with bounds in order returns a value between
    them, and [n] itself when [n] already lies between them; with crossed
    bounds it returns the lower bound [a], whatever [n] is. *)
Theorem clamp_bounds n a b :
  (a <= b -> a <= clamp n a b <= b /\ (a <= n <= b -> clamp n a b = n)) /\
  (b < a -> clamp n a b = a).
Proof. rewrite clamp_spec. lia. Qed.

Lemma clamp_bounds_witness :
  clamp 10 20 15 = 20 /\ 20 <= clamp 100 20 50 <= 50.
Proof.
  split.
  - exact (proj2 (clamp_bounds 10 20 15) ltac:(lia)).
  - exact (proj1 (proj1 (clamp_bounds 100 20 50) ltac:(lia))).
Defined.

(** X12.  The collapsed bar is always between 22 and 52 pixels wide and at
    least 64 pixels high, for every text, font and screen; its height stays
    at or below 55 percent of the screen height as soon as that cap is not
    below 64. *)
Theorem collapsed_size_bounds s fm mood_text :
  COLLAPSED_MIN_W <= _calc_collapsed_width_for_text fm mood_text <= COLLAPSED_MAX_W /\
  COLLAPSED_MIN_H <= _calc_collapsed_height_for_text s fm mood_text /\
  (COLLAPSED_MIN_H <= Z.quot (rheight s * 55) 100 ->
   _calc_collapsed_height_for_text s fm mood_text <= Z.quot (rheight s * 55) 100).
Proof.
  unfold _calc_collapsed_width_for_text, _calc_collapsed_height_for_text.
  cbv zeta. rewrite max_h_quot, !clamp_spec.
  unfold COLLAPSED_MIN_W, COLLAPSED_MAX_W, COLLAPSED_MIN_H. lia.
Qed.

Lemma collapsed_size_bounds_witness :
  _calc_collapsed_height_for_text full_hd font_16_10 "摸鱼中 😴"
  <= Z.quot (rheight full_hd * 55) 100.
Proof.
  apply (proj2 (proj2 (collapsed_size_bounds full_hd font_16_10 "摸鱼中 😴"))).
  vm_compute. discriminate.
Defined.

Lemma int_of_float_scaled (n : Z) :
  int_of_float (inject_Z n * 1.05)%Q = Z.quot (n * 105) 100.
Proof. reflexivity. Qed.

(** X13.  With a font of non-negative line height, a longer mood text never
    gives a shorter collapsed bar. *)
Theorem collapsed_height_monotone s fm t1 t2 :
  0 <= fm_height fm -> len t1 <= len t2 ->
  _calc_collapsed_height_for_text s fm t1 <= _calc_collapsed_height_for_text s fm t2.
Proof.
  intros Hh Hl. unfold _calc_collapsed_height_for_text. cbv zeta.
  rewrite !int_of_float_scaled, !clamp_spec, !imax_spec.
  assert (Hn : Z.max 1 (len t1) * fm_height fm * 105
               <= Z.max 1 (len t2) * fm_height fm * 105) by nia.
  pose proof (Z.quot_le_mono _ _ 100 ltac:(lia) Hn). lia.
Qed.

Lemma collapsed_height_monotone_witness :
  _calc_collapsed_height_for_text full_hd font_16_10 "摸鱼"
  <= _calc_collapsed_height_for_text full_hd font_16_10 "摸鱼中 😴".
Proof.
  apply (collapsed_height_monotone full_hd font_16_10 "摸鱼" "摸鱼中 😴").
  - cbn. lia.
  - vm_compute. discriminate.
Defined.

(* ------------------------------------------------------------------ *)
(** ** The transition controller, continued *)
(* ------------------------------------------------------------------ *)

Import Control.

Lemma phrases_get_controls kind usage buckets o :
  controls (fst (phrases_get kind usage buckets o)) = controls o.
Proof.
  unfold phrases_get. destruct (get _ _ _ _ _) as [[ph g] r]. reflexivity.
Qed.

Lemma and_then_controls {A B : Type} o0 (r : Overlay * outcome A)
    (k : Overlay -> A -> Overlay * outcome B) :
  controls (fst r) = controls o0 ->
  (forall o a, controls o = controls o0 -> controls (fst (k o a)) = controls o0) ->
  controls (fst (and_then r k)) = controls o0.
Proof.
  intros Hr Hk. destruct r as [o [a|e]]; cbn in *; [now apply Hk | exact Hr].
Qed.

(** A refresh tick, returning or raising, writes nothing but the readers,
    the metrics, the phrase state, the generator and the panel. *)
Lemma refresh_controls os o : controls (fst (refresh os o)) = controls o.
Proof.
  unfold refresh.
  destruct (lhm_read os) as [lhm|e]; [|reflexivity].
  destruct (PsutilReader_read (psr o) (psr_calls os)) as [st [psu|e]]; [|reflexivity].
  destruct (DiskRateReader_read _ _ _) as [dr [disk_r disk_w]].
  apply and_then_controls; [now rewrite phrases_get_controls|]. intros o1 cpu_txt H1.
  apply and_then_controls; [now rewrite phrases_get_controls|]. intros o2 gpu_txt H2.
  apply and_then_controls; [now rewrite phrases_get_controls|]. intros o3 ram_txt H3.
  apply and_then_controls; [now rewrite phrases_get_controls|]. intros o4 disk_txt H4.
  destruct (negb (_is_effectively_collapsed o4)); [exact H4|].
  apply and_then_controls;
    [unfold _compute_mood_phrase; now rewrite phrases_get_controls|].
  intros o5 mood H5. exact H5.
Qed.

(** X14.  In every reachable state [_is_effectively_collapsed] agrees with
    the committed mode, the in-flight flag is set exactly while the
    animation group runs, and an idle widget holds no target. *)
Theorem reachable_effective_mode o :
  reachable o ->
  _is_effectively_collapsed o = collapsed o /\
  _anim_inflight o = running (_anim_group o) /\
  (_anim_inflight o = false -> _anim_target_collapsed o = None).
Proof.
  intros Hr. destruct (reachable_consistent o Hr) as [h1 h2 h3 _ _].
  split; [|split; assumption].
  unfold _is_effectively_collapsed.
  destruct (_anim_inflight o); [|reflexivity].
  now rewrite (h2 eq_refl).
Qed.

Lemma reachable_effective_mode_witness :
  _is_effectively_collapsed overlay_mid_collapse = collapsed overlay_mid_collapse.
Proof.
  exact (proj1 (reachable_effective_mode overlay_mid_collapse
                  overlay_mid_collapse_reachable)).
Defined.

Lemma opacity_ok_ext o o' :
  _anim_group o' = _anim_group o -> windowOpacity o' = windowOpacity o ->
  opacity_ok o -> opacity_ok o'.
Proof.
  intros Eg Eo [h1 h2]. constructor; rewrite ?Eg, ?Eo; assumption.
Qed.

Lemma opacity_ok_controls o o' :
  controls o' = controls o -> opacity_ok o -> opacity_ok o'.
Proof.
  unfold controls. intros E. injection E as _ _ _ _ _ _ Eg _ _ _ Eo _ _.
  now apply opacity_ok_ext.
Qed.

Lemma constants_in_range :
  in_opacity_range COLLAPSED_OPACITY /\ in_opacity_range EXPANDED_OPACITY.
Proof. unfold in_opacity_range, COLLAPSED_OPACITY, EXPANDED_OPACITY. lra. Qed.

Lemma positive_or_in_range x fallback :
  in_opacity_range x -> positive_or x fallback = x.
Proof.
  unfold in_opacity_range, COLLAPSED_OPACITY. intros H.
  apply positive_or_id. lra.
Qed.

Lemma start_anim_opacity_ok sg eg sop eop t o :
  in_opacity_range sop -> in_opacity_range eop ->
  in_opacity_range (windowOpacity o) ->
  opacity_ok (_start_anim sg eg sop eop t o).
Proof.
  intros Hs He Ho.
  destruct (start_anim_group sg eg sop eop t o) as (_ & _ & Hos & Hoe & _).
  destruct (start_anim_rest sg eg sop eop t o) as (_ & Hop & _).
  constructor; [now rewrite Hop|].
  intros _. exists sop, eop. auto.
Qed.

Lemma persist_pos_opacity_ok o : opacity_ok o -> opacity_ok (_persist_pos o).
Proof. apply opacity_ok_ext; reflexivity. Qed.

Lemma expand_animated_opacity_ok s o :
  opacity_ok o -> opacity_ok (expand_animated s o).
Proof.
  intros H. destruct (collapsed o) eqn:Hc.
  - destruct (expand_animated_unfold s o Hc) as (eg & o4 & E & _ & Ho4 & _).
    rewrite E. apply persist_pos_opacity_ok.
    pose proof (opacity_in_range o H) as Hr.
    rewrite (positive_or_in_range _ _ Hr).
    apply start_anim_opacity_ok; [exact Hr | apply constants_in_range |].
    now rewrite Ho4.
  - unfold expand_animated. now rewrite Hc.
Qed.

Lemma collapse_to_edge_animated_opacity_ok s fm o :
  opacity_ok o -> opacity_ok (fst (collapse_to_edge_animated s fm o)).
Proof.
  intros H. destruct (collapsed o) eqn:Hc.
  - unfold collapse_to_edge_animated. now rewrite Hc.
  - destruct (collapse_to_edge_animated_unfold s fm o Hc)
      as (eg & o4 & E & _ & Ho4 & _).
    rewrite E. cbn [fst]. apply persist_pos_opacity_ok.
    pose proof (opacity_in_range o H) as Hr.
    rewrite (positive_or_in_range _ _ Hr).
    apply start_anim_opacity_ok; [exact Hr | apply constants_in_range |].
    now rewrite Ho4.
Qed.

Lemma schedule_collapse_controls_but_timer near o :
  _anim_group (_schedule_collapse_if_far near o) = _anim_group o /\
  windowOpacity (_schedule_collapse_if_far near o) = windowOpacity o /\
  collapsed (_schedule_collapse_if_far near o) = collapsed o /\
  auto_hide (_schedule_collapse_if_far near o) = auto_hide o /\
  anim_view (_schedule_collapse_if_far near o) = anim_view o.
Proof.
  unfold _schedule_collapse_if_far.
  destruct (negb (auto_hide o) || _anim_inflight o); [auto|].
  destruct near; [|destruct (negb (_collapse_timer o))]; auto.
Qed.

Lemma schedule_collapse_opacity_ok near o :
  opacity_ok o -> opacity_ok (_schedule_collapse_if_far near o).
Proof.
  destruct (schedule_collapse_controls_but_timer near o) as (Eg & Eo & _).
  now apply opacity_ok_ext.
Qed.

(** A point between two numbers of the range is in the range. *)
Lemma interpolated_in_range q0 q1 e :
  in_opacity_range q0 -> in_opacity_range q1 -> (0 <= e <= 1)%Q ->
  in_opacity_range (q0 + (q1 - q0) * e).
Proof.
  unfold in_opacity_range. intros [L0 U0] [L1 U1] [He0 He1].
  assert (E : (q0 + (q1 - q0) * e == q0 * (1 - e) + q1 * e)%Q) by ring.
  rewrite E.
  assert (A1 : (0 <= (q0 - COLLAPSED_OPACITY) * (1 - e))%Q)
    by (apply Qmult_le_0_compat; lra).
  assert (A2 : (0 <= (q1 - COLLAPSED_OPACITY) * e)%Q)
    by (apply Qmult_le_0_compat; lra).
  assert (A3 : (0 <= (EXPANDED_OPACITY - q0) * (1 - e))%Q)
    by (apply Qmult_le_0_compat; lra).
  assert (A4 : (0 <= (EXPANDED_OPACITY - q1) * e)%Q)
    by (apply Qmult_le_0_compat; lra).
  split; lra.
Qed.

Lemma anim_frame_opacity_ok g e o :
  opacity_ok o -> (0 <= e <= 1)%Q -> running (_anim_group o) = true ->
  opacity_ok (anim_frame g e o).
Proof.
  intros [h1 h2] He Hrun.
  destruct (h2 Hrun) as (q0 & q1 & E0 & E1 & P0 & P1).
  unfold anim_frame. rewrite E0, E1.
  constructor; cbn; auto. now apply interpolated_in_range.
Qed.

Lemma anim_finished_opacity_ok o :
  opacity_ok o -> running (_anim_group o) = true -> opacity_ok (anim_finished o).
Proof.
  intros [h1 h2] Hrun.
  destruct (h2 Hrun) as (q0 & q1 & E0 & E1 & P0 & P1).
  unfold anim_finished, _on_anim_finished. cbn. rewrite E1. cbn.
  destruct (_anim_target_collapsed o) as [[|]|]; constructor; cbn;
    try discriminate; auto; apply constants_in_range.
Qed.

Lemma handle_opacity_ok ev o :
  opacity_ok o -> enabled ev o -> opacity_ok (handle ev o).
Proof.
  intros H Hen. destruct ev; cbn [handle].
  - eapply opacity_ok_controls; [apply refresh_controls | exact H].
  - unfold _poll_mouse.
    destruct (negb (auto_hide o) || _anim_inflight o); [exact H|].
    destruct (collapsed o).
    + destruct hover; [now apply expand_animated_opacity_ok | exact H].
    + destruct (negb near); [destruct (negb (_collapse_timer o))|];
        try exact H; (eapply opacity_ok_ext; [| |exact H]; reflexivity).
  - assert (H' : opacity_ok (set_collapse_timer false o))
      by (eapply opacity_ok_ext; [| |exact H]; reflexivity).
    revert H'. generalize (set_collapse_timer false o). intros o' H'.
    unfold _collapse_if_still_far.
    destruct (negb (auto_hide o') || _anim_inflight o'); [exact H'|].
    destruct near; [now apply schedule_collapse_opacity_ok|].
    now apply collapse_to_edge_animated_opacity_ok.
  - now apply schedule_collapse_opacity_ok.
  - unfold mousePressEvent.
    destruct (click_through o || _anim_inflight o); [exact H|].
    destruct left_button; [|exact H].
    assert (H' : opacity_ok (set_dragging true o))
      by (eapply opacity_ok_ext; [| |exact H]; reflexivity).
    cbv zeta. destruct (collapsed (set_dragging true o));
      [now apply expand_animated_opacity_ok | exact H'].
  - unfold mouseMoveEvent.
    destruct (click_through o || _anim_inflight o); [exact H|].
    destruct (_dragging o); [|exact H].
    eapply opacity_ok_ext; [| |exact H]; reflexivity.
  - unfold mouseReleaseEvent. destruct (_dragging o); [|exact H].
    apply schedule_collapse_opacity_ok.
    eapply opacity_ok_ext; [| |exact H]; reflexivity.
  - unfold toggle_autohide. cbv zeta.
    assert (H' : opacity_ok (set_auto_hide (negb (auto_hide o)) o))
      by (eapply opacity_ok_ext; [| |exact H]; reflexivity).
    revert H'. generalize (set_auto_hide (negb (auto_hide o)) o). intros o1 H1.
    assert (H2 : opacity_ok
              (if negb (auto_hide o1) && _is_effectively_collapsed o1
               then expand_animated s o1 else o1)).
    { destruct (negb (auto_hide o1) && _is_effectively_collapsed o1);
        [now apply expand_animated_opacity_ok | exact H1]. }
    revert H2. generalize (if negb (auto_hide o1) && _is_effectively_collapsed o1
                           then expand_animated s o1 else o1). intros o2 H2.
    destruct (auto_hide o2); [now apply schedule_collapse_opacity_ok | exact H2].
  - eapply opacity_ok_ext; [| |exact H]; reflexivity.
  - destruct Hen as [Hrun He]. now apply anim_frame_opacity_ok.
  - now apply anim_finished_opacity_ok.
Qed.

(** X15.  In every reachable state the window opacity lies between
    [COLLAPSED_OPACITY] and [EXPANDED_OPACITY], in the middle of an
    animation as well as at rest. *)
Theorem reachable_opacity_in_range o :
  reachable o ->
  (COLLAPSED_OPACITY <= windowOpacity o <= EXPANDED_OPACITY)%Q.
Proof.
  intros Hr. apply opacity_in_range.
  induction Hr as [ah ct geo0 psr0 seed | o ev _ IH Hen].
  - constructor; cbn; [apply constants_in_range | discriminate].
  - now apply handle_opacity_ok.
Qed.

Lemma reachable_opacity_in_range_witness :
  (COLLAPSED_OPACITY <= windowOpacity overlay_mid_collapse <= EXPANDED_OPACITY)%Q.
Proof.
  exact (reachable_opacity_in_range overlay_mid_collapse
           overlay_mid_collapse_reachable).
Defined.

Lemma start_anim_keeps sg eg sop eop t o :
  auto_hide (_start_anim sg eg sop eop t o) = auto_hide o /\
  click_through (_start_anim sg eg sop eop t o) = click_through o /\
  expanded_geo (_start_anim sg eg sop eop t o) = expanded_geo o /\
  dock_side (_start_anim sg eg sop eop t o) = dock_side o /\
  _collapse_timer (_start_anim sg eg sop eop t o) = _collapse_timer o.
Proof. unfold _start_anim. destruct (_anim_inflight o); cbn; auto. Qed.

Lemma persist_pos_keeps o :
  auto_hide (_persist_pos o) = auto_hide o /\
  click_through (_persist_pos o) = click_through o /\
  expanded_geo (_persist_pos o) = expanded_geo o /\
  dock_side (_persist_pos o) = dock_side o /\
  _collapse_timer (_persist_pos o) = _collapse_timer o /\
  geometry (_persist_pos o) = geometry o /\
  windowOpacity (_persist_pos o) = windowOpacity o.
Proof. repeat split. Qed.

(** [collapse_to_edge_animated] on an expanded widget, in full: the
    animation it starts and the attributes it has written before. *)
Lemma collapse_to_edge_animated_result s fm o :
  collapsed o = false ->
  exists mood o4,
    collapse_to_edge_animated s fm o =
      (_persist_pos
         (_start_anim (geometry o)
            (_collapsed_rect_for s (geometry o)
               (_decide_nearest_side s (geometry o))
               (_calc_collapsed_width_for_text fm mood)
               (_calc_collapsed_height_for_text s fm mood))
            (positive_or (windowOpacity o) EXPANDED_OPACITY) COLLAPSED_OPACITY
            true o4), Ok tt) /\
    auto_hide o4 = auto_hide o /\
    expanded_geo o4 = Some (geometry o) /\
    dock_side o4 = _decide_nearest_side s (geometry o) /\
    _anim_group o4 = _anim_group o.
Proof.
  intros Hc. unfold collapse_to_edge_animated. rewrite Hc.
  unfold _compute_mood_phrase, phrases_get.
  match goal with |- context [get ?ph ?g ?k (Some ?u) MOOD_BUCKETS] =>
    destruct (get_returns ph g k u MOOD_BUCKETS MOOD_BUCKETS_drawable)
      as [ph' [g' [p Hg]]]; rewrite Hg
  end.
  cbn [and_then]. exists p. eexists. split; [reflexivity|].
  repeat split; reflexivity.
Qed.

(** [expand_animated] on a collapsed widget, in full. *)
Lemma expand_animated_result s o :
  collapsed o = true ->
  exists o4,
    expand_animated s o =
      _persist_pos
        (_start_anim (geometry o)
           (expand_target s
              (if has_geo (expanded_geo o)
               then default (expand_fallback s) (expanded_geo o)
               else expand_fallback s))
           (positive_or (windowOpacity o) COLLAPSED_OPACITY) EXPANDED_OPACITY
           false o4) /\
    auto_hide o4 = auto_hide o /\
    dock_side o4 = dock_side o /\
    _anim_group o4 = _anim_group o.
Proof.
  intros Hc. unfold expand_animated. rewrite Hc. cbn [negb].
  unfold expand_target, expand_fallback.
  destruct (has_geo (expanded_geo o)); eexists;
    (split; [reflexivity | repeat split; reflexivity]).
Qed.

Lemma expand_animated_collapsed s o : collapsed (expand_animated s o) = false.
Proof.
  destruct (collapsed o) eqn:Hc.
  - destruct (expand_animated_unfold s o Hc) as (eg & o4 & E & Hc4 & _).
    rewrite E.
    destruct (persist_pos_anim
                (_start_anim (geometry o) eg
                   (positive_or (windowOpacity o) COLLAPSED_OPACITY)
                   EXPANDED_OPACITY false o4)) as (_ & _ & -> & _).
    now rewrite (proj1 (start_anim_rest _ _ _ _ _ _)).
  - unfold expand_animated. now rewrite Hc.
Qed.

Lemma collapse_to_edge_animated_collapsed s fm o :
  collapsed (fst (collapse_to_edge_animated s fm o)) = true.
Proof.
  destruct (collapsed o) eqn:Hc.
  - unfold collapse_to_edge_animated. now rewrite Hc.
  - destruct (collapse_to_edge_animated_unfold s fm o Hc)
      as (eg & o4 & E & Hc4 & _).
    rewrite E. cbn [fst].
    destruct (persist_pos_anim
                (_start_anim (geometry o) eg
                   (positive_or (windowOpacity o) EXPANDED_OPACITY)
                   COLLAPSED_OPACITY true o4)) as (_ & _ & -> & _).
    now rewrite (proj1 (start_anim_rest _ _ _ _ _ _)).
Qed.

Lemma collapse_to_edge_animated_auto_hide s fm o :
  auto_hide (fst (collapse_to_edge_animated s fm o)) = auto_hide o.
Proof.
  destruct (collapsed o) eqn:Hc.
  - unfold collapse_to_edge_animated. now rewrite Hc.
  - destruct (collapse_to_edge_animated_result s fm o Hc) as (mood & o4 & E & Hk).
    rewrite E. cbn [fst].
    rewrite (proj1 (persist_pos_keeps _)), (proj1 (start_anim_keeps _ _ _ _ _ _)).
    apply Hk.
Qed.

Lemma guard_open a i : negb a || i = false -> a = true /\ i = false.
Proof. destruct a, i; cbn; intros; try discriminate; auto. Qed.

Lemma anim_finished_collapsed o :
  consistent o -> running (_anim_group o) = true ->
  collapsed (anim_finished o) = collapsed o.
Proof.
  intros [h1 h2 _ _ _] Hrun. rewrite Hrun in h1. specialize (h2 h1).
  unfold anim_finished, _on_anim_finished. cbn. rewrite h2.
  destruct (collapsed o); reflexivity.
Qed.

(** X16.  The committed mode changes only in these ways.  It becomes
    Collapsed only when the idle timer fires with the pointer away, with
    auto-hide on and nothing in flight.  It becomes Expanded only on a poll
    that finds the pointer in the hover region (auto-hide on, nothing in
    flight), on a left button press (not click-through, nothing in flight),
    or when auto-hide is switched off.  No other event, and no frame or
    completion of an animation, changes it. *)
Theorem mode_changes_only_by o ev :
  reachable o -> enabled ev o ->
  collapsed (handle ev o) = collapsed o \/
  (collapsed o = false /\ collapsed (handle ev o) = true /\
   auto_hide o = true /\ _anim_inflight o = false /\
   exists s fm, ev = EvCollapseTimer s fm false) \/
  (collapsed o = true /\ collapsed (handle ev o) = false /\
   ((auto_hide o = true /\ _anim_inflight o = false /\
     exists s near, ev = EvPoll s true near) \/
    (click_through o = false /\ _anim_inflight o = false /\
     exists s, ev = EvMousePress s true) \/
    (auto_hide o = true /\ exists s near, ev = EvToggleAutohide s near))).
Proof.
  intros Hr Hen. pose proof (reachable_consistent o Hr) as Hc.
  destruct ev; cbn [handle].
  - left. pose proof (refresh_controls os o) as E. unfold controls in E.
    now injection E.
  - unfold _poll_mouse.
    destruct (negb (auto_hide o) || _anim_inflight o) eqn:G; [now left|].
    apply guard_open in G as [Ha Hi].
    destruct (collapsed o) eqn:Hcol.
    + destruct hover; [|now left]. right. right.
      split; [reflexivity|]. split; [apply expand_animated_collapsed|].
      left. eauto.
    + left. destruct (negb near); [destruct (negb (_collapse_timer o))|];
        cbn; auto.
  - unfold _collapse_if_still_far.
    change (auto_hide (set_collapse_timer false o)) with (auto_hide o).
    change (_anim_inflight (set_collapse_timer false o)) with (_anim_inflight o).
    destruct (negb (auto_hide o) || _anim_inflight o) eqn:G; [now left|].
    apply guard_open in G as [Ha Hi].
    destruct near.
    + left. cbn [fst].
      now rewrite (proj1 (proj2 (proj2 (schedule_collapse_controls_but_timer _ _)))).
    + destruct (collapsed o) eqn:Hcol.
      * left. now rewrite collapse_to_edge_animated_collapsed.
      * right. left. split; [reflexivity|].
        split; [apply collapse_to_edge_animated_collapsed|]. eauto.
  - left. apply schedule_collapse_controls_but_timer.
  - unfold mousePressEvent.
    destruct (click_through o || _anim_inflight o) eqn:G; [now left|].
    apply orb_false_elim in G as [Hct Hi].
    destruct left_button; [|now left]. cbv zeta.
    change (collapsed (set_dragging true o)) with (collapsed o).
    destruct (collapsed o) eqn:Hcol; [|now left].
    right. right. split; [reflexivity|].
    split; [apply expand_animated_collapsed|]. right. left. eauto.
  - left. unfold mouseMoveEvent.
    destruct (click_through o || _anim_inflight o); [reflexivity|].
    destruct (_dragging o); reflexivity.
  - left. unfold mouseReleaseEvent. destruct (_dragging o); [|reflexivity].
    now rewrite (proj1 (proj2 (proj2 (schedule_collapse_controls_but_timer _ _)))).
  - unfold toggle_autohide. cbv zeta.
    change (auto_hide (set_auto_hide (negb (auto_hide o)) o))
      with (negb (auto_hide o)).
    replace (_is_effectively_collapsed (set_auto_hide (negb (auto_hide o)) o))
      with (collapsed o).
    2:{ symmetry. unfold _is_effectively_collapsed. cbn.
        destruct (_anim_inflight o) eqn:Hi; [|reflexivity].
        now rewrite (inflight_target o Hc Hi). }
    destruct (auto_hide o) eqn:Ha; cbn [negb andb].
    + destruct (collapsed o) eqn:Hcol.
      * right. right. split; [reflexivity|].
        rewrite expand_animated_auto_hide. cbn [auto_hide set_auto_hide].
        split; [apply expand_animated_collapsed|]. right. right. eauto.
      * left. cbn. exact Hcol.
    + left. cbn [auto_hide set_auto_hide].
      now rewrite (proj1 (proj2 (proj2 (schedule_collapse_controls_but_timer _ _)))).
  - now left.
  - now left.
  - left. now apply anim_finished_collapsed.
Qed.

Lemma mode_changes_only_by_witness :
  collapsed overlay_timer_armed = false /\
  collapsed (handle (EvCollapseTimer full_hd font_16_10 false) overlay_timer_armed) = true /\
  auto_hide overlay_timer_armed = true /\
  _anim_inflight overlay_timer_armed = false.
Proof.
  assert (Hr : reachable overlay_timer_armed).
  { unfold overlay_timer_armed, overlay_at_start.
    apply reach_step; [apply reach_init | exact I]. }
  assert (Hen : enabled (EvCollapseTimer full_hd font_16_10 false) overlay_timer_armed)
    by (vm_compute; reflexivity).
  destruct (mode_changes_only_by overlay_timer_armed
              (EvCollapseTimer full_hd font_16_10 false) Hr Hen)
    as [Hsame | [(H1 & H2 & H3 & H4 & _) | (H1 & _)]].
  - exfalso. vm_compute in Hsame. discriminate.
  - auto.
  - exfalso. vm_compute in H1. discriminate.
Defined.

Lemma handle_auto_hide ev o :
  auto_hide (handle ev o) =
    match ev with
    | EvToggleAutohide _ _ => negb (auto_hide o)
    | _ => auto_hide o
    end.
Proof.
  destruct ev; cbn [handle].
  - pose proof (refresh_controls os o) as E. unfold controls in E.
    now injection E.
  - unfold _poll_mouse.
    destruct (negb (auto_hide o) || _anim_inflight o); [reflexivity|].
    destruct (collapsed o).
    + destruct hover; [apply expand_animated_auto_hide | reflexivity].
    + destruct (negb near); [destruct (negb (_collapse_timer o))|]; reflexivity.
  - unfold _collapse_if_still_far.
    change (auto_hide (set_collapse_timer false o)) with (auto_hide o).
    change (_anim_inflight (set_collapse_timer false o)) with (_anim_inflight o).
    destruct (negb (auto_hide o) || _anim_inflight o); [reflexivity|].
    destruct near; cbn [fst].
    + now rewrite (proj1 (proj2 (proj2 (proj2
                     (schedule_collapse_controls_but_timer _ _))))).
    + now rewrite collapse_to_edge_animated_auto_hide.
  - apply schedule_collapse_controls_but_timer.
  - unfold mousePressEvent.
    destruct (click_through o || _anim_inflight o); [reflexivity|].
    destruct left_button; [|reflexivity]. cbv zeta.
    destruct (collapsed (set_dragging true o)); [|reflexivity].
    now rewrite expand_animated_auto_hide.
  - unfold mouseMoveEvent.
    destruct (click_through o || _anim_inflight o); [reflexivity|].
    destruct (_dragging o); reflexivity.
  - unfold mouseReleaseEvent. destruct (_dragging o); [|reflexivity].
    now rewrite (proj1 (proj2 (proj2 (proj2
                   (schedule_collapse_controls_but_timer _ _))))).
  - unfold toggle_autohide. cbv zeta.
    set (o1 := set_auto_hide (negb (auto_hide o)) o).
    assert (E1 : auto_hide o1 = negb (auto_hide o)) by reflexivity.
    assert (E2 : auto_hide (if negb (auto_hide o1) && _is_effectively_collapsed o1
                            then expand_animated s o1 else o1)
                 = negb (auto_hide o)).
    { destruct (negb (auto_hide o1) && _is_effectively_collapsed o1);
        [now rewrite expand_animated_auto_hide | exact E1]. }
    revert E2. generalize (if negb (auto_hide o1) && _is_effectively_collapsed o1
                           then expand_animated s o1 else o1). intros o2 E2.
    destruct (auto_hide o2) eqn:H2; [|congruence].
    rewrite (proj1 (proj2 (proj2 (proj2
               (schedule_collapse_controls_but_timer _ _))))). congruence.
  - reflexivity.
  - reflexivity.
  - unfold anim_finished, _on_anim_finished. cbn.
    destruct (_anim_target_collapsed o) as [[|]|]; reflexivity.
Qed.

Lemma handle_keeps_expanded ev o :
  consistent o -> enabled ev o ->
  (auto_hide o = false -> collapsed o = false) ->
  auto_hide (handle ev o) = false -> collapsed (handle ev o) = false.
Proof.
  intros Hc Hen IH. rewrite handle_auto_hide.
  destruct ev; cbn [handle]; intros Ha.
  - pose proof (refresh_controls os o) as E. unfold controls in E.
    injection E as _ _ _ -> _ _ _ _ _ _ _ _ _. auto.
  - unfold _poll_mouse. rewrite Ha. cbn [negb orb]. auto.
  - unfold _collapse_if_still_far.
    change (auto_hide (set_collapse_timer false o)) with (auto_hide o).
    rewrite Ha. cbn [negb orb fst]. auto.
  - rewrite (proj1 (proj2 (proj2 (schedule_collapse_controls_but_timer _ _)))).
    auto.
  - unfold mousePressEvent.
    destruct (click_through o || _anim_inflight o); [auto|].
    destruct left_button; [|auto]. cbv zeta.
    destruct (collapsed (set_dragging true o));
      [apply expand_animated_collapsed | auto].
  - unfold mouseMoveEvent.
    destruct (click_through o || _anim_inflight o); [auto|].
    destruct (_dragging o); cbn; auto.
  - unfold mouseReleaseEvent. destruct (_dragging o); [|auto].
    rewrite (proj1 (proj2 (proj2 (schedule_collapse_controls_but_timer _ _)))).
    cbn. auto.
  - apply negb_false_iff in Ha.
    unfold toggle_autohide. cbv zeta.
    change (auto_hide (set_auto_hide (negb (auto_hide o)) o))
      with (negb (auto_hide o)).
    replace (_is_effectively_collapsed (set_auto_hide (negb (auto_hide o)) o))
      with (collapsed o).
    2:{ symmetry. unfold _is_effectively_collapsed. cbn.
        destruct (_anim_inflight o) eqn:Hi; [|reflexivity].
        now rewrite (inflight_target o Hc Hi). }
    rewrite Ha. cbn [negb andb].
    destruct (collapsed o) eqn:Hcol.
    + rewrite expand_animated_auto_hide. cbn [auto_hide set_auto_hide].
      apply expand_animated_collapsed.
    + cbn. exact Hcol.
  - cbn. auto.
  - cbn. auto.
  - rewrite anim_finished_collapsed by assumption. auto.
Qed.

(** X17.  While auto-hide is off the widget is never collapsed: in every
    reachable state with [auto_hide] false the committed mode is Expanded
    (switching auto-hide off expands a collapsed widget at once, and
    nothing collapses it again). *)
Theorem reachable_expanded_without_auto_hide o :
  reachable o -> auto_hide o = false -> collapsed o = false.
Proof.
  induction 1 as [ah ct geo0 psr0 seed | o ev Hr IH Hen].
  - reflexivity.
  - apply handle_keeps_expanded; auto using reachable_consistent.
Qed.

Lemma overlay_interrupted_reachable : reachable overlay_interrupted.
Proof.
  unfold overlay_interrupted.
  apply reach_step; [apply overlay_mid_collapse_reachable | exact I].
Qed.

Lemma reachable_expanded_without_auto_hide_witness :
  auto_hide overlay_interrupted = false /\ collapsed overlay_interrupted = false.
Proof.
  assert (Ha : auto_hide overlay_interrupted = false) by (vm_compute; reflexivity).
  split; [exact Ha|].
  exact (reachable_expanded_without_auto_hide overlay_interrupted
           overlay_interrupted_reachable Ha).
Defined.

(** X18.  While an animation is in flight, polling, the idle timer, mouse
    presses, moves and releases, the click-through toggle and the refresh
    tick leave the mode, the animation bookkeeping, the opacity and the
    geometry as they are; only the animation engine and the auto-hide
    toggle act on them. *)
Theorem in_flight_ignores_pointer ev o :
  _anim_inflight o = true ->
  match ev with
  | EvToggleAutohide _ _ | EvAnimFrame _ _ | EvAnimFinished => True
  | _ => anim_view (handle ev o) = anim_view o
  end.
Proof.
  intros Hi. destruct ev; cbn [handle]; try exact I.
  - apply refresh_view.
  - unfold _poll_mouse. now rewrite Hi, orb_true_r.
  - unfold _collapse_if_still_far.
    change (_anim_inflight (set_collapse_timer false o)) with (_anim_inflight o).
    now rewrite Hi, orb_true_r.
  - apply schedule_collapse_controls_but_timer.
  - unfold mousePressEvent. now rewrite Hi, orb_true_r.
  - unfold mouseMoveEvent. now rewrite Hi, orb_true_r.
  - unfold mouseReleaseEvent. destruct (_dragging o); [|reflexivity].
    now rewrite (proj2 (proj2 (proj2 (proj2
                   (schedule_collapse_controls_but_timer _ _))))).
  - reflexivity.
Qed.

Lemma in_flight_ignores_pointer_witness :
  anim_view (handle (EvMousePress full_hd true) overlay_mid_collapse)
  = anim_view overlay_mid_collapse.
Proof.
  apply (in_flight_ignores_pointer (EvMousePress full_hd true) overlay_mid_collapse).
  vm_compute. reflexivity.
Defined.

Lemma frames_keep frames : forall o,
  let o' := fold_left (fun o f => anim_frame (fst f) (snd f) o) frames o in
  _anim_group o' = _anim_group o /\
  _anim_target_collapsed o' = _anim_target_collapsed o /\
  expanded_geo o' = expanded_geo o /\
  dock_side o' = dock_side o /\
  auto_hide o' = auto_hide o.
Proof.
  induction frames as [|f frames IH]; intros o; [cbn; auto|].
  cbn [fold_left]. cbv zeta.
  destruct (IH (anim_frame (fst f) (snd f) o)) as (-> & -> & -> & -> & ->).
  unfold anim_frame. cbn. auto.
Qed.

Lemma anim_finished_result o eg t :
  geo_end (_anim_group o) = Some eg -> _anim_target_collapsed o = Some t ->
  geometry (anim_finished o) = eg /\
  expanded_geo (anim_finished o) = expanded_geo o /\
  dock_side (anim_finished o) = dock_side o.
Proof.
  intros Hg Ht. unfold anim_finished, _on_anim_finished. cbn. rewrite Hg, Ht.
  destruct t; cbn; auto.
Qed.

(** Where an animation that runs to its end leaves the window: at the end
    rectangle it was started with. *)
Lemma run_to_completion_result frames o eg t :
  geo_end (_anim_group o) = Some eg -> _anim_target_collapsed o = Some t ->
  geometry (run_to_completion frames o) = eg /\
  collapsed (run_to_completion frames o) = t /\
  windowOpacity (run_to_completion frames o)
    = (if t then COLLAPSED_OPACITY else EXPANDED_OPACITY) /\
  expanded_geo (run_to_completion frames o) = expanded_geo o /\
  dock_side (run_to_completion frames o) = dock_side o.
Proof.
  intros Hg Ht. unfold run_to_completion.
  destruct (frames_keep frames o) as (Eg & Et & Ee & Ed & _).
  revert Eg Et Ee Ed.
  generalize (fold_left (fun o f => anim_frame (fst f) (snd f) o) frames o).
  intros o' Eg Et Ee Ed. rewrite <- Eg in Hg. rewrite <- Et in Ht.
  destruct (anim_finished_result o' eg t Hg Ht) as (H1 & H2 & H3).
  destruct (anim_finished_commits o' t Ht) as (H4 & H5 & _).
  rewrite H1, H2, H3, H4, H5, Ee, Ed. auto.
Qed.

(** The state right after [_persist_pos (_start_anim ...)]. *)
Lemma started_fields sg eg sop eop t o :
  let o' := _persist_pos (_start_anim sg eg sop eop t o) in
  geo_end (_anim_group o') = Some eg /\
  _anim_target_collapsed o' = Some t /\
  expanded_geo o' = expanded_geo o /\
  dock_side o' = dock_side o.
Proof.
  cbv zeta.
  destruct (persist_pos_anim (_start_anim sg eg sop eop t o)) as (_ & -> & _ & ->).
  destruct (persist_pos_keeps (_start_anim sg eg sop eop t o))
    as (_ & _ & -> & -> & _).
  destruct (start_anim_group sg eg sop eop t o) as (_ & -> & _ & _ & _ & _ & -> & _).
  destruct (start_anim_keeps sg eg sop eop t o) as (_ & _ & -> & -> & _).
  auto.
Qed.

Lemma expand_target_settled s g : settled_in s g -> expand_target s g = g.
Proof.
  unfold settled_in, expand_target. intros [Hx Hy]. destruct g as [x y w h].
  cbn in *. rewrite !clamp_spec. f_equal; lia.
Qed.

(** X19.  Collapse and expansion undo each other.  If the window is
    expanded at a rectangle that is not null and that clamping into the
    screen leaves in place, then after a collapse animation has run to its
    end and an expand animation after it has run to its end, the window is
    back at exactly that rectangle, expanded, at [EXPANDED_OPACITY]. *)
Theorem collapse_expand_round_trip s fm s' frames1 frames2 o :
  collapsed o = false ->
  is_null (geometry o) = false ->
  settled_in s' (geometry o) ->
  let o1 := run_to_completion frames1 (fst (collapse_to_edge_animated s fm o)) in
  let o2 := run_to_completion frames2 (expand_animated s' o1) in
  geometry o2 = geometry o /\ collapsed o2 = false /\
  windowOpacity o2 = EXPANDED_OPACITY.
Proof.
  intros Hc Hnull Hset. cbv zeta.
  destruct (collapse_to_edge_animated_result s fm o Hc)
    as (mood & o4 & E & _ & He4 & _).
  rewrite E. cbn [fst].
  match goal with |- context [_persist_pos (_start_anim ?sg ?eg ?sop ?eop true o4)] =>
    destruct (started_fields sg eg sop eop true o4) as (Hg1 & Ht1 & He1 & _);
    destruct (run_to_completion_result frames1 _ eg true Hg1 Ht1)
      as (_ & Hc1 & _ & Hx1 & _);
    rewrite He1, He4 in Hx1;
    generalize dependent (run_to_completion frames1
                            (_persist_pos (_start_anim sg eg sop eop true o4)))
  end.
  intros o1 Hc1 Hx1.
  destruct (expand_animated_result s' o1 Hc1) as (o5 & E2 & _).
  rewrite E2. rewrite Hx1. cbn [has_geo default from_option id].
  fold (is_null (geometry o)). rewrite Hnull. cbn [negb].
  rewrite (expand_target_settled _ _ Hset).
  match goal with |- context [_persist_pos (_start_anim ?sg ?eg ?sop ?eop false o5)] =>
    destruct (started_fields sg eg sop eop false o5) as (Hg2 & Ht2 & _);
    destruct (run_to_completion_result frames2 _ eg false Hg2 Ht2)
      as (G2 & C2 & W2 & _)
  end.
  auto.
Qed.

Lemma collapse_expand_round_trip_witness :
  geometry
    (run_to_completion [(half_way_rect, 1 # 3)]
       (expand_animated full_hd
          (run_to_completion [(half_way_rect, 1 # 2)]
             (fst (collapse_to_edge_animated full_hd font_16_10 overlay_timer_armed)))))
  = start_window.
Proof.
  refine (proj1 (collapse_expand_round_trip full_hd font_16_10 full_hd
                   [(half_way_rect, 1 # 2)] [(half_way_rect, 1 # 3)]
                   overlay_timer_armed _ _ _)).
  - vm_compute. reflexivity.
  - vm_compute. reflexivity.
  - vm_compute. repeat split; discriminate.
Defined.

(** X20.  After a collapse animation has run to its end, the widget
    remembers the rectangle it collapsed from and the side nearest to it,
    and the window is the docked bar: flush at the edge margin on that side
    (left edge at left + 20, or right edge at right - 20), between 22 and
    52 pixels wide and at least 64 pixels high. *)
Theorem completed_collapse_docks s fm frames o :
  collapsed o = false ->
  let o' := run_to_completion frames (fst (collapse_to_edge_animated s fm o)) in
  expanded_geo o' = Some (geometry o) /\
  dock_side o' = _decide_nearest_side s (geometry o) /\
  (dock_side o' = SideLeft -> left (geometry o') = left s + EDGE_SAFE_PX) /\
  (dock_side o' = SideRight -> right (geometry o') = right s - EDGE_SAFE_PX) /\
  COLLAPSED_MIN_W <= rwidth (geometry o') <= COLLAPSED_MAX_W /\
  COLLAPSED_MIN_H <= rheight (geometry o').
Proof.
  intros Hc. cbv zeta.
  destruct (collapse_to_edge_animated_result s fm o Hc)
    as (mood & o4 & E & _ & He4 & Hd4 & _).
  rewrite E. cbn [fst].
  match goal with |- context [_persist_pos (_start_anim ?sg ?eg ?sop ?eop true o4)] =>
    destruct (started_fields sg eg sop eop true o4) as (Hg1 & Ht1 & He1 & Hd1);
    destruct (run_to_completion_result frames _ eg true Hg1 Ht1)
      as (-> & _ & _ & -> & ->)
  end.
  rewrite He1, He4, Hd1, Hd4.
  destruct (collapsed_size_bounds s fm mood) as (Hw & Hh & _).
  split; [reflexivity|]. split; [reflexivity|].
  unfold _collapsed_rect_for, left, right. cbn [rx ry rwidth rheight].
  repeat split; try apply Hw; try apply Hh;
    intros Hs; rewrite Hs; unfold right; lia.
Qed.

Lemma completed_collapse_docks_witness :
  dock_side (run_to_completion [(half_way_rect, 1 # 2)]
               (fst (collapse_to_edge_animated full_hd font_16_10 overlay_timer_armed)))
    = SideRight /\
  right (geometry (run_to_completion [(half_way_rect, 1 # 2)]
               (fst (collapse_to_edge_animated full_hd font_16_10 overlay_timer_armed))))
    = right full_hd - EDGE_SAFE_PX.
Proof.
  assert (Hc : collapsed overlay_timer_armed = false) by (vm_compute; reflexivity).
  destruct (completed_collapse_docks full_hd font_16_10 [(half_way_rect, 1 # 2)]
              overlay_timer_armed Hc) as (_ & Hd & _ & Hr & _).
  assert (Hside : dock_side (run_to_completion [(half_way_rect, 1 # 2)]
               (fst (collapse_to_edge_animated full_hd font_16_10 overlay_timer_armed)))
            = SideRight) by (rewrite Hd; vm_compute; reflexivity).
  split; [exact Hside | exact (Hr Hside)].
Defined.

Lemma expand_target_within_iff s g :
  within_screen s (expand_target s g) <->
  rwidth g <= rwidth s /\ rheight g <= rheight s.
Proof.
  unfold within_screen, expand_target, left, right, top, bottom.
  cbn [rx ry rwidth rheight]. rewrite !clamp_spec. lia.
Qed.

(** X21.  The rectangle an expansion animates to has the size of the
    remembered rectangle (270 by 178 when none is remembered) and lies
    within the screen exactly when that size is at most the screen's. *)
Theorem expand_animated_target_within_screen s o :
  collapsed o = true ->
  exists r,
    geo_end (_anim_group (expand_animated s o)) = Some r /\
    (rwidth r, rheight r) =
      (if has_geo (expanded_geo o)
       then match expanded_geo o with
            | Some g => (rwidth g, rheight g)
            | None => (270, 178)
            end
       else (270, 178)) /\
    (within_screen s r <-> rwidth r <= rwidth s /\ rheight r <= rheight s).
Proof.
  intros Hc. destruct (expand_animated_result s o Hc) as (o4 & E & _).
  rewrite E.
  match goal with |- context [_persist_pos (_start_anim ?sg ?eg ?sop ?eop false o4)] =>
    destruct (started_fields sg eg sop eop false o4) as (Hg & _)
  end.
  eexists. split; [exact Hg|].
  split; [|exact (expand_target_within_iff s _)].
  destruct (has_geo (expanded_geo o)); [|reflexivity].
  destruct (expanded_geo o); reflexivity.
Qed.

Lemma expand_animated_target_within_screen_witness :
  exists r,
    geo_end (_anim_group (expand_animated full_hd
               (run_to_completion [] overlay_collapsing))) = Some r /\
    within_screen full_hd r.
Proof.
  assert (Hc : collapsed (run_to_completion [] overlay_collapsing) = true)
    by (vm_compute; reflexivity).
  destruct (expand_animated_target_within_screen full_hd _ Hc)
    as (r & Hr & Hsize & Hiff).
  exists r. split; [exact Hr|]. apply Hiff.
  assert (Hs : (rwidth r, rheight r) = (270, 178))
    by (rewrite Hsize; vm_compute; reflexivity).
  injection Hs as -> ->. cbn. lia.
Defined.

(* ------------------------------------------------------------------ *)
(** ** The refresh tick, continued *)
(* ------------------------------------------------------------------ *)

Lemma PsutilReader_read_returns_iff st os :
  raises (snd (PsutilReader_read st os)) = false <->
  raises (disk_io_counters os) = false /\ raises (net_io_counters os) = false /\
  raises (cpu_percent os) = false /\ raises (cpu_freq os) = false /\
  raises (virtual_memory os) = false.
Proof.
  unfold PsutilReader_read.
  destruct (disk_io_counters os), (net_io_counters os), (cpu_percent os),
    (cpu_freq os), (virtual_memory os); cbn; intuition discriminate.
Qed.

Lemma phrases_get_returns kind usage buckets o :
  drawable buckets ->
  exists o' txt, phrases_get kind usage buckets o = (o', Ok txt).
Proof.
  intros Hd. unfold phrases_get.
  destruct usage as [u|].
  - destruct (get_returns (phrases o) (random o) kind u buckets Hd)
      as (ph & g & p & E).
    rewrite E. eauto.
  - cbn. eauto.
Qed.

(** Once [lhm.read()] and [psr.read()] have returned, the rest of [refresh]
    returns. *)
Lemma refresh_rest_returns os o lhm st psu :
  lhm_read os = Ok lhm ->
  PsutilReader_read (psr o) (psr_calls os) = (st, Ok psu) ->
  snd (refresh os o) = Ok tt.
Proof.
  intros Hl Hp. unfold refresh. rewrite Hl, Hp.
  destruct (DiskRateReader_read _ _ _) as [dr [disk_r disk_w]].
  match goal with |- context [phrases_get "cpu" ?u CPU_BUCKETS ?x] =>
    destruct (phrases_get_returns "cpu" u CPU_BUCKETS x CPU_BUCKETS_drawable)
      as (o1 & t1 & E1); rewrite E1; cbn [and_then]
  end.
  match goal with |- context [phrases_get "gpu" ?u GPU_BUCKETS ?x] =>
    destruct (phrases_get_returns "gpu" u GPU_BUCKETS x GPU_BUCKETS_drawable)
      as (o2 & t2 & E2); rewrite E2; cbn [and_then]
  end.
  match goal with |- context [phrases_get "ram" ?u RAM_BUCKETS ?x] =>
    destruct (phrases_get_returns "ram" u RAM_BUCKETS x RAM_BUCKETS_drawable)
      as (o3 & t3 & E3); rewrite E3; cbn [and_then]
  end.
  match goal with |- context [phrases_get "disk_io" ?u DISK_IO_BUCKETS ?x] =>
    destruct (phrases_get_returns "disk_io" u DISK_IO_BUCKETS x
                DISK_IO_BUCKETS_drawable)
      as (o4 & t4 & E4); rewrite E4; cbn [and_then]
  end.
  destruct (negb (_is_effectively_collapsed o4)); [reflexivity|].
  unfold _compute_mood_phrase.
  match goal with |- context [phrases_get "mood" ?u MOOD_BUCKETS ?x] =>
    destruct (phrases_get_returns "mood" u MOOD_BUCKETS x MOOD_BUCKETS_drawable)
      as (o5 & t5 & E5); rewrite E5; cbn [and_then]
  end.
  reflexivity.
Qed.

(** X22.  [refresh] returns exactly when [lhm.read()] and the five psutil
    calls inside [psr.read()] return.  A failure of the disk sampler's
    counter read or of the two fallback reads never makes it raise, and
    neither does phrase selection on the program's tables. *)
Theorem refresh_returns_iff os o :
  snd (refresh os o) = Ok tt <->
  raises (lhm_read os) = false /\
  raises (disk_io_counters (psr_calls os)) = false /\
  raises (net_io_counters (psr_calls os)) = false /\
  raises (cpu_percent (psr_calls os)) = false /\
  raises (cpu_freq (psr_calls os)) = false /\
  raises (virtual_memory (psr_calls os)) = false.
Proof.
  split.
  - intros H.
    destruct (lhm_read os) as [lhm|e] eqn:Hl.
    + split; [reflexivity|]. apply (PsutilReader_read_returns_iff (psr o)).
      destruct (PsutilReader_read (psr o) (psr_calls os)) as [st [psu|e]] eqn:Hp;
        [reflexivity|].
      unfold refresh in H. rewrite Hl, Hp in H. discriminate.
    + unfold refresh in H. rewrite Hl in H. discriminate.
  - intros (Hl & Hp).
    destruct (lhm_read os) as [lhm|e] eqn:El; [|discriminate].
    apply (PsutilReader_read_returns_iff (psr o)) in Hp.
    destruct (PsutilReader_read (psr o) (psr_calls os)) as [st [psu|e]] eqn:Ep;
      [|discriminate].
    eapply refresh_rest_returns; eauto.
Qed.

Lemma refresh_returns_iff_witness :
  snd (refresh tick_after_reset overlay_at_start) = Ok tt.
Proof.
  apply (proj2 (refresh_returns_iff tick_after_reset overlay_at_start)).
  repeat split.
Defined.

Lemma and_then_keeps {A B T : Type} (f : Overlay -> T) v
    (r : Overlay * outcome A) (k : Overlay -> A -> Overlay * outcome B) :
  f (fst r) = v ->
  (forall o a, f o = v -> f (fst (k o a)) = v) ->
  f (fst (and_then r k)) = v.
Proof.
  intros Hr Hk. destruct r as [o [a|e]]; cbn in *; [now apply Hk | exact Hr].
Qed.

Lemma phrases_get_metrics kind usage buckets o :
  metrics (fst (phrases_get kind usage buckets o)) = metrics o.
Proof.
  unfold phrases_get. destruct (get _ _ _ _ _) as [[ph g] r]. reflexivity.
Qed.

(** The CPU value [refresh] works with: psutil's, else the second reading,
    else 0.0. *)
Lemma refresh_last_cpu os o lhm st psu :
  lhm_read os = Ok lhm ->
  PsutilReader_read (psr o) (psr_calls os) = (st, Ok psu) ->
  last_cpu (metrics (fst (refresh os o))) =
    match cpu_usage psu with
    | Some v => Some v
    | None => match cpu_percent_again os with
              | Ok v => Some v
              | Raised _ => Some 0%Q
              end
    end.
Proof.
  intros Hl Hp. unfold refresh. rewrite Hl, Hp.
  destruct (DiskRateReader_read _ _ _) as [dr [disk_r disk_w]].
  set (cpu := match cpu_usage psu with Some v => Some v | None => _ end).
  match goal with |- context [set_metrics ?m ?x] =>
    set (M := m); set (X := x)
  end.
  transitivity (last_cpu M); [|reflexivity]. f_equal.
  apply and_then_keeps; [now rewrite phrases_get_metrics|]. intros o1 t1 H1.
  apply and_then_keeps; [now rewrite phrases_get_metrics|]. intros o2 t2 H2.
  apply and_then_keeps; [now rewrite phrases_get_metrics|]. intros o3 t3 H3.
  apply and_then_keeps; [now rewrite phrases_get_metrics|]. intros o4 t4 H4.
  destruct (negb (_is_effectively_collapsed o4)); [exact H4|].
  apply and_then_keeps;
    [unfold _compute_mood_phrase; now rewrite phrases_get_metrics|].
  intros o5 t5 H5. exact H5.
Qed.

(** X23.  After a refresh that returns, the stored CPU usage is never
    absent: when psutil gives no CPU figure the second reading is used, and
    when that reading raises the value is 0, so the CPU line shows 0% and
    not the placeholder. *)
Theorem refresh_cpu_never_absent os o :
  snd (refresh os o) = Ok tt ->
  (exists v, last_cpu (metrics (fst (refresh os o))) = Some v) /\
  (cpu_percent (psr_calls os) = Ok None -> raises (cpu_percent_again os) = true ->
   last_cpu (metrics (fst (refresh os o))) = Some 0%Q).
Proof.
  intros H.
  destruct (lhm_read os) as [lhm|e] eqn:Hl;
    [|unfold refresh in H; rewrite Hl in H; discriminate].
  destruct (PsutilReader_read (psr o) (psr_calls os)) as [st [psu|e]] eqn:Hp;
    [|unfold refresh in H; rewrite Hl, Hp in H; discriminate].
  rewrite (refresh_last_cpu os o lhm st psu Hl Hp).
  split.
  - destruct (cpu_usage psu); [eauto|]. destruct (cpu_percent_again os); eauto.
  - intros Hnone Hraise.
    assert (Hcu : cpu_usage psu = None).
    { unfold PsutilReader_read in Hp. rewrite Hnone in Hp.
      destruct (disk_io_counters (psr_calls os)); [|discriminate].
      destruct (net_io_counters (psr_calls os)); [|discriminate].
      destruct (cpu_freq (psr_calls os)); [|discriminate].
      destruct (virtual_memory (psr_calls os)); [|discriminate].
      injection Hp as _ <-. reflexivity. }
    rewrite Hcu. destruct (cpu_percent_again os); [discriminate | reflexivity].
Qed.

Lemma refresh_cpu_never_absent_witness :
  last_cpu (metrics (fst (refresh tick_cpu_unavailable overlay_at_start)))
  = Some 0%Q.
Proof.
  refine (proj2 (refresh_cpu_never_absent tick_cpu_unavailable overlay_at_start _)
            _ _).
  - vm_compute. reflexivity.
  - reflexivity.
  - reflexivity.
Defined.

(* ------------------------------------------------------------------ *)
(** ** Window styling and appearance *)
(* ------------------------------------------------------------------ *)

Lemma set_click_through_testbit ex_style enabled n :
  0 <= n ->
  Z.testbit (Style.set_click_through ex_style enabled) n =
    if (n =? 19) || (n =? 7) then true
    else if n =? 5 then enabled
    else Z.testbit ex_style n.
Proof.
  intros Hn. unfold Style.set_click_through.
  change WS_EX_LAYERED with (2 ^ 19).
  change WS_EX_TOOLWINDOW with (2 ^ 7).
  change WS_EX_TRANSPARENT with (2 ^ 5).
  destruct enabled; cbv zeta;
    rewrite ?Z.land_spec, ?Z.lor_spec, ?Z.lnot_spec, ?Z.pow2_bits_eqb by lia;
    rewrite ?(Z.eqb_sym 19), ?(Z.eqb_sym 7), ?(Z.eqb_sym 5);
    destruct (n =? 19) eqn:E19, (n =? 7) eqn:E7, (n =? 5) eqn:E5;
    cbn; rewrite ?orb_true_r, ?orb_false_r, ?andb_true_r, ?andb_false_r;
    try reflexivity; lia.
Qed.

(** X24.  [set_click_through] sets the layered bit (19) and the tool-window
    bit (7) of the extended style, makes the transparent bit (5) equal to
    the requested state, and leaves every other bit as it was. *)
Theorem set_click_through_bits ex_style enabled n :
  0 <= n ->
  Z.testbit (Style.set_click_through ex_style enabled) n =
    if (n =? 19) || (n =? 7) then true
    else if n =? 5 then enabled
    else Z.testbit ex_style n.
Proof. apply set_click_through_testbit. Qed.

Lemma set_click_through_bits_witness :
  Z.testbit (Style.set_click_through 0x00000108 true) 5 = true /\
  Z.testbit (Style.set_click_through 0x00000108 true) 8 = true.
Proof.
  split.
  - exact (set_click_through_bits 0x00000108 true 5 ltac:(lia)).
  - exact (set_click_through_bits 0x00000108 true 8 ltac:(lia)).
Defined.

(** X25.  Applying [set_click_through] again with another state gives the
    same style as applying it once with that state: the call does not
    depend on what an earlier call did, and repeating a call changes
    nothing. *)
Theorem set_click_through_last_wins ex_style first second :
  Style.set_click_through (Style.set_click_through ex_style first) second
  = Style.set_click_through ex_style second.
Proof.
  apply Z.bits_inj'. intros n Hn.
  rewrite !set_click_through_testbit by exact Hn.
  destruct ((n =? 19) || (n =? 7)); [reflexivity|].
  destruct (n =? 5); reflexivity.
Qed.

Lemma alpha_of_pct c :
  int_of_float (inject_Z (255 * c) / 100)%Q = Z.quot (255 * c) 100.
Proof.
  unfold int_of_float, Qdiv, Qinv, Qmult, inject_Z. cbn [Qnum Qden].
  rewrite Z.mul_1_r. reflexivity.
Qed.

(** X26.  Whatever theme key and opacity the settings hold, [apply_theme]
    produces a palette and an alpha: the palette is the keyed theme, or
    mica for a key that is not in [THEMES], and the alpha lies between 76
    and 242. *)
Theorem apply_theme_always_styles a :
  (exists t, palette (apply_theme a) = Some t /\
             (THEMES !! theme_key a = Some t \/
              (THEMES !! theme_key a = None /\ t = mica))) /\
  (exists v, alpha (apply_theme a) = Some v /\ 76 <= v <= 242).
Proof.
  unfold apply_theme. cbn [palette alpha]. split.
  - destruct (THEMES !! theme_key a) as [t|] eqn:E; cbn; eauto.
  - eexists. split; [reflexivity|].
    rewrite alpha_of_pct, clamp_spec.
    assert (H : 30 <= Z.max 30 (Z.min 95 (opacity_pct a)) <= 95) by lia.
    revert H. generalize (Z.max 30 (Z.min 95 (opacity_pct a))). intros c Hc.
    rewrite Z.quot_div_nonneg by lia.
    split.
    + apply Z.div_le_lower_bound; lia.
    + apply Z.lt_succ_r, Z.div_lt_upper_bound; lia.
Qed.

(** X27.  [set_opacity_pct] always stores an opacity between 30 and 95;
    [set_theme] with a key that is not in [THEMES] changes nothing, and with
    a key of [THEMES] stores that key and applies its palette. *)
Theorem set_theme_and_opacity a key v :
  30 <= opacity_pct (set_opacity_pct v a) <= 95 /\
  (THEMES !! key = None -> set_theme key a = a) /\
  (forall t, THEMES !! key = Some t ->
     theme_key (set_theme key a) = key /\
     palette (set_theme key a) = Some t /\
     saved_theme (set_theme key a) = Some key).
Proof.
  split; [|split].
  - unfold set_opacity_pct, apply_theme. cbn [opacity_pct].
    rewrite clamp_spec. lia.
  - intros H. unfold set_theme. now rewrite H.
  - intros t H. unfold set_theme, apply_theme. rewrite H.
    cbn [theme_key palette saved_theme]. rewrite H. auto.
Qed.

Lemma set_theme_and_opacity_witness :
  set_theme "solarized" appearance_from_bad_settings = appearance_from_bad_settings /\
  theme_key (set_theme "neon" appearance_from_bad_settings) = "neon"%string.
Proof.
  destruct (set_theme_and_opacity appearance_from_bad_settings "solarized" 0)
    as (_ & Hnone & _).
  destruct (set_theme_and_opacity appearance_from_bad_settings "neon" 0)
    as (_ & _ & Hsome).
  split.
  - apply Hnone. vm_compute. reflexivity.
  - apply (Hsome neon). vm_compute. reflexivity.
Defined.

(** X28.  [_restore_or_default_pos] puts the window at the saved position
    clamped into the screen, where it lies within the screen exactly when it
    is not larger than the screen; without a saved position, or when the
    saved one cannot be used, the window goes 10 pixels below the top and
    its right edge 11 pixels left of the screen's right edge. *)
Theorem restore_or_default_pos_placement screen w h saved :
  let p := Style._restore_or_default_pos screen w h saved in
  let r := {| rx := fst p; ry := snd p; rwidth := w; rheight := h |} in
  (forall x y, saved = Some (Ok (x, y)) ->
     (within_screen screen r <-> w <= rwidth screen /\ h <= rheight screen) /\
     (settled_in screen {| rx := x; ry := y; rwidth := w; rheight := h |} ->
      p = (x, y))) /\
  ((saved = None \/ exists e, saved = Some (Raised e)) ->
     top r = top screen + 10 /\ right r = right screen - 11).
Proof.
  cbv zeta. split.
  - intros x y ->. cbn [Style._restore_or_default_pos fst snd].
    unfold within_screen, settled_in, left, right, top, bottom.
    cbn [rx ry rwidth rheight]. rewrite !clamp_spec. split; [lia|].
    intros [Hx Hy]. f_equal; lia.
  - intros [-> | [e ->]]; cbn; unfold right, top; cbn; lia.
Qed.

Lemma restore_or_default_pos_placement_witness :
  within_screen full_hd
    {| rx := fst (Style._restore_or_default_pos full_hd 270 178
                    (Some (Ok (5000, -30))));
       ry := snd (Style._restore_or_default_pos full_hd 270 178
                    (Some (Ok (5000, -30))));
       rwidth := 270; rheight := 178 |}.
Proof.
  apply (proj1 (restore_or_default_pos_placement full_hd 270 178
                  (Some (Ok (5000, -30)))) 5000 (-30) eq_refl).
  cbn. lia.
Defined.

(* ------------------------------------------------------------------ *)
(** ** Hardware sensors *)
(* ------------------------------------------------------------------ *)

Lemma keys_disjoint k : In k reading_keys -> In k max_keys -> False.
Proof.
  cbv [reading_keys max_keys In].
  intros Hr Hm.
  repeat match goal with
         | H : _ \/ _ |- _ => destruct H
         | H : False |- _ => destruct H
         end; subst; discriminate.
Qed.

Lemma item_lookup (data : Data) k q :
  item data k = Some q <-> data !! k = Some (Some q).
Proof.
  unfold item. destruct (data !! k) as [v|]; split; intros H;
    try discriminate; congruence.
Qed.

Section ReadInvariant.

Variable P : Data -> Prop.
Hypothesis keep_reading_P :
  forall k s data, In k reading_keys -> P data -> P (keep_reading k s data).
Hypothesis keep_max_P :
  forall k s data, In k max_keys -> P data -> P (keep_max k s data).

Ltac a_key := cbv [reading_keys max_keys In];
  repeat (first [left; reflexivity | right]).

Ltac step :=
  repeat match goal with
         | |- P (if ?c then _ else _) => destruct c
         | |- P (keep_reading _ _ _) => apply keep_reading_P; [a_key|]
         | |- P (keep_max _ _ _) => apply keep_max_P; [a_key|]
         end; try assumption.

Lemma scan_cpu_sensor_P data s : P data -> P (scan_cpu_sensor data s).
Proof.
  intros H. unfold scan_cpu_sensor. cbv zeta.
  destruct (sensor_type s); step.
Qed.

Lemma scan_gpu_sensor_P data s : P data -> P (scan_gpu_sensor data s).
Proof.
  intros H. unfold scan_gpu_sensor. cbv zeta.
  destruct (sensor_type s); step.
Qed.

Lemma scan_storage_sensor_P data s : P data -> P (scan_storage_sensor data s).
Proof.
  intros H. unfold scan_storage_sensor. cbv zeta.
  destruct (sensor_type s); step.
Qed.

Lemma fold_left_P {A} (f : Data -> A -> Data) :
  (forall data x, P data -> P (f data x)) ->
  forall l data, P data -> P (fold_left f l data).
Proof.
  intros Hf l. induction l as [|x l IH]; intros data H; cbn; auto.
Qed.

Lemma scan_one_P data h : P data -> P (scan_one data h).
Proof.
  intros H. unfold scan_one.
  destruct (hardware_type h); try assumption;
    apply fold_left_P; auto using scan_cpu_sensor_P, scan_gpu_sensor_P,
                                  scan_storage_sensor_P.
Qed.

Lemma read_from_P hardware :
  forall data data', P data -> read_from data hardware = Ok data' -> P data'.
Proof.
  induction hardware as [|hw rest IH]; intros data data' H Hr; cbn in Hr.
  - congruence.
  - unfold read_hardware in Hr.
    destruct (Update (node hw)); [|discriminate].
    destruct (update_all (SubHardware hw)); [|discriminate].
    eapply IH; [|exact Hr].
    apply fold_left_P; [intros; apply scan_one_P; assumption|].
    apply scan_one_P, H.
Qed.

End ReadInvariant.

Lemma py_or_nonzero a b q :
  py_or a b = Some q -> (a = Some q /\ ~ (q == 0)%Q) \/ b = Some q.
Proof.
  unfold py_or. destruct a as [v|]; [|auto].
  destruct (Qeq_bool v 0) eqn:E; [auto|].
  intros [= <-]. left. split; [reflexivity|].
  intros Hq. apply Qeq_bool_iff in Hq. congruence.
Qed.

Lemma keep_reading_no_zero k s data :
  no_zero_reading data -> no_zero_reading (keep_reading k s data).
Proof.
  intros H k' q Hin Hl. unfold keep_reading in Hl.
  destruct (decide (k = k')) as [->|Hne].
  - rewrite lookup_insert_eq in Hl. injection Hl as Hl.
    apply py_or_nonzero in Hl as [[_ Hq]|Hi]; [exact Hq|].
    apply item_lookup in Hi. exact (H k' q Hin Hi).
  - rewrite lookup_insert_ne in Hl by exact Hne. exact (H k' q Hin Hl).
Qed.

Lemma keep_max_no_zero k s data :
  In k max_keys -> no_zero_reading data -> no_zero_reading (keep_max k s data).
Proof.
  intros Hk H k' q Hin Hl. unfold keep_max in Hl.
  destruct (_sensor_value s); [|exact (H k' q Hin Hl)].
  cbv zeta in Hl. rewrite lookup_insert_ne in Hl.
  - exact (H k' q Hin Hl).
  - intros ->. exact (keys_disjoint _ Hin Hk).
Qed.

Lemma keep_reading_freq_nonneg k s data :
  In k reading_keys -> freq_nonneg data -> freq_nonneg (keep_reading k s data).
Proof.
  intros Hk H k' q Hin Hl. unfold keep_reading in Hl.
  rewrite lookup_insert_ne in Hl.
  - exact (H k' q Hin Hl).
  - intros ->. exact (keys_disjoint _ Hk Hin).
Qed.

Lemma keep_max_freq_nonneg k s data :
  freq_nonneg data -> freq_nonneg (keep_max k s data).
Proof.
  intros H k' q Hin Hl. unfold keep_max in Hl.
  destruct (_sensor_value s) as [v|]; [|exact (H k' q Hin Hl)].
  cbv zeta in Hl.
  destruct (decide (k = k')) as [->|Hne].
  - rewrite lookup_insert_eq in Hl. injection Hl as <-.
    eapply Qle_trans; [|apply fmax_lb_l].
    unfold py_or. destruct (item data k') as [o|] eqn:Ei; [|cbn; lra].
    destruct (Qeq_bool o 0); [cbn; lra|].
    apply item_lookup in Ei. exact (H k' o Hin Ei).
  - rewrite lookup_insert_ne in Hl by exact Hne. exact (H k' q Hin Hl).
Qed.

Lemma keep_reading_all_keys k s data :
  all_keys data -> all_keys (keep_reading k s data).
Proof.
  intros H k' Hk'. unfold keep_reading. apply lookup_insert_is_Some.
  destruct (decide (k = k')); auto.
Qed.

Lemma keep_max_all_keys k s data :
  all_keys data -> all_keys (keep_max k s data).
Proof.
  intros H k' Hk'. unfold keep_max.
  destruct (_sensor_value s); [|auto].
  cbv zeta. apply lookup_insert_is_Some.
  destruct (decide (k = k')); auto.
Qed.

Lemma empty_data_all_None k v : empty_data !! k = Some v -> v = None.
Proof.
  unfold empty_data. intros H.
  apply elem_of_list_to_map_2 in H.
  repeat match goal with
         | H : _ ∈ _ :: _ |- _ => apply elem_of_cons in H as [H|H]
         | H : _ ∈ [] |- _ => apply elem_of_nil in H; destruct H
         end; congruence.
Qed.

(** X29.  In the dictionary [LhmReader.read] returns all twelve keys are
    present; a key written with [... or data[k]] never holds 0 (a sensor
    reading of exactly zero is taken as missing), and the two frequency
    keys, written with [max(data[k] or 0.0, v)], never hold a negative
    number. *)
Theorem LhmReader_read_values hardware data :
  LhmReader_read hardware = Ok data ->
  (forall k, is_Some (empty_data !! k) -> is_Some (data !! k)) /\
  (forall k q, In k reading_keys -> item data k = Some q -> ~ (q == 0)%Q) /\
  (forall k q, In k max_keys -> item data k = Some q -> (0 <= q)%Q).
Proof.
  intros Hr. unfold LhmReader_read in Hr. split; [|split].
  - refine (read_from_P all_keys _ _ hardware empty_data data _ Hr).
    + intros; apply keep_reading_all_keys; assumption.
    + intros; apply keep_max_all_keys; assumption.
    + intros k Hk. exact Hk.
  - intros k q Hin Hi. apply item_lookup in Hi. revert k q Hin Hi.
    refine (read_from_P no_zero_reading _ _ hardware empty_data data _ Hr).
    + intros; apply keep_reading_no_zero; assumption.
    + intros; apply keep_max_no_zero; assumption.
    + intros k q _ Hl. apply empty_data_all_None in Hl. discriminate.
  - intros k q Hin Hi. apply item_lookup in Hi. revert k q Hin Hi.
    refine (read_from_P freq_nonneg _ _ hardware empty_data data _ Hr).
    + intros; apply keep_reading_freq_nonneg; assumption.
    + intros; apply keep_max_freq_nonneg; assumption.
    + intros k q _ Hl. apply empty_data_all_None in Hl. discriminate.
Qed.

Lemma LhmReader_read_values_witness :
  LhmReader_read [idle_gpu] = Ok (<["gpu_freq" := Some 210%Q]> empty_data) /\
  is_Some ((<["gpu_freq" := Some 210%Q]> empty_data) !! "gpu_load"%string).
Proof.
  assert (Hr : LhmReader_read [idle_gpu]
               = Ok (<["gpu_freq" := Some 210%Q]> empty_data))
    by (vm_compute; reflexivity).
  split; [exact Hr|].
  apply (proj1 (LhmReader_read_values [idle_gpu] _ Hr)).
  vm_compute. eauto.
Defined.

Lemma update_all_raises subs :
  raises (update_all subs) = existsb (fun shw => raises (Update shw)) subs.
Proof.
  induction subs as [|shw rest IH]; cbn; [reflexivity|].
  destruct (Update shw); cbn; [exact IH|reflexivity].
Qed.

(** X30.  [LhmReader.read] raises exactly when an [Update()] call on some
    entry of the hardware list or on one of its children raises; a sensor
    whose [Value] cannot be read never makes it raise. *)
Theorem LhmReader_read_raises_iff hardware :
  raises (LhmReader_read hardware) = existsb update_raises hardware.
Proof.
  unfold LhmReader_read. generalize empty_data.
  induction hardware as [|hw rest IH]; intros data; cbn; [reflexivity|].
  unfold read_hardware, update_raises.
  rewrite <- update_all_raises.
  destruct (Update (node hw)); cbn; [|reflexivity].
  destruct (update_all (SubHardware hw)); cbn; [apply IH|reflexivity].
Qed.
